(** * create-cloudflare telemetry reporter and wrangler d1 execute

  A shallow embedding of

  - [metrics.ts] of create-cloudflare ([createReporter] with [sendEvent],
    [getDuration], [waitForAllEventsSettled], [collectAsyncMetrics] and
    [setEventProperty]; [getC3Permission], [updateC3Pemission] and
    [runTelemetryCommand]),
  - [helpers/sparrow.ts] ([hasSparrowSourceKey]),
  - [CancelError] of [@cloudflare/cli/error],
  - [batchSplit], [executeSql], [executeRemotely] and [shorten] of
    wrangler's [d1 execute],

  followed by the properties of these functions. *)

From Stdlib Require Import ZArith Lia SpecFloat.
From stdpp Require Import base option list gmap strings fin_maps.

Local Open Scope string_scope.
Local Set Warnings "-register-all,-clear-no-such-hyp".

(** ** JavaScript values, thrown values and promises *)

Module JS.

(** Numbers.  The reporter produces integers (timestamps, the event
    counter, [durationMs]) and quotients of an integer by an integer
    constant ([ms / 1000], [ms / 1000 / 60]).  A quotient is a double; it
    is kept as the division it comes from, not evaluated. *)
Inductive num : Type :=
| NInt (z : Z)
| NDiv (n : num) (d : Z).

(** The values event properties hold: what [JSON.stringify] accepts,
    [undefined], and two kinds of value it throws a [TypeError] at: a
    [BigInt], and an object that holds itself ([const o = {}; o.self = o]).
    Objects and arrays are plain ones, with [Object.prototype] and
    [Array.prototype] behind them. *)
Inductive val : Type :=
| VUndefined
| VNull
| VBool (b : bool)
| VNum (n : num)
| VStr (s : string)
| VArr (items : list val)
| VObj (fields : list (string * val))
| VBigInt (z : Z)
| VCircular.

(** Whether [JSON.stringify(v)] returns: it throws when it meets a
    [BigInt] or comes back to an object it is inside of. *)
Fixpoint stringifies (v : val) : bool :=
  match v with
  | VBigInt _ | VCircular => false
  | VArr items => forallb stringifies items
  | VObj fields => forallb (fun field => stringifies (snd field)) fields
  | _ => true
  end.

(** [typeof v === "object" && v !== null] *)
Definition is_object (v : val) : bool :=
  match v with
  | VArr _ | VObj _ | VCircular => true
  | _ => false
  end.

(** Whether [v] has an own property of the name [key]: a field of an
    object literal or of a parsed JSON object. *)
Definition hasOwn (key : string) (v : val) : bool :=
  match v with
  | VObj fields => existsb (fun field => String.eqb (fst field) key) fields
  | _ => false
  end.

(** [NodeJS.Signals], restricted to the two signals the reporter listens
    to. *)
Inductive Signals : Type := SIGINT | SIGTERM.

(** What a [throw] or a rejection carries.  [instanceof] needs the class:
    an [Error] that is not a [CancelError], a [CancelError] (which extends
    [Error] by a [signal] field), or a value that is no [Error] at all. *)
Inductive thrown : Type :=
| JsError (message stack : val)
| JsCancelError (message stack : val) (signal : option Signals)
| JsThrown (v : val).

Definition instanceof_Error (e : thrown) : bool :=
  match e with
  | JsError _ _ | JsCancelError _ _ _ => true
  | JsThrown _ => false
  end.

Definition instanceof_CancelError (e : thrown) : bool :=
  match e with
  | JsCancelError _ _ _ => true
  | _ => false
  end.

(** [e.message] and [e.stack] of an [Error] instance (the reporter reads
    them of no other value). *)
Definition message (e : thrown) : val :=
  match e with
  | JsError m _ | JsCancelError m _ _ => m
  | JsThrown _ => VUndefined
  end.

Definition stack (e : thrown) : val :=
  match e with
  | JsError _ s | JsCancelError _ s _ => s
  | JsThrown _ => VUndefined
  end.

(** The state of a promise. *)
Inductive promise (A : Type) : Type :=
| Pending
| Fulfilled (value : A)
| Rejected (reason : thrown).
#[global] Arguments Pending {A}.
#[global] Arguments Fulfilled {A} value.
#[global] Arguments Rejected {A} reason.

Definition is_pending {A} (p : promise A) : bool :=
  match p with Pending => true | _ => false end.


(** A promise settles once: a pending promise takes the [outcome], a
    settled one keeps its state. *)
Definition settle {A} (p outcome : promise A) : promise A :=
  match p with Pending => outcome | _ => p end.

(** The two functions [new Promise] hands out ([promiseWithResolvers]). *)
Definition resolve {A} (p : promise A) (v : A) : promise A :=
  settle p (Fulfilled v).

Definition reject {A} (p : promise A) (e : thrown) : promise A :=
  settle p (Rejected e).

(** [p.then(f)] and [p.catch(f)] for callbacks that return normally. *)
Definition then_ {A B} (f : A -> B) (p : promise A) : promise B :=
  match p with
  | Pending => Pending
  | Fulfilled a => Fulfilled (f a)
  | Rejected e => Rejected e
  end.

Definition catch_ {A} (f : thrown -> A) (p : promise A) : promise A :=
  match p with
  | Rejected e => Fulfilled (f e)
  | _ => p
  end.

(** [Promise.race([p, q])] takes the state of the first input that settles
    and keeps it: when an input changes state to [input], the race [r]
    becomes [settle r input]. *)

(** The entries of the array [Promise.allSettled] fulfils with. *)
Inductive settled (A : Type) : Type :=
| SettledFulfilled (value : A)
| SettledRejected (reason : thrown).
#[global] Arguments SettledFulfilled {A} value.
#[global] Arguments SettledRejected {A} reason.

Definition settlement {A} (p : promise A) : option (settled A) :=
  match p with
  | Pending => None
  | Fulfilled a => Some (SettledFulfilled a)
  | Rejected e => Some (SettledRejected e)
  end.

(** [Promise.allSettled]: pending while an input is pending, then
    fulfilled with one entry per input; it never rejects. *)
Definition allSettled {A} (ps : list (promise A)) : promise (list (settled A)) :=
  match mapM settlement ps with
  | Some rs => Fulfilled rs
  | None => Pending
  end.

(** Object spread: [{...target, ...source}] copies the own properties of
    [source] over those of [target]. *)
Definition spread (target source : gmap string val) : gmap string val :=
  source ∪ target.

(** What an object created by a literal has behind it: [Object.prototype]
    until an assignment to [__proto__] replaces it by [null] or by an
    object. *)
Inductive Prototype : Type :=
| ObjectPrototype
| NullPrototype
| ValuePrototype (v : val).

(** An object: its own enumerable properties, which a spread copies, and
    its prototype. *)
Record object : Type := {
  own : gmap string val;
  prototype : Prototype;
}.

(** [{}] *)
Definition emptyObject : object := {| own := ∅; prototype := ObjectPrototype |}.

(** Whether an assignment [o.__proto__ = v] to an object with this
    prototype and no own property [__proto__] finds the accessor of
    [Object.prototype]: not behind [null], and not behind an object that
    has a property [__proto__] of its own. *)
Definition inheritsProtoAccessor (p : Prototype) : bool :=
  match p with
  | ObjectPrototype => true
  | NullPrototype => false
  | ValuePrototype v => negb (hasOwn "__proto__" v)
  end.

(** [o[key] = value] on such an object.  Any key but [__proto__] becomes
    an own property (what is behind the object holds writable data
    properties only).  For [__proto__]: an own property of that name is
    written; else, where the accessor of [Object.prototype] is inherited,
    its setter replaces the prototype when [value] is an object or [null]
    and does nothing for any other value; else the assignment creates the
    own property. *)
Definition assign (key : string) (value : val) (o : object) : object :=
  if negb (String.eqb key "__proto__") then
    {| own := <[key := value]> (own o); prototype := prototype o |}
  else
    match own o !! "__proto__" with
    | Some _ => {| own := <["__proto__" := value]> (own o); prototype := prototype o |}
    | None =>
        if inheritsProtoAccessor (prototype o) then
          if is_object value then
            {| own := own o; prototype := ValuePrototype value |}
          else
            match value with
            | VNull => {| own := own o; prototype := NullPrototype |}
            | _ => o
            end
        else {| own := <["__proto__" := value]> (own o); prototype := prototype o |}
    end.

(** [xs.slice(start, end)] for indices that are natural numbers: both are
    clamped to the length, and an end before the start gives []. *)
Definition slice {A} (xs : list A) (start stop : nat) : list A :=
  take (stop - start) (drop start xs).

(** [xs.join(sep)] for an array of strings. *)
Fixpoint join (sep : string) (xs : list string) : string :=
  match xs with
  | [] => ""
  | [x] => x
  | x :: rest => x ++ sep ++ join sep rest
  end.

End JS.

(** ** JavaScript Numbers *)

Module Number.

(** A Number is a value of IEEE 754 binary64: not a number, an infinity, a
    zero (both with the sign: [true] is negative), or [S754_finite s m e],
    which is [m * 2^e] with that sign; a Number the operations return has
    [m] below 2^53, and [e] is -1074 when [m] is below 2^52. *)
Definition number : Type := spec_float.

(** [floor(log2(p / q))] for positive [p] and [q]. *)
Definition log2_ratio (p q : Z) : Z :=
  let k := (Z.log2 p - Z.log2 q)%Z in
  if (q * 2 ^ Z.max k 0 <=? p * 2 ^ Z.max (- k) 0)%Z then k else (k - 1)%Z.

(** The integer nearest to [a / b] for a positive [b]; of two that are
    equally near, the even one. *)
Definition nearest_even (a b : Z) : Z :=
  let f := (a / b)%Z in
  match (2 * (a mod b) ?= b)%Z with
  | Lt => f
  | Gt => (f + 1)%Z
  | Eq => if Z.even f then f else (f + 1)%Z
  end.

(** The Number [m * 2^e] for [m] from 0 to 2^53 - 1: a zero, or infinite
    beyond the largest exponent. *)
Definition finite (negative : bool) (m e : Z) : number :=
  match m with
  | Zpos m => if (971 <? e)%Z then S754_infinity negative else S754_finite negative m e
  | _ => S754_zero negative
  end.

(** The Number nearest to [p / q], for positive [p] and [q], with the sign
    given: round to nearest, ties to even.  [e] is the exponent of the
    last of the 53 bits of the quotient, but not less than -1074, the
    exponent of the subnormal Numbers; [m] is the quotient in units of
    [2^e], rounded; when that gives 2^53 the Number is [2^52 * 2^(e+1)]. *)
Definition round (negative : bool) (p q : Z) : number :=
  let e := Z.max (log2_ratio p q - 52) (-1074) in
  let m := nearest_even (p * 2 ^ Z.max (- e) 0) (q * 2 ^ Z.max e 0) in
  if (m =? 2 ^ 53)%Z then finite negative (2 ^ 52) (e + 1) else finite negative m e.

(** The Number of a length or of a loop counter. *)
Definition ofNat (n : nat) : number :=
  match n with
  | 0 => S754_zero false
  | _ => round false (Z.of_nat n) 1
  end.

(** [x / y] *)
Definition divide (x y : number) : number :=
  match x, y with
  | S754_nan, _ | _, S754_nan => S754_nan
  | S754_infinity _, S754_infinity _ => S754_nan
  | S754_zero _, S754_zero _ => S754_nan
  | S754_infinity sx, S754_finite sy _ _
  | S754_infinity sx, S754_zero sy
  | S754_finite sx _ _, S754_zero sy => S754_infinity (xorb sx sy)
  | S754_finite sx _ _, S754_infinity sy
  | S754_zero sx, S754_infinity sy
  | S754_zero sx, S754_finite sy _ _ => S754_zero (xorb sx sy)
  | S754_finite sx mx ex, S754_finite sy my ey =>
      round (xorb sx sy)
        (Zpos mx * 2 ^ Z.max (ex - ey) 0) (Zpos my * 2 ^ Z.max (ey - ex) 0)
  end.

(** [x * y] *)
Definition multiply (x y : number) : number :=
  match x, y with
  | S754_nan, _ | _, S754_nan => S754_nan
  | S754_infinity _, S754_zero _ | S754_zero _, S754_infinity _ => S754_nan
  | S754_infinity sx, S754_infinity sy
  | S754_infinity sx, S754_finite sy _ _
  | S754_finite sx _ _, S754_infinity sy => S754_infinity (xorb sx sy)
  | S754_zero sx, S754_zero sy
  | S754_zero sx, S754_finite sy _ _
  | S754_finite sx _ _, S754_zero sy => S754_zero (xorb sx sy)
  | S754_finite sx mx ex, S754_finite sy my ey =>
      round (xorb sx sy)
        (Zpos (mx * my) * 2 ^ Z.max (ex + ey) 0) (2 ^ Z.max (- (ex + ey)) 0)
  end.

(** [Math.ceil(x)]: the least integer not below [x]; a negative zero from
    a Number between -1 and 0. *)
Definition Math_ceil (x : number) : number :=
  match x with
  | S754_finite negative m e =>
      if (0 <=? e)%Z then x
      else
        match (if negative then - (Zpos m / 2 ^ (- e)) else - (Zneg m / 2 ^ (- e)))%Z with
        | Z0 => S754_zero negative
        | Zpos c => round false (Zpos c) 1
        | Zneg c => round true (Zpos c) 1
        end
  | _ => x
  end.

(** [i < x] for a loop counter [i]; it is false for a [NaN]. *)
Definition lessThan (i : nat) (x : number) : bool :=
  match x with
  | S754_infinity false => true
  | S754_finite false m e =>
      (Z.of_nat i * 2 ^ Z.max (- e) 0 <? Zpos m * 2 ^ Z.max e 0)%Z
  | _ => false
  end.

(** How often the body of [for (let i = 0; i < x; i++)] runs when it
    pushes to an array each time: the least [i] at which [i < x] fails.
    There is none for the infinity, and with one from 2^32 on the loop
    does not get there: an array holds fewer than 2^32 elements. *)
Definition iterations (x : number) : option nat :=
  match x with
  | S754_infinity false => None
  | S754_finite false m e =>
      let count := (- (Zneg m * 2 ^ Z.max e 0 / 2 ^ Z.max (- e) 0))%Z in
      if (count <? 2 ^ 32)%Z then Some (Z.to_nat count) else None
  | _ => Some 0%nat
  end.

(** The index [slice] makes of an argument for an array of length [len]:
    [ToIntegerOrInfinity] cuts the fraction off and takes [NaN] to 0, a
    negative integer counts from the end, and the result is kept between
    0 and [len]. *)
Definition relativeIndex (len : nat) (x : number) : nat :=
  match x with
  | S754_nan | S754_zero _ | S754_infinity true => 0
  | S754_infinity false => len
  | S754_finite negative m e =>
      let integer := (Zpos m * 2 ^ Z.max e 0 / 2 ^ Z.max (- e) 0)%Z in
      if negative then Z.to_nat (Z.max (Z.of_nat len - integer) 0)
      else Z.to_nat (Z.min integer (Z.of_nat len))
  end.

(** [xs.slice(start, end)] *)
Definition slice {A} (xs : list A) (start stop : number) : list A :=
  JS.slice xs (relativeIndex (length xs) start) (relativeIndex (length xs) stop).

End Number.

(** ** wrangler d1 execute: [batchSplit] *)

Module D1.
Import JS.

(** [Math.ceil(n / d)] for a length [n] and a batch size [d >= 1].  An
    array has fewer than 2^32 elements, so the double [n / d] is an integer
    only when [d] divides [n], and its ceiling is the ceiling of the exact
    quotient. *)
Definition Math_ceil_div (n d : nat) : nat :=
  if (n mod d =? 0)%nat then (n / d)%nat else S (n / d).

(** The [for] loop of [batchSplit]: [todo] iterations are left, [i] is the
    loop counter and [batches] the array pushed to. *)
Fixpoint batchSplit_loop (queries : list string) (batchSize : nat)
    (todo i : nat) (batches : list string) : list string :=
  match todo with
  | 0 => batches
  | S todo' =>
      batchSplit_loop queries batchSize todo' (S i)
        (batches ++ [join "; " (slice queries (i * batchSize) ((i + 1) * batchSize))])
  end.

(** [batchSplit(queries, batchSize)] for a batch size that is a natural
    number.  With [batchSize = 0] and a statement to send, [num_batches]
    is [Infinity] and the loop does not end: [None].  With [batchSize = 0]
    and no statement it is [NaN] and the loop body never runs.  The two
    [logger.log] lines are left out. *)
Definition batchSplit (queries : list string) (batchSize : nat) : option (list string) :=
  match batchSize, queries with
  | 0, [] => Some []
  | 0, _ :: _ => None
  | _, _ =>
      let num_batches := Math_ceil_div (length queries) batchSize in
      Some (batchSplit_loop queries batchSize num_batches 0 [])
  end.


End D1.

(** ** wrangler d1 execute: [batchSplit] on Numbers *)

Module D1Number.
Import JS Number.

(** The [for] loop of [batchSplit]: [todo] iterations are left, [i] is the
    loop counter and [batches] the array pushed to. *)
Fixpoint batchSplit_loop (queries : list string) (batchSize : number)
    (todo i : nat) (batches : list string) : list string :=
  match todo with
  | 0 => batches
  | S todo' =>
      batchSplit_loop queries batchSize todo' (S i)
        (batches ++
         [join "; "
            (slice queries (multiply (ofNat i) batchSize)
               (multiply (ofNat (i + 1)) batchSize))])
  end.

(** [batchSplit(queries, batchSize)] for any Number [batchSize] (the
    option [--batch-size] is parsed as a number and not checked): [None]
    when the loop does not come to its end.  The two [logger.log] lines
    are left out. *)
Definition batchSplit (queries : list string) (batchSize : number)
  : option (list string) :=
  let num_batches := Math_ceil (divide (ofNat (length queries)) batchSize) in
  match iterations num_batches with
  | Some todo => Some (batchSplit_loop queries batchSize todo 0 [])
  | None => None
  end.

End D1Number.

(** ** helpers/sparrow.ts *)

Module Sparrow.
Import JS.

(** [EventPayload].  [metrics.ts] never sets [userId]. *)
Record EventPayload : Type := {
  event : string;
  deviceId : string;
  userId : option string;
  timestamp : Z;
  properties : gmap string val;
}.

(** [hasSparrowSourceKey()].  The constant [SPARROW_SOURCE_KEY] of the
    module is the placeholder below until the build replaces it (esbuild's
    [define]), so it is an argument here. *)
Definition hasSparrowSourceKey (SPARROW_SOURCE_KEY : string) : bool :=
  negb (String.eqb SPARROW_SOURCE_KEY "__SPARROW_SOURCE_KEY__").

End Sparrow.

(** ** helpers/metrics-config: the persisted metrics config *)

Module MetricsConfig.

(** [c3permission]: [date] is the epoch time of the [new Date()] that
    stamped it. *)
Record C3Permission : Type := {
  enabled : bool;
  date : Z;
}.

Record MetricsConfigFile : Type := {
  c3permission : option C3Permission;
  deviceId : option string;
}.

(** The config file: what it holds, and every config written to it so far,
    oldest first. *)
Record disk : Type := {
  stored : MetricsConfigFile;
  written : list MetricsConfigFile;
}.

(** Modelled from the spec: [readMetricsConfig] of helpers/metrics-config
    is not among the sources.  The spec's persisted permission/config
    record [{c3permission?, deviceId?}] is read back as it was last
    written. *)
Definition readMetricsConfig (d : disk) : MetricsConfigFile := stored d.

(** Modelled from the spec: [writeMetricsConfig] of helpers/metrics-config
    is not among the sources.  Writing replaces the persisted record. *)
Definition writeMetricsConfig (config : MetricsConfigFile) (d : disk) : disk :=
  {| stored := config; written := (written d ++ [config])%list |}.

End MetricsConfig.

(** ** metrics.ts *)

Module Metrics.
Import JS.
Import MetricsConfig.

(** What the module reads from its surroundings: the source key the build
    put into [sparrow.ts], the [version] of package.json,
    [process.env.VITEST], [process.platform], and the stack the engine
    records in an [Error] the reporter constructs. *)
Record Env : Type := {
  SPARROW_SOURCE_KEY : string;
  c3Version : string;
  VITEST : option string;
  process_platform : string;
  capturedStack : string;
}.

(** Truthiness of an environment variable: set and not empty. *)
Definition env_truthy (v : option string) : bool :=
  match v with
  | Some s => negb (String.eqb s "")
  | None => false
  end.

(** [getPlatform()] *)
Definition getPlatform (E : Env) : string :=
  let platform := process_platform E in
  if String.eqb platform "win32" then "Windows"
  else if String.eqb platform "darwin" then "Mac OS"
  else if String.eqb platform "linux" then "Linux"
  else "Others: " ++ platform.

(** [initializeC3Permission(enabled = true)]; [now] is what [new Date()]
    reads. *)
Definition initializeC3Permission (now : Z) (enabled : bool) : C3Permission :=
  {| enabled := enabled; date := now |}.

(** [getC3Permission(config)]: the permission, the config object as the
    call leaves it, and the disk. *)
Definition getC3Permission (now : Z) (config : MetricsConfigFile) (d : disk)
    : C3Permission * MetricsConfigFile * disk :=
  match c3permission config with
  | Some permission => (permission, config, d)
  | None =>
      let permission := initializeC3Permission now true in
      let config' := {| c3permission := Some permission;
                        MetricsConfig.deviceId := MetricsConfig.deviceId config |} in
      (permission, config', writeMetricsConfig config' d)
  end.

(** [updateC3Pemission(enabled)] *)
Definition updateC3Pemission (now : Z) (enabled : bool) (d : disk) : disk :=
  let config := readMetricsConfig d in
  if match c3permission config with
     | Some permission => Bool.eqb (MetricsConfig.enabled permission) enabled
     | None => false
     end
  then d
  else
    writeMetricsConfig
      {| c3permission := Some (initializeC3Permission now enabled);
         MetricsConfig.deviceId := MetricsConfig.deviceId config |} d.

Inductive TelemetryAction : Type := status | enable | disable.

Definition logTelemetryStatus (enabled : bool) : list string :=
  ["Status: " ++ (if enabled then "Enabled" else "Disabled"); ""].

(** [runTelemetryCommand(action)]: the disk it leaves and the lines it
    passes to [logRaw]. *)
Definition runTelemetryCommand (now : Z) (action : TelemetryAction) (d : disk)
    : disk * list string :=
  match action with
  | enable =>
      (updateC3Pemission now true d,
       (logTelemetryStatus true ++
        ["Create-Cloudflare telemetry is completely anonymous. Thank you for helping us improve the experience!"])%list)
  | disable =>
      (updateC3Pemission now false d,
       (logTelemetryStatus false ++
        ["Create-Cloudflare is no longer collecting anonymous usage data"])%list)
  | status =>
      let '(telemetry, _, d') := getC3Permission now (readMetricsConfig d) d in
      (d', logTelemetryStatus (MetricsConfig.enabled telemetry))
  end.

(** *** The reporter *)

(** What a [request] promise fulfils with:
    [{ status: "success", payload }] or [{ status: "failed", payload, reason }]. *)
Record DispatchRecord : Type := {
  dispatch_status : string;
  dispatch_payload : Sparrow.EventPayload;
  dispatch_reason : option thrown;
}.

(** An entry of [events]: the payload sent and the state of the promise
    [sparrow.sendEvent(payload)] returned. *)
Record Request : Type := {
  payload : Sparrow.EventPayload;
  sent : promise unit;
}.

(** The promise pushed to [events]:
    [Promise.resolve(sparrow.sendEvent(payload)).then(..).catch(..)]. *)
Definition request (rq : Request) : promise DispatchRecord :=
  catch_
    (fun reason =>
       {| dispatch_status := "failed"; dispatch_payload := payload rq;
          dispatch_reason := Some reason |})
    (then_
       (fun _ =>
          {| dispatch_status := "success"; dispatch_payload := payload rq;
             dispatch_reason := None |})
       (sent rq)).

(** The closure of [createReporter]: its constants and its two mutable
    variables, [amplitude_event_id] and [events].  The counter is a double
    that holds an integer; [events.push] fails long before the counter
    leaves the integers a double holds exactly, so it is a [Z]. *)
Record Reporter : Type := {
  telemetry : C3Permission;
  deviceId : string;
  packageManager : string;
  platform : string;
  isFirstUsage : bool;
  amplitude_session_id : Z;
  amplitude_event_id : Z;
  events : list Request;
}.

(** [createReporter()].  [getDeviceId] and [detectPackageManager] are not
    among the sources: what they return is an argument.  [nowPermission] and
    [nowSession] are the two readings of the clock. *)
Definition createReporter (E : Env) (nowPermission nowSession : Z)
    (deviceId packageManagerName : string) (d : disk) : Reporter * disk :=
  let config := readMetricsConfig d in
  let isFirstUsage := match c3permission config with None => true | Some _ => false end in
  let '(telemetry, _, d') := getC3Permission nowPermission config d in
  ({| telemetry := telemetry;
      deviceId := deviceId;
      packageManager := packageManagerName;
      platform := getPlatform E;
      isFirstUsage := isFirstUsage;
      amplitude_session_id := nowSession;
      amplitude_event_id := 0;
      events := [] |}, d').

(** The guard of [sendEvent]: the user's permission and the source key. *)
Definition dispatches (E : Env) (r : Reporter) : bool :=
  negb (negb (MetricsConfig.enabled (telemetry r))
        || negb (Sparrow.hasSparrowSourceKey (SPARROW_SOURCE_KEY E))).

(** The properties [sendEvent] writes before it spreads the caller's. *)
Definition reporterProperties (E : Env) (r : Reporter) (event_id : Z) : gmap string val :=
  <["packageManager" := VStr (packageManager r)]>
    (<["isFirstUsage" := VBool (isFirstUsage r)]>
       (<["c3Version" := VStr (c3Version E)]>
          (<["platform" := VStr (platform r)]>
             (<["amplitude_event_id" := VNum (NInt event_id)]>
                (<["amplitude_session_id" := VNum (NInt (amplitude_session_id r))]> ∅))))).

(** The payload [sendEvent] builds when the counter reads [event_id] and
    the clock reads [now]. *)
Definition eventPayload (E : Env) (r : Reporter) (event_id now : Z)
    (name : string) (properties : gmap string val) : Sparrow.EventPayload :=
  {| Sparrow.event := "test " ++ name;
     Sparrow.deviceId := deviceId r;
     Sparrow.userId := None;
     Sparrow.timestamp := now;
     Sparrow.properties := spread (reporterProperties E r event_id) properties |}.

(** [sendEvent(name, properties)]; [now] is what [Date.now()] reads. *)
Definition sendEvent (E : Env) (now : Z) (name : string)
    (properties : gmap string val) (r : Reporter) : Reporter :=
  if negb (MetricsConfig.enabled (telemetry r))
     || negb (Sparrow.hasSparrowSourceKey (SPARROW_SOURCE_KEY E))
  then r
  else
    let payload := eventPayload E r (amplitude_event_id r) now name properties in
    {| telemetry := telemetry r;
       deviceId := deviceId r;
       packageManager := packageManager r;
       platform := platform r;
       isFirstUsage := isFirstUsage r;
       amplitude_session_id := amplitude_session_id r;
       amplitude_event_id := amplitude_event_id r + 1;
       events := (events r ++ [{| payload := payload; sent := Pending |}])%list |}.

(** A call of [sendEvent] with the reading of the clock it makes. *)
Record SendCall : Type := {
  call_now : Z;
  call_name : string;
  call_properties : gmap string val;
}.

Definition sendEvents (E : Env) (calls : list SendCall) (r : Reporter) : Reporter :=
  foldl (fun r c => sendEvent E (call_now c) (call_name c) (call_properties c) r) r calls.

(** [getDuration(startTime)]; [now] is what [Date.now()] reads. *)
Record Duration : Type := {
  ms : Z;
  seconds : num;
  minutes : num;
}.

Definition getDuration (now startTime : Z) : Duration :=
  let ms := (now - startTime)%Z in
  {| ms := ms; seconds := NDiv (NInt ms) 1000; minutes := NDiv (NDiv (NInt ms) 1000) 60 |}.

(** A line of the console: a text, or the array
    [waitForAllEventsSettled] passes to [JSON.stringify]. *)
Inductive ConsoleLine : Type :=
| ConsoleText (s : string)
| ConsoleJson (entries : list (DispatchRecord + thrown)).

(** Whether [JSON.stringify] walks a rejection reason without throwing.  An
    [Error] has no enumerable property of its own: it is written [{}]; a
    [CancelError] has [signal], a string. *)
Definition stringifiesThrown (e : thrown) : bool :=
  match e with
  | JsError _ _ | JsCancelError _ _ _ => true
  | JsThrown v => stringifies v
  end.

(** The same for the payload of a request: [event], [deviceId] and
    [timestamp] are strings and a number, the properties are any values. *)
Definition payloadStringifies (p : Sparrow.EventPayload) : bool :=
  forallb (fun property => stringifies (snd property))
    (map_to_list (Sparrow.properties p)).

Definition recordStringifies (record : DispatchRecord) : bool :=
  payloadStringifies (dispatch_payload record)
  && match dispatch_reason record with
     | Some reason => stringifiesThrown reason
     | None => true
     end.

Definition entryStringifies (entry : DispatchRecord + thrown) : bool :=
  match entry with
  | inl record => recordStringifies record
  | inr reason => stringifiesThrown reason
  end.

(** [waitForAllEventsSettled()]: the state of the promise it returns, and
    what it has logged.  It reads [events] and writes nothing.
    [Promise.allSettled(events)] walks the array once, at the call:
    [awaited] is the length [events] had then, and a request pushed later is
    not waited for.  [stringifyError] is what [JSON.stringify] throws at a
    [BigInt] or at a cycle; it throws before the second [console.log] is
    called, and the promise of the [async] function is rejected with it. *)
Definition waitForAllEventsSettled (stringifyError : thrown) (awaited : nat)
    (r : Reporter) : promise unit * list ConsoleLine :=
  match allSettled (request <$> take awaited (events r)) with
  | Pending => (Pending, [])
  | Rejected e => (Rejected e, [])  (* the [await] would throw *)
  | Fulfilled result =>
      let entries :=
        (fun event =>
           match event with
           | SettledFulfilled value => inl value
           | SettledRejected reason => inr reason
           end) <$> result in
      if forallb entryStringifies entries
      then (Fulfilled (), [ConsoleText "All events settled"; ConsoleJson entries])
      else (Rejected stringifyError, [ConsoleText "All events settled"])
  end.

(** The sink settles the [i]-th request. *)
Definition settleRequest (i : nat) (outcome : promise unit) (r : Reporter) : Reporter :=
  {| telemetry := telemetry r;
     deviceId := deviceId r;
     packageManager := packageManager r;
     platform := platform r;
     isFirstUsage := isFirstUsage r;
     amplitude_session_id := amplitude_session_id r;
     amplitude_event_id := amplitude_event_id r;
     events :=
       alter (fun rq => {| payload := payload rq;
                           sent := settle (sent rq) outcome |}) i (events r) |}.

(** *** [setEventProperty] and [collectAsyncMetrics] *)

(** The method of the store [collectAsyncMetrics] hands to
    [als.run]: [additionalProperties[key] = value], an assignment to the
    object the literal [{}] created. *)
Definition store_setEventProperty (key : string) (value : val)
    (additionalProperties : object) : object :=
  assign key value additionalProperties.

(** [setEventProperty(key, value)].  [store] is what [als.getStore()]
    returns: the [additionalProperties] the current store writes to, or
    [None] outside [collectAsyncMetrics].  The call throws ([inl]) or
    returns and leaves the store as given ([inr]). *)
Definition setEventProperty (E : Env) (store : option object)
    (key : string) (value : val) : thrown + option object :=
  match store with
  | None =>
      if env_truthy (VITEST E)
      then inl (JsError (VStr "`setEventProperty` must be called within `collectAsyncMetrics`")
                        (VStr (capturedStack E)))
      else inr None
  | Some additionalProperties =>
      inr (Some (store_setEventProperty key value additionalProperties))
  end.

(** The [options] of [collectAsyncMetrics] but for [promise], the operation,
    which the invocation sees as a sequence of [tick]s. *)
Record Options : Type := {
  eventPrefix : string;
  props : gmap string val;
  disableTelemetry : option bool;
}.

(** [!options.disableTelemetry] *)
Definition telemetryOn (o : Options) : bool :=
  match disableTelemetry o with
  | Some true => false
  | _ => true
  end.

(** One invocation of [collectAsyncMetrics]: the reporter it dispatches
    through, its local variables, the handlers it has registered, and the
    promises involved.  The reporter is followed as this invocation changes
    it; what other callers of [sendEvent] do to it in between is the
    subject of [turn] and [collectShared].
    - [timers]: the calls of [cancel] that wait in [setTimeout(10)], oldest
      first, each with the signal it was called with;
    - [listening]: [cancel] is registered for SIGINT and SIGTERM;
    - [operation]: the promise [als.run(store, options.promise)] returned;
    - [race]: the promise of [Promise.race([operation, cancelDeferred.promise])];
    - [returned]: the promise [collectAsyncMetrics] returned. *)
Record Invocation : Type := {
  reporter : Reporter;
  additionalProperties : object;
  cancelDeferred : promise val;
  timers : list Signals;
  listening : bool;
  operation : promise val;
  race : promise val;
  returned : promise val;
}.

(** [collectAsyncMetrics] up to its [await]; [nowSend] is the reading of
    the clock [sendEvent] makes.  [startTime], the reading before it, is an
    argument of the steps that use it. *)
Definition enter (E : Env) (o : Options) (nowSend : Z) (r : Reporter) : Invocation :=
  {| reporter :=
       if telemetryOn o
       then sendEvent E nowSend (eventPrefix o ++ " started") (props o) r
       else r;
     additionalProperties := emptyObject;
     cancelDeferred := Pending;
     timers := [];
     listening := true;
     operation := Pending;
     race := Pending;
     returned := Pending |}.

(** [{ ...options.props, ...additionalProperties, durationMs, durationSeconds,
    durationMinutes }] *)
Definition lifecycleProperties (o : Options) (additionalProperties : gmap string val)
    (duration : Duration) : gmap string val :=
  <["durationMinutes" := VNum (minutes duration)]>
    (<["durationSeconds" := VNum (seconds duration)]>
       (<["durationMs" := VNum (NInt (ms duration))]>
          (spread (props o) additionalProperties))).

(** [{ message: e instanceof Error ? e.message : undefined,
       stack: e instanceof Error ? e.stack : undefined }] *)
Definition errorDescriptor (e : thrown) : val :=
  VObj [("message", if instanceof_Error e then message e else VUndefined);
        ("stack", if instanceof_Error e then stack e else VUndefined)].

(** The rest of the [try] block once the race is fulfilled. *)
Definition completed (E : Env) (o : Options) (startTime nowDuration nowSend : Z)
    (additionalProperties : gmap string val) (r : Reporter) : Reporter :=
  if telemetryOn o then
    let duration := getDuration nowDuration startTime in
    sendEvent E nowSend (eventPrefix o ++ " completed")
      (lifecycleProperties o additionalProperties duration) r
  else r.

(** The [catch] block, before it throws [e] again. *)
Definition caught (E : Env) (o : Options) (startTime nowDuration nowSend : Z)
    (additionalProperties : gmap string val) (e : thrown) (r : Reporter) : Reporter :=
  if telemetryOn o then
    let duration := getDuration nowDuration startTime in
    if instanceof_CancelError e then
      sendEvent E nowSend (eventPrefix o ++ " cancelled")
        (lifecycleProperties o additionalProperties duration) r
    else
      sendEvent E nowSend (eventPrefix o ++ " errored")
        (<["error" := errorDescriptor e]>
           (lifecycleProperties o additionalProperties duration)) r
  else r.

(** [collectAsyncMetrics] after its [await], once the race has settled:
    the rest of [try] or the [catch], then [finally], which removes the
    signal handlers. *)
Definition resume (E : Env) (o : Options) (startTime nowDuration nowSend : Z)
    (inv : Invocation) : Invocation :=
  match returned inv, race inv with
  | Pending, Fulfilled result =>
      {| reporter := completed E o startTime nowDuration nowSend
                       (own (additionalProperties inv)) (reporter inv);
         additionalProperties := additionalProperties inv;
         cancelDeferred := cancelDeferred inv;
         timers := timers inv;
         listening := false;
         operation := operation inv;
         race := race inv;
         returned := Fulfilled result |}
  | Pending, Rejected e =>
      {| reporter := caught E o startTime nowDuration nowSend
                       (own (additionalProperties inv)) e (reporter inv);
         additionalProperties := additionalProperties inv;
         cancelDeferred := cancelDeferred inv;
         timers := timers inv;
         listening := false;
         operation := operation inv;
         race := race inv;
         returned := Rejected e |}
  | _, _ => inv
  end.

(** What happens to an invocation while it awaits, one turn of the event
    loop at a time. *)
Inductive tick : Type :=
| OpSetEventProperty (key : string) (value : val)
    (* code of the operation calls [setEventProperty(key, value)] *)
| OpResolves (value : val)
    (* the operation's promise is fulfilled *)
| OpRejects (e : thrown)
    (* the operation throws or its promise is rejected *)
| SignalReceived (signal : Signals)
    (* the process receives SIGINT or SIGTERM *)
| TimerFires
    (* the oldest pending [setTimeout(10)] of [cancel] is over *)
| Resumes (nowDuration nowSend : Z).
    (* the [await] returns or throws; the two readings of the clock are
       [getDuration]'s and [sendEvent]'s *)

(** The operation's promise has become [operation'] (it settles once), and
    the race follows its input. *)
Definition operationSettles (operation' : promise val) (inv : Invocation) : Invocation :=
  {| reporter := reporter inv;
     additionalProperties := additionalProperties inv;
     cancelDeferred := cancelDeferred inv;
     timers := timers inv;
     listening := listening inv;
     operation := operation';
     race := settle (race inv) operation';
     returned := returned inv |}.

(** [new CancelError(`Operation cancelled`, signal)] *)
Definition newCancelError (E : Env) (signal : option Signals) : thrown :=
  JsCancelError (VStr "Operation cancelled") (VStr (capturedStack E)) signal.

Definition step (E : Env) (o : Options) (startTime : Z)
    (inv : Invocation) (t : tick) : Invocation :=
  match t with
  | OpSetEventProperty key value =>
      match setEventProperty E (Some (additionalProperties inv)) key value with
      | inr (Some additionalProperties') =>
          {| reporter := reporter inv;
             additionalProperties := additionalProperties';
             cancelDeferred := cancelDeferred inv;
             timers := timers inv;
             listening := listening inv;
             operation := operation inv;
             race := race inv;
             returned := returned inv |}
      | _ => inv
      end
  | OpResolves value => operationSettles (resolve (operation inv) value) inv
  | OpRejects e => operationSettles (reject (operation inv) e) inv
  | SignalReceived signal =>
      if listening inv then
        {| reporter := reporter inv;
           additionalProperties := additionalProperties inv;
           cancelDeferred := cancelDeferred inv;
           timers := (timers inv ++ [signal])%list;
           listening := listening inv;
           operation := operation inv;
           race := race inv;
           returned := returned inv |}
      else inv
  | TimerFires =>
      match timers inv with
      | [] => inv
      | signal :: timers' =>
          let cancelDeferred' :=
            reject (cancelDeferred inv) (newCancelError E (Some signal)) in
          {| reporter := reporter inv;
             additionalProperties := additionalProperties inv;
             cancelDeferred := cancelDeferred';
             timers := timers';
             listening := listening inv;
             operation := operation inv;
             race := settle (race inv) cancelDeferred';
             returned := returned inv |}
      end
  | Resumes nowDuration nowSend => resume E o startTime nowDuration nowSend inv
  end.

Definition run (E : Env) (o : Options) (startTime : Z)
    (inv : Invocation) (trace : list tick) : Invocation :=
  foldl (step E o startTime) inv trace.

(** [collectAsyncMetrics(options)] on the reporter [r], followed over the
    turns of [trace]. *)
Definition collectAsyncMetrics (E : Env) (o : Options) (startTime nowSend : Z)
    (r : Reporter) (trace : list tick) : Invocation :=
  run E o startTime (enter E o nowSend r) trace.

(** The requests an invocation has added to [events] of the reporter [r] it
    started on. *)
Definition dispatched (r : Reporter) (inv : Invocation) : list Request :=
  drop (length (events r)) (events (reporter inv)).

(** The object [additionalProperties] after the calls of
    [setEventProperty] of a trace. *)
Definition contextStore (trace : list tick) : object :=
  foldl (fun additionalProperties t =>
           match t with
           | OpSetEventProperty key value =>
               store_setEventProperty key value additionalProperties
           | _ => additionalProperties
           end) emptyObject trace.

(** The properties the operation has set through [setEventProperty] over
    a trace: the own properties of that object, which the spread copies. *)
Definition contextProperties (trace : list tick) : gmap string val :=
  own (contextStore trace).

(** How often the promise of [cancelDeferred] changes state over a trace. *)
Fixpoint cancelRejections (E : Env) (o : Options) (startTime : Z)
    (inv : Invocation) (trace : list tick) : nat :=
  match trace with
  | [] => 0
  | t :: trace' =>
      let inv' := step E o startTime inv t in
      ((if is_pending (cancelDeferred inv) && negb (is_pending (cancelDeferred inv'))
        then 1 else 0)
       + cancelRejections E o startTime inv' trace')%nat
  end.

(** How often [cancel] calls [cancelDeferred.reject] over a trace. *)
Fixpoint rejectCalls (E : Env) (o : Options) (startTime : Z)
    (inv : Invocation) (trace : list tick) : nat :=
  match trace with
  | [] => 0
  | t :: trace' =>
      ((match t, timers inv with
        | TimerFires, _ :: _ => 1
        | _, _ => 0
        end)
       + rejectCalls E o startTime (step E o startTime inv t) trace')%nat
  end.

(** *** The calls of [sendEvent] an invocation makes *)

(** The reporter [r] after [n] more dispatches, which added [requests]. *)
Definition advanced (r : Reporter) (n : nat) (requests : list Request) : Reporter :=
  {| telemetry := telemetry r;
     deviceId := deviceId r;
     packageManager := packageManager r;
     platform := platform r;
     isFirstUsage := isFirstUsage r;
     amplitude_session_id := amplitude_session_id r;
     amplitude_event_id := amplitude_event_id r + Z.of_nat n;
     events := (events r ++ requests)%list |}.

(** The requests a sequence of calls adds to [events] of [r]: none when
    the guard of [sendEvent] is closed, else one per call, the [k]-th with
    the counter [k] steps on. *)
Definition issued (E : Env) (r : Reporter) (calls : list SendCall) : list Request :=
  if dispatches E r then
    imap (fun k c =>
            {| payload := eventPayload E r (amplitude_event_id r + Z.of_nat k)
                            (call_now c) (call_name c) (call_properties c);
               sent := Pending |}) calls
  else [].

(** The call [enter] makes. *)
Definition startedCall (o : Options) (nowSend : Z) : list SendCall :=
  if telemetryOn o then
    [{| call_now := nowSend;
        call_name := eventPrefix o ++ " started";
        call_properties := props o |}]
  else [].

(** The phase a settled race ends the invocation in. *)
Definition terminalPhase (outcome : promise val) : string :=
  match outcome with
  | Pending => ""
  | Fulfilled _ => "completed"
  | Rejected e => if instanceof_CancelError e then "cancelled" else "errored"
  end.

(** The properties of the terminal event. *)
Definition terminalProperties (o : Options) (additionalProperties : gmap string val)
    (duration : Duration) (outcome : promise val) : gmap string val :=
  match outcome with
  | Rejected e =>
      if instanceof_CancelError e
      then lifecycleProperties o additionalProperties duration
      else <["error" := errorDescriptor e]>
             (lifecycleProperties o additionalProperties duration)
  | _ => lifecycleProperties o additionalProperties duration
  end.

(** The call [resume] makes for a race settled as [outcome]. *)
Definition terminalCall (o : Options) (startTime nowDuration nowSend : Z)
    (additionalProperties : gmap string val) (outcome : promise val) : list SendCall :=
  if telemetryOn o && negb (is_pending outcome) then
    [{| call_now := nowSend;
        call_name := eventPrefix o ++ " " ++ terminalPhase outcome;
        call_properties :=
          terminalProperties o additionalProperties
            (getDuration nowDuration startTime) outcome |}]
  else [].

(** No reading of the clock [getDuration] makes over the trace is earlier
    than [startTime]. *)
Definition clockNotSetBack (startTime : Z) (trace : list tick) : bool :=
  forallb (fun t =>
             match t with
             | Resumes nowDuration _ => (startTime <=? nowDuration)%Z
             | _ => true
             end) trace.

(** The value of [amplitude_event_id] a request carries. *)
Definition eventId (rq : Request) : option val :=
  Sparrow.properties (payload rq) !! "amplitude_event_id".

(** How many signals [cancel] is called for over a trace: those received
    while it is registered. *)
Fixpoint signalsHandled (E : Env) (o : Options) (startTime : Z)
    (inv : Invocation) (trace : list tick) : nat :=
  match trace with
  | [] => 0
  | t :: trace' =>
      ((match t with
        | SignalReceived _ => if listening inv then 1 else 0
        | _ => 0
        end)
       + signalsHandled E o startTime (step E o startTime inv t) trace')%nat
  end.

(** How the three promises of an invocation stand to each other: the
    promise of [cancelDeferred] is pending or rejected with the
    [CancelError] of a signal; while the race is pending so are its two
    inputs; a settled race has the state of one of them. *)
Definition promisesConsistent (E : Env) (inv : Invocation) : Prop :=
  (cancelDeferred inv = Pending
   ∨ ∃ signal, cancelDeferred inv = Rejected (newCancelError E (Some signal)))
  ∧ (race inv = Pending → operation inv = Pending ∧ cancelDeferred inv = Pending)
  ∧ (race inv = Pending
     ∨ race inv = operation inv
     ∨ race inv = cancelDeferred inv).

(** *** The reporter is shared *)

(** A turn of the event loop as the reporter sees it: a turn of this
    invocation, or a call of [sendEvent] on the same reporter made by other
    code while the invocation is under way: the operation itself, a
    [collectAsyncMetrics] nested in it, any other caller. *)
Inductive turn : Type :=
| Own (t : tick)
| Other (c : SendCall).

Definition ownTicks (turns : list turn) : list tick :=
  omap (fun u => match u with Own t => Some t | Other _ => None end) turns.

Definition otherCalls (turns : list turn) : list SendCall :=
  omap (fun u => match u with Own _ => None | Other c => Some c end) turns.

(** The invocation [inv] seen with the reporter in the state [r]. *)
Definition withReporter (r : Reporter) (inv : Invocation) : Invocation :=
  {| reporter := r;
     additionalProperties := additionalProperties inv;
     cancelDeferred := cancelDeferred inv;
     timers := timers inv;
     listening := listening inv;
     operation := operation inv;
     race := race inv;
     returned := returned inv |}.

Definition sharedStep (E : Env) (o : Options) (startTime : Z)
    (inv : Invocation) (u : turn) : Invocation :=
  match u with
  | Own t => step E o startTime inv t
  | Other c =>
      withReporter
        (sendEvent E (call_now c) (call_name c) (call_properties c) (reporter inv)) inv
  end.

Definition sharedRun (E : Env) (o : Options) (startTime : Z)
    (inv : Invocation) (turns : list turn) : Invocation :=
  foldl (sharedStep E o startTime) inv turns.

(** [collectAsyncMetrics(options)] on the reporter [r], followed over turns
    of its own and calls of others. *)
Definition collectShared (E : Env) (o : Options) (startTime nowSend : Z)
    (r : Reporter) (turns : list turn) : Invocation :=
  sharedRun E o startTime (enter E o nowSend r) turns.

(** The requests the invocation itself adds to [events] over [turns]: what
    each turn of its own appends. *)
Fixpoint ownRequests (E : Env) (o : Options) (startTime : Z)
    (inv : Invocation) (turns : list turn) : list Request :=
  match turns with
  | [] => []
  | u :: turns' =>
      (match u with
       | Own t => dispatched (reporter inv) (step E o startTime inv t)
       | Other _ => []
       end ++ ownRequests E o startTime (sharedStep E o startTime inv u) turns')%list
  end.

(** The requests an invocation has dispatched itself, from its start. *)
Definition sharedDispatched (E : Env) (o : Options) (startTime nowSend : Z)
    (r : Reporter) (turns : list turn) : list Request :=
  (dispatched r (enter E o nowSend r)
   ++ ownRequests E o startTime (enter E o nowSend r) turns)%list.

(** The call of [sendEvent] a turn of the invocation makes. *)
Definition ownCall (o : Options) (startTime : Z) (inv : Invocation) (t : tick)
  : list SendCall :=
  match t with
  | Resumes nowDuration nowSend =>
      match returned inv with
      | Pending =>
          terminalCall o startTime nowDuration nowSend
            (own (additionalProperties inv)) (race inv)
      | _ => []
      end
  | _ => []
  end.

(** All the calls of [sendEvent] the reporter sees over [turns], in
    order. *)
Fixpoint sharedCalls (E : Env) (o : Options) (startTime : Z)
    (inv : Invocation) (turns : list turn) : list SendCall :=
  match turns with
  | [] => []
  | Own t :: turns' =>
      (ownCall o startTime inv t
       ++ sharedCalls E o startTime (step E o startTime inv t) turns')%list
  | Other c :: turns' => c :: sharedCalls E o startTime inv turns'
  end.

(** *** Further views of a trace *)

(** The signals [cancel] is called with over a trace, oldest first: those
    received while it is registered. *)
Fixpoint handledSignals (E : Env) (o : Options) (startTime : Z)
    (inv : Invocation) (trace : list tick) : list Signals :=
  match trace with
  | [] => []
  | t :: trace' =>
      ((match t with
        | SignalReceived signal => if listening inv then [signal] else []
        | _ => []
        end)
       ++ handledSignals E o startTime (step E o startTime inv t) trace')%list
  end.

(** The values the calls [setEventProperty(key, _)] of a trace passed,
    in order. *)
Definition setValues (key : string) (trace : list tick) : list val :=
  omap (fun t =>
          match t with
          | OpSetEventProperty key' value =>
              if String.eqb key' key then Some value else None
          | _ => None
          end) trace.

(** The value the last call [setEventProperty(key, _)] of a trace passed,
    if there is one. *)
Definition lastSetValue (key : string) (trace : list tick) : option val :=
  last (setValues key trace).

(** Whether the assignment [o.__proto__ = v], made through the accessor
    of [Object.prototype], leaves [o] without that accessor: [null] as
    prototype, or an object with a property [__proto__] of its own. *)
Definition detaches (v : val) : bool :=
  match v with
  | VNull => true
  | _ => hasOwn "__proto__" v
  end.

(** Of the values assigned to [__proto__] one after the other, starting
    on an object literal: those that become the own property, which are
    the ones after the first that [detaches]. *)
Fixpoint ownProtoWrites (writes : list val) : list val :=
  match writes with
  | [] => []
  | v :: later => if detaches v then later else ownProtoWrites later
  end.

(** The record a settled request is logged as. *)
Definition dispatchRecord (rq : Request) : DispatchRecord :=
  match sent rq with
  | Rejected reason =>
      {| dispatch_status := "failed"; dispatch_payload := payload rq;
         dispatch_reason := Some reason |}
  | _ =>
      {| dispatch_status := "success"; dispatch_payload := payload rq;
         dispatch_reason := None |}
  end.

(** The earlier revision of [metrics.ts] (its [collectAsyncMetrics] takes
    [startedProps] and has no [getDuration]). *)
Module Earlier.

(** [setEventProperty(key, value)] of the earlier revision: no store is an
    error in every environment. *)
Definition setEventProperty (E : Env) (store : option object)
    (key : string) (value : val) : thrown + option object :=
  match store with
  | None =>
      inl (JsError (VStr "`setEventProperty` must be called within `collectAsyncMetrics`")
                   (VStr (capturedStack E)))
  | Some additionalProperties =>
      inr (Some (store_setEventProperty key value additionalProperties))
  end.

End Earlier.

End Metrics.

(** ** A session to run the definitions on *)

Module Scenario.
Import JS MetricsConfig Metrics.

(** A released build on Linux, outside the test runner. *)
Definition released : Env :=
  {| SPARROW_SOURCE_KEY := "0123456789abcdef";
     c3Version := "2.30.1";
     VITEST := None;
     process_platform := "linux";
     capturedStack := "CancelError: Operation cancelled" |}.

(** The sources as they are, before the build has put a key in. *)
Definition unbuilt : Env :=
  {| SPARROW_SOURCE_KEY := "__SPARROW_SOURCE_KEY__";
     c3Version := "2.30.1";
     VITEST := None;
     process_platform := "linux";
     capturedStack := "CancelError: Operation cancelled" |}.

(** The test runner. *)
Definition underVitest : Env :=
  {| SPARROW_SOURCE_KEY := "__SPARROW_SOURCE_KEY__";
     c3Version := "2.30.1";
     VITEST := Some "true";
     process_platform := "linux";
     capturedStack := "Error" |}.

Definition firstRun : disk :=
  {| stored := {| c3permission := None; MetricsConfig.deviceId := None |};
     written := [] |}.

(** The reporter of a first run: the permission is initialised to
    enabled. *)
Definition fresh : Reporter :=
  fst (createReporter released 1700000000000 1700000000001 "device-1" "npm" firstRun).

(** The reporter of a user who has disabled telemetry. *)
Definition optedOut : Reporter :=
  fst (createReporter released 1700000000000 1700000000001 "device-1" "npm"
         {| stored := {| c3permission := Some {| enabled := false; date := 1690000000000 |};
                         MetricsConfig.deviceId := Some "device-1" |};
            written := [] |}).

Definition login : Options :=
  {| eventPrefix := "c3 login";
     props := {[ "alreadyLoggedIn" := VBool false ]};
     disableTelemetry := None |}.

Definition silentLogin : Options :=
  {| eventPrefix := "c3 login";
     props := {[ "alreadyLoggedIn" := VBool false ]};
     disableTelemetry := Some true |}.

(** The operation sets a property and resolves to 42; the call resumes
    1500 ms after it started. *)
Definition loginSucceeds : list tick :=
  [OpSetEventProperty "newLoginSuccessful" (VBool true);
   OpResolves (VNum (NInt 42));
   Resumes 1700000001500 1700000001501].

Definition boom : thrown := JsError (VStr "boom") (VStr "Error: boom").

Definition loginThrows : list tick :=
  [OpRejects boom; Resumes 1700000001500 1700000001501].

(** Two interrupts within the grace period: the first timer fires and the
    call resumes, then the second timer fires. *)
Definition loginInterrupted : list tick :=
  [SignalReceived SIGINT; SignalReceived SIGTERM; TimerFires;
   Resumes 1700000000020 1700000000021; TimerFires].

(** The operation resolves after all that. *)
Definition lateResult : list tick :=
  [OpResolves (VNum (NInt 42)); Resumes 1700000009000 1700000009001].


(** The completed event of [loginSucceeds] on a reporter whose counter
    was at 0 when the invocation started at 1700000000000. *)
Definition loginCompleted : Request :=
  {| payload :=
       eventPayload released fresh 1 1700000001501 "c3 login completed"
         (terminalProperties login {[ "newLoginSuccessful" := VBool true ]}
            (getDuration 1700000001500 1700000000000)
            (Fulfilled (VNum (NInt 42))));
     sent := Pending |}.

(** A login whose operation dispatches the two events of a prompt before
    it resolves; an event of the session follows the return. *)
Definition loginAmongOthers : list turn :=
  [Own (OpSetEventProperty "newLoginSuccessful" (VBool true));
   Other {| call_now := 1700000000100; call_name := "c3 prompt started";
            call_properties := ∅ |};
   Other {| call_now := 1700000000900; call_name := "c3 prompt completed";
            call_properties := {[ "durationMs" := VNum (NInt 800) ]} |};
   Own (OpResolves (VNum (NInt 42)));
   Own (Resumes 1700000001500 1700000001501);
   Other {| call_now := 1700000002000; call_name := "c3 session completed";
            call_properties := ∅ |}].

(** The completed event of that login. *)
Definition loginCompletedAmongOthers : Request :=
  {| payload :=
       eventPayload released fresh 3 1700000001501 "c3 login completed"
         (terminalProperties login {[ "newLoginSuccessful" := VBool true ]}
            (getDuration 1700000001500 1700000000000)
            (Fulfilled (VNum (NInt 42))));
     sent := Pending |}.

(** A login whose starting properties name [error], whose operation sets
    [error] and then throws. *)
Definition loginWithError : Options :=
  {| eventPrefix := "c3 login";
     props := {[ "error" := VStr "from the starting properties" ]};
     disableTelemetry := None |}.

Definition loginSetsErrorThenThrows : list turn :=
  [Own (OpSetEventProperty "error" (VStr "from setEventProperty"));
   Own (OpRejects boom);
   Own (Resumes 1700000001500 1700000001501)].

(** Two interrupts while a prompt of the operation dispatches its events:
    the first timer fires and the call resumes, then the second timer
    fires. *)
Definition loginInterruptedAmongOthers : list turn :=
  [Own (SignalReceived SIGINT);
   Other {| call_now := 1700000000005; call_name := "c3 prompt started";
            call_properties := ∅ |};
   Own (SignalReceived SIGTERM);
   Own TimerFires;
   Own (Resumes 1700000000020 1700000000021);
   Other {| call_now := 1700000000022; call_name := "c3 prompt cancelled";
            call_properties := ∅ |};
   Own TimerFires].

(** The operation resolves after all that. *)
Definition lateResultAmongOthers : list turn :=
  [Own (OpResolves (VNum (NInt 42))); Own (Resumes 1700000009000 1700000009001)].

End Scenario.

(** ** wrangler d1 execute: [executeSql], [executeRemotely], [shorten] *)

Module D1Execute.
Import JS.

(** Truthiness of an optional flag ([boolean | undefined]) and of an
    optional string ([string | undefined]: set and not empty). *)
Definition flag (b : option bool) : bool :=
  match b with
  | Some b => b
  | None => false
  end.

Definition given (s : option string) : bool :=
  match s with
  | Some s => negb (String.eqb s "")
  | None => false
  end.

(** A string is its sequence of code units: [s.length] is
    [String.length s] and [s.slice(0, n)] is [String.substring 0 n s]. *)

(** [shorten(query, length)] for a length that is a natural number. *)
Definition shorten (query : option string) (length : nat) : option string :=
  match query with
  | Some q =>
      if given query && (length <? String.length q)%nat
      then Some (String.substring 0 length q ++ "...")
      else query
  | None => None
  end.

(** [QueryResult]: an entry of the JSON array the API answers with.  The
    code hands the entries on as they are. *)
Definition QueryResult : Type := val.

(** [Database] of d1/types, which is not among the sources: the three
    fields [executeRemotely] reads. *)
Record Database : Type := {
  uuid : string;
  previewDatabaseUuid : option string;
  internal_env : option string;
}.

(** The second argument of [fetchResult]; [body] is the value passed to
    [JSON.stringify]. *)
Record RequestInit : Type := {
  method : string;
  headers : list (string * string);
  body : val;
}.

(** The texts passed to the logger, by the template they are built from
    and the values put in:
    - [TooMuchSql n]: "Too much SQL to send at once, this execution will
      be sent as n batches."
    - [LetsGo]: "Let's go"
    - [DefinePreviewId]: "Please define a `preview_database_id` in your
      wrangler.toml to execute your queries against a preview database"
    - [ExecutingOnRemote name dbUuid]: "Executing on remote database name
      (dbUuid):"
    - [PassLocalFlag]: "To execute on your local development database,
      pass the --local flag to 'wrangler d1 execute'"
    - [Gray text]: [chalk.gray(text)]
    - [Executed result]: the line of [logResult(result)]
    - [Mapping]: "Mapping SQL input into an array of statements"
    - [Parsing n]: "Parsing n statements"
    - [Sending n size]: "We are sending n batch(es) to D1 (limited to
      size statements per batch. Use --batch-size to override.)"
    - [BothCommandAndFile]: "Error: can't provide both --command and
      --file."
    - [Rendered response]: what [renderToString] makes of the tables of
      [response]
    - [Json response]: [JSON.stringify(response, null, 2)] *)
Inductive Message : Type :=
| TooMuchSql (batches : nat)
| LetsGo
| DefinePreviewId
| ExecutingOnRemote (name dbUuid : string)
| PassLocalFlag
| Gray (text : string)
| Executed (result : list QueryResult)
| Mapping
| Parsing (statements : nat)
| Sending (num_batches batchSize : nat)
| BothCommandAndFile
| Rendered (response : list QueryResult)
| Json (response : list QueryResult).

(** What the code does to its surroundings, in order. *)
Inductive Effect : Type :=
| Log (m : Message)                     (* [logger.log] *)
| LogError (m : Message)                (* [logger.error] *)
| SetLoggerLevel (level : string)       (* [logger.loggerLevel = level] *)
| Confirm (batches : nat)               (* [confirm], asking about so many batches *)
| RequireAuth                           (* [requireAuth(config)] *)
| GetDatabase (accountId name : string) (* [getDatabaseByNameOrBinding] *)
| Fetch (resource : string) (init : RequestInit)  (* [fetchResult] *)
| ReadFile (file : string)              (* [readFileSync] *)
| ReadConfig                            (* [readConfig] *)
| ExecuteLocally (name : string) (queries : list string) (persistTo : option string).
                                        (* [executeLocally] *)

(** How a call ends: it returns, it throws (or its promise is rejected),
    or it does not come back. *)
Inductive outcome (A : Type) : Type :=
| Returns (a : A)
| Throws (e : thrown)
| Diverges.
#[global] Arguments Returns {A} a.
#[global] Arguments Throws {A} e.
#[global] Arguments Diverges {A}.

(** A computation: the effects it has had and how it ended. *)
Definition M (A : Type) : Type := list Effect * outcome A.

#[global] Instance M_ret : MRet M := λ A a, ([], Returns a).

#[global] Instance M_bind : MBind M := λ A B k m,
  match m with
  | (effects, Returns a) =>
      let '(effects', result) := k a in ((effects ++ effects')%list, result)
  | (effects, Throws e) => (effects, Throws e)
  | (effects, Diverges) => (effects, Diverges)
  end.

Definition emit (e : Effect) : M unit := ([e], Returns ()).

Definition throw {A} (e : thrown) : M A := ([], Throws e).

(** A call of a function of the surroundings: the effect, and how the
    surroundings answer. *)
Definition call {A} (e : Effect) (answer : outcome A) : M A := ([e], answer).

Definition when (b : bool) (m : M unit) : M unit := if b then m else mret ().

(** The surroundings of the command: the functions it imports from
    modules that are not among the sources, by what they answer.
    - [fetchResult i resource init]: the answer to the [i]-th request;
    - [logger_error]: what [logger.error] returns;
    - [errorStack message]: the stack the engine records in
      [new Error(message)];
    - [undefinedStartsWith]: what the engine throws for
      [undefined.startsWith], a [TypeError]. *)
Record World : Type := {
  confirm : outcome bool;
  requireAuth : outcome string;
  getDatabaseByNameOrBinding : string → string → outcome Database;
  fetchResult : nat → string → RequestInit → outcome (list QueryResult);
  logger_error : val;
  readFileSync : string → outcome string;
  readConfig : outcome unit;
  splitSqlQuery : string → outcome (list string);
  executeLocally : string → list string → option string
                   → outcome (option (list QueryResult));
  errorStack : string → string;
  undefinedStartsWith : thrown;
}.

(** [new Error(message)] *)
Definition newError (W : World) (message : string) : thrown :=
  JsError (VStr message) (VStr (errorStack W message)).

(** The text of the line logged for a batch:
    [`  ${sql.slice(0, 70)}${sql.length > 70 ? "..." : ""}`]. *)
Definition batchLine (sql : string) : string :=
  "  " ++ String.substring 0 70 sql ++ (if (70 <? String.length sql)%nat then "..." else "").

(** The value [{ sql }] the body of a request is made of. *)
Definition sqlBody (sql : string) : val := VObj [("sql", VStr sql)].

(** The [init] of the request for a batch. *)
Definition requestInit (db : Database) (sql : string) : RequestInit :=
  {| method := "POST";
     headers :=
       (("Content-Type", "application/json")
        :: match internal_env db with
           | Some env => if negb (String.eqb env "") then [("x-d1-internal-env", env)] else []
           | None => []
           end);
     body := sqlBody sql |}.

(** The [for] loop of [executeRemotely]: [i] batches have been sent and
    [results] is the array pushed to. *)
Fixpoint sendBatches (W : World) (resource : string) (db : Database)
    (multiple_batches : bool) (i : nat) (batches : list string)
    (results : list QueryResult) : M (list QueryResult) :=
  match batches with
  | [] => mret results
  | sql :: batches' =>
      when multiple_batches (emit (Log (Gray (batchLine sql))));;
      result ← call (Fetch resource (requestInit db sql))
                    (fetchResult W i resource (requestInit db sql));
      emit (Log (Executed result));;
      sendBatches W resource db multiple_batches (S i) batches' (results ++ result)%list
  end.

(** [`/accounts/${accountId}/d1/database/${dbUuid}/query`] *)
Definition queryResource (accountId dbUuid : string) : string :=
  "/accounts/" ++ accountId ++ "/d1/database/" ++ dbUuid ++ "/query".

(** [preview ? db.previewDatabaseUuid : db.uuid], as the template
    literals print it. *)
Definition dbUuid (preview : option bool) (db : Database) : string :=
  if flag preview
  then match previewDatabaseUuid db with Some id => id | None => "undefined" end
  else uuid db.

(** [executeRemotely] from [requireAuth] on. *)
Definition executeRemotely_send (W : World) (name : string) (batches : list string)
    (preview : option bool) (multiple_batches : bool) : M (option (list QueryResult)) :=
  accountId ← call RequireAuth (requireAuth W);
  db ← call (GetDatabase accountId name) (getDatabaseByNameOrBinding W accountId name);
  if flag preview && negb (given (previewDatabaseUuid db)) then
    emit (LogError DefinePreviewId);;
    throw (JsThrown (logger_error W))
  else
    let dbUuid := dbUuid preview db in
    emit (Log (ExecutingOnRemote name dbUuid));;
    emit (Log PassLocalFlag);;
    results ← sendBatches W (queryResource accountId dbUuid) db multiple_batches 0 batches [];
    mret (Some results).

(** [executeRemotely({ config, name, shouldPrompt, batches, json, preview })];
    [None] is the [null] it returns when the user declines. *)
Definition executeRemotely (W : World) (name : string) (shouldPrompt : option bool)
    (batches : list string) (json preview : option bool) : M (option (list QueryResult)) :=
  let multiple_batches := (1 <? length batches)%nat in
  if multiple_batches && negb (flag json) then
    if flag shouldPrompt then
      ok ← call (Confirm (length batches)) (confirm W);
      if negb ok then mret None
      else
        emit (Log LetsGo);;
        executeRemotely_send W name batches preview multiple_batches
    else
      emit (LogError (TooMuchSql (length batches)));;
      executeRemotely_send W name batches preview multiple_batches
  else executeRemotely_send W name batches preview multiple_batches.

(** [batchSplit(queries, batchSize)] with its two lines of log. *)
Definition batchSplit (queries : list string) (batchSize : nat) : M (list string) :=
  emit (Log (Parsing (length queries)));;
  match D1.batchSplit queries batchSize with
  | None => ([], Diverges)
  | Some batches =>
      let num_batches := D1.Math_ceil_div (length queries) batchSize in
      when (1 <? num_batches)%nat (emit (Log (Sending num_batches batchSize)));;
      mret batches
  end.

Definition nl : string := String (Ascii.ascii_of_nat 10) "".

(** The statement of [executeSql] that executes:
    [local ? await executeLocally({ config, name, queries, persistTo })
           : await executeRemotely({ config, name, shouldPrompt,
               batches: batchSplit(queries, batchSize), json, preview })]. *)
Definition execute (W : World) (local : option bool) (name : string)
    (shouldPrompt : option bool) (persistTo : option string) (json preview : option bool)
    (batchSize : nat) (queries : list string) : M (option (list QueryResult)) :=
  if flag local then
    call (ExecuteLocally name queries persistTo) (executeLocally W name queries persistTo)
  else
    batches ← batchSplit queries batchSize;
    executeRemotely W name shouldPrompt batches json preview.

(** [file ? readFileSync(file) : command] *)
Definition readSql (W : World) (file command : option string) : M (option string) :=
  match file with
  | Some f =>
      if given file
      then s ← call (ReadFile f) (readFileSync W f); mret (Some s)
      else mret command
  | None => mret command
  end.

(** The message of the error for a binary file. *)
Definition binaryFileMessage : string :=
  "Provided file is a binary SQLite database file instead of an SQL text file."
  ++ nl ++ "The execute command can only process SQL text files."
  ++ nl ++ "Please export an SQL file from your SQLite database and try again.".

(** [executeSql({ local, config, name, shouldPrompt, persistTo, file,
    command, json, preview, batchSize })]; [existingLogLevel] is what
    [logger.loggerLevel] reads at the start. *)
Definition executeSql (W : World) (existingLogLevel : string)
    (local : option bool) (name : string) (shouldPrompt : option bool)
    (persistTo file command : option string) (json preview : option bool)
    (batchSize : nat) : M (option (list QueryResult)) :=
  when (flag json) (emit (SetLoggerLevel "error"));;
  sql ← readSql W file command;
  match sql with
  | Some sql' =>
      if negb (given sql) then
        throw (newError W "Error: must provide --command or --file.")
      else if flag preview && flag local then
        throw (newError W "Error: can't use --preview with --local")
      else if given persistTo && negb (flag local) then
        throw (newError W "Error: can't use --persist-to without --local")
      else
        emit (Log Mapping);;
        queries ← (([], splitSqlQuery W sql') : M (list string));
        when (given file && given sql)
          match queries with
          | [] => throw (undefinedStartsWith W)
          | first :: _ =>
              if String.prefix "SQLite format 3" first
              then throw (newError W binaryFileMessage)
              else mret ()
          end;;
        result ← execute W local name shouldPrompt persistTo json preview batchSize queries;
        when (flag json) (emit (SetLoggerLevel existingLogLevel));;
        mret result
  | None => throw (newError W "Error: must provide --command or --file.")
  end.

(** [Handler(args)]; [existingLogLevel] is what [logger.loggerLevel]
    reads at the start and [isTTY] is [process.stdout.isTTY].  The config
    [readConfig] returns is handed on and not read. *)
Definition Handler (W : World) (existingLogLevel : string) (isTTY : option bool)
    (local : option bool) (database : string) (yes : option bool)
    (persistTo file command : option string) (json preview : option bool)
    (batchSize : nat) : M unit :=
  when (flag json) (emit (SetLoggerLevel "error"));;
  call ReadConfig (readConfig W);;
  if given file && given command then emit (LogError BothCommandAndFile)
  else
    let isInteractive := isTTY in
    response ← executeSql W (if flag json then "error" else existingLogLevel)
                 local database
                 (if flag isInteractive then Some (negb (flag yes)) else isInteractive)
                 persistTo file command json preview batchSize;
    match response with
    | None => mret ()
    | Some response =>
        if flag isInteractive && negb (flag json)
        then emit (Log (Rendered response))
        else
          emit (SetLoggerLevel existingLogLevel);;
          emit (Log (Json response))
    end.

(** *** Views of the effects *)

(** The SQL of the requests sent, in order. *)
Definition fetchedSql (effects : list Effect) : list val :=
  omap (fun e => match e with Fetch _ init => Some (body init) | _ => None end) effects.

(** Whether an effect is a step of the remote execution: the prompt, the
    authentication, the lookup of the database, a request. *)
Definition remoteStep (e : Effect) : bool :=
  match e with
  | Confirm _ | RequireAuth | GetDatabase _ _ | Fetch _ _ => true
  | _ => false
  end.

(** Whether an effect is a step of an execution, remote or local. *)
Definition reaches (e : Effect) : bool :=
  match e with
  | ExecuteLocally _ _ _ => true
  | _ => remoteStep e
  end.

(** Whether an effect sets the level of the logger. *)
Definition setsLevel (e : Effect) : bool :=
  match e with
  | SetLoggerLevel _ => true
  | _ => false
  end.

(** Whether an effect prints the response: as tables or as JSON. *)
Definition prints (e : Effect) : bool :=
  match e with
  | Log (Rendered _) | Log (Json _) => true
  | _ => false
  end.

(** The level the logger is left at. *)
Definition loggerLevel (existingLogLevel : string) (effects : list Effect) : string :=
  foldl (fun level e => match e with SetLoggerLevel level' => level' | _ => level end)
        existingLogLevel effects.

(** The answers of the API to the batches, [i] being the index of the
    first. *)
Fixpoint answers (W : World) (resource : string) (db : Database) (i : nat)
    (batches : list string) : list (list QueryResult) :=
  match batches with
  | [] => []
  | sql :: batches' =>
      match fetchResult W i resource (requestInit db sql) with
      | Returns result => result
      | _ => []
      end :: answers W resource db (S i) batches'
  end.

End D1Execute.

(** ** A database, its API and three statements *)

Module D1Scenario.
Import JS D1Execute.

Definition main : Database :=
  {| uuid := "db-main"; previewDatabaseUuid := Some "db-preview"; internal_env := None |}.

(** The result of the [i]-th request. *)
Definition answer (i : nat) : QueryResult :=
  VObj [("success", VBool true); ("batch", VNum (NInt (Z.of_nat i)))].

Definition statements : list string :=
  ["CREATE TABLE t (a)"; "INSERT INTO t VALUES (1)"; "INSERT INTO t VALUES (2)"].

Definition d1Error : thrown := JsError (VStr "D1_ERROR") (VStr "Error: D1_ERROR").

(** Surroundings in which the user answers [ok], the API answers the
    first [healthy] requests and fails the rest, and the splitter finds
    [found] in the SQL of the file and of the command. *)
Definition world (ok : bool) (healthy : nat) (found : list string) : World :=
  {| confirm := Returns ok;
     requireAuth := Returns "account-1";
     getDatabaseByNameOrBinding := fun _ _ => Returns main;
     fetchResult := fun i _ _ =>
                      if (i <? healthy)%nat then Returns [answer i] else Throws d1Error;
     logger_error := VUndefined;
     readFileSync := fun _ => Returns "CREATE TABLE t (a); INSERT INTO t VALUES (1); INSERT INTO t VALUES (2)";
     readConfig := Returns ();
     splitSqlQuery := fun _ => Returns found;
     executeLocally := fun _ queries _ => Returns (Some (answer <$> seq 0 (length queries)));
     errorStack := fun message => "Error: " ++ message;
     undefinedStartsWith :=
       JsError (VStr "Cannot read properties of undefined (reading 'startsWith')")
               (VStr "TypeError") |}.

End D1Scenario.

(** * Properties *)

(** ** The reporter *)

Module MetricsFacts.
Import JS MetricsConfig Metrics.

Section Reporter.
Context (E : Env).

(** *** [sendEvent] *)

Lemma advanced_0 (r : Reporter) : advanced r 0 [] = r.
Proof.
  destruct r. unfold advanced. simpl.
  rewrite app_nil_r. f_equal. lia.
Qed.

Lemma dispatches_advanced (r : Reporter) (n : nat) (requests : list Request) :
  dispatches E (advanced r n requests) = dispatches E r.
Proof. reflexivity. Qed.

Lemma eventPayload_advanced (r : Reporter) (n : nat) (requests : list Request) :
  eventPayload E (advanced r n requests) = eventPayload E r.
Proof. reflexivity. Qed.

Lemma sendEvent_closed (now : Z) (name : string) (properties : gmap string val)
    (r : Reporter) :
  dispatches E r = false → sendEvent E now name properties r = r.
Proof.
  unfold sendEvent, dispatches. intros H.
  apply negb_false_iff in H. by rewrite H.
Qed.

Lemma sendEvent_open (now : Z) (name : string) (properties : gmap string val)
    (r : Reporter) :
  dispatches E r = true →
  sendEvent E now name properties r
  = advanced r 1
      [{| payload := eventPayload E r (amplitude_event_id r) now name properties;
          sent := Pending |}].
Proof.
  unfold sendEvent, dispatches. intros H.
  apply negb_true_iff in H. by rewrite H.
Qed.

Lemma sendEvents_app (calls1 calls2 : list SendCall) (r : Reporter) :
  sendEvents E (calls1 ++ calls2) r = sendEvents E calls2 (sendEvents E calls1 r).
Proof. unfold sendEvents. apply foldl_app. Qed.

(** A sequence of calls on a reporter whose guard is closed changes
    nothing; on one whose guard is open, each call takes the next value
    of the counter. *)
Lemma sendEvents_issued (calls : list SendCall) (r : Reporter) :
  sendEvents E calls r
  = if dispatches E r then advanced r (length calls) (issued E r calls) else r.
Proof.
  destruct (dispatches E r) eqn:Hd.
  - induction calls as [| c calls IH] using rev_ind.
    + unfold issued. rewrite Hd. simpl. by rewrite advanced_0.
    + rewrite sendEvents_app, IH. simpl.
      rewrite sendEvent_open by (by rewrite dispatches_advanced).
      unfold issued. rewrite Hd, imap_app. simpl.
      rewrite eventPayload_advanced. unfold advanced. simpl.
      rewrite length_app, <- app_assoc. simpl.
      rewrite Nat.add_0_r. f_equal. lia.
  - induction calls as [| c calls IH] using rev_ind; [done |].
    rewrite sendEvents_app, IH. simpl. by apply sendEvent_closed.
Qed.

Lemma sendEvents_events (calls : list SendCall) (r : Reporter) :
  events (sendEvents E calls r) = (events r ++ issued E r calls)%list.
Proof.
  rewrite sendEvents_issued. unfold issued.
  destruct (dispatches E r); [done | by rewrite app_nil_r].
Qed.

Lemma issued_lookup (r : Reporter) (calls : list SendCall) (k : nat) (rq : Request) :
  issued E r calls !! k = Some rq →
  dispatches E r = true
  ∧ ∃ c, calls !! k = Some c
         ∧ rq = {| payload := eventPayload E r (amplitude_event_id r + Z.of_nat k)
                                (call_now c) (call_name c) (call_properties c);
                   sent := Pending |}.
Proof.
  unfold issued. destruct (dispatches E r); [| by rewrite lookup_nil].
  rewrite list_lookup_imap.
  destruct (calls !! k) as [c |]; simpl; [| done].
  intros [= <-]. eauto.
Qed.

Lemma reporterProperties_event_id (r : Reporter) (id : Z) :
  reporterProperties E r id !! "amplitude_event_id" = Some (VNum (NInt id)).
Proof. unfold reporterProperties. by simplify_map_eq. Qed.

Lemma spread_lookup (target source : gmap string val) (k : string) :
  spread target source !! k
  = match source !! k with Some v => Some v | None => target !! k end.
Proof.
  unfold spread. rewrite lookup_union.
  destruct (source !! k), (target !! k); reflexivity.
Qed.

(** C6 (amended). Over any sequence of calls of [sendEvent] on a reporter,
    the requests added to [events] are exactly the dispatched calls in
    order, the [k]-th built with the counter at [n + k] where [n] is the
    counter before; the counter ends at [n] plus the number of requests
    added, and nothing removes a request.  The [amplitude_event_id] the
    payload carries is that value of the counter when the caller's
    properties do not name the key; when they do, it is the caller's
    value, whatever the counter reads. *)
Theorem sendEvent_ids_consecutive (calls : list SendCall) (r : Reporter) :
  events (sendEvents E calls r) = (events r ++ issued E r calls)%list
  ∧ amplitude_event_id (sendEvents E calls r)
    = (amplitude_event_id r + Z.of_nat (length (issued E r calls)))%Z
  ∧ (dispatches E r = true → length (issued E r calls) = length calls)
  ∧ (∀ (k : nat) (rq : Request),
       issued E r calls !! k = Some rq →
       ∃ c, calls !! k = Some c
            ∧ payload rq
              = eventPayload E r (amplitude_event_id r + Z.of_nat k)
                  (call_now c) (call_name c) (call_properties c)
            ∧ eventId rq
              = match call_properties c !! "amplitude_event_id" with
                | Some v => Some v
                | None => Some (VNum (NInt (amplitude_event_id r + Z.of_nat k)))
                end).
Proof.
  split; [apply sendEvents_events |]. split.
  { rewrite sendEvents_issued. unfold issued.
    destruct (dispatches E r); simpl; [by rewrite length_imap | lia]. }
  split.
  { intros Hopen. unfold issued. rewrite Hopen. apply length_imap. }
  intros k rq Hk. apply issued_lookup in Hk as (_ & c & Hc & ->).
  exists c. split; [done |]. split; [done |].
  unfold eventId. simpl. rewrite spread_lookup.
  destruct (call_properties c !! "amplitude_event_id"); [done |].
  by rewrite reporterProperties_event_id.
Qed.

(** *** [updateC3Pemission] *)

Lemma updateC3Pemission_twice (now1 now2 : Z) (requested : bool) (d : disk) :
  updateC3Pemission now2 requested (updateC3Pemission now1 requested d)
  = updateC3Pemission now1 requested d.
Proof.
  unfold updateC3Pemission at 2.
  destruct (match c3permission (readMetricsConfig d) with
            | Some p => Bool.eqb (enabled p) requested
            | None => false
            end) eqn:Hsame.
  - unfold updateC3Pemission. by rewrite Hsame.
  - unfold updateC3Pemission. simpl. by rewrite Bool.eqb_reflx, Hsame.
Qed.

(** C8. When the stored permission already has the requested state,
    [updateC3Pemission] returns the disk as it was: nothing is written (the
    list of writes is the same) and the stored record, its date included,
    is the same; so does [runTelemetryCommand] for [enable] and
    [disable]. *)
Theorem updateC3Pemission_same_state (now : Z) (requested : bool) (d : disk)
    (permission : C3Permission) :
  c3permission (readMetricsConfig d) = Some permission →
  enabled permission = requested →
  updateC3Pemission now requested d = d
  ∧ written (updateC3Pemission now requested d) = written d
  ∧ c3permission (stored (updateC3Pemission now requested d)) = Some permission
  ∧ fst (runTelemetryCommand now (if requested then enable else disable) d) = d.
Proof.
  intros Hp He.
  assert (Hu : updateC3Pemission now requested d = d).
  { unfold updateC3Pemission. rewrite Hp, He. by rewrite Bool.eqb_reflx. }
  rewrite Hu. repeat split; [done |].
  destruct requested; simpl; exact Hu.
Qed.

(** *** [setEventProperty] *)

(** C7. With no store ([als.getStore()] is [undefined]), [setEventProperty]
    returns without a store to write to when [process.env.VITEST] is not
    set (or empty), and throws an [Error] when it is set. *)
Theorem setEventProperty_outside (key : string) (value : val) :
  (env_truthy (VITEST E) = false → setEventProperty E None key value = inr None)
  ∧ (env_truthy (VITEST E) = true →
     ∃ e, setEventProperty E None key value = inl e
          ∧ instanceof_Error e = true
          ∧ message e
            = VStr "`setEventProperty` must be called within `collectAsyncMetrics`").
Proof.
  unfold setEventProperty. split; intros ->; [done |].
  eexists. split; [done |]. by split.
Qed.

(** The earlier revision throws whatever the environment. *)
Lemma earlier_setEventProperty_outside (key : string) (value : val) :
  ∃ e, Earlier.setEventProperty E None key value = inl e ∧ instanceof_Error e = true.
Proof. eexists. by split. Qed.

(** Inside an invocation both revisions write to the store. *)
Lemma setEventProperty_inside (additionalProperties : object)
    (key : string) (value : val) :
  setEventProperty E (Some additionalProperties) key value
  = inr (Some (store_setEventProperty key value additionalProperties)).
Proof. reflexivity. Qed.

(** *** [waitForAllEventsSettled] *)

(** [Promise.allSettled] never rejects: the [await] does not throw. *)
Lemma allSettled_not_rejected {A} (ps : list (promise A)) (e : thrown) :
  allSettled ps ≠ Rejected e.
Proof. unfold allSettled. by destruct (mapM settlement ps). Qed.

Lemma settlement_request (rq : Request) :
  settlement (request rq)
  = if is_pending (sent rq) then None else Some (SettledFulfilled (dispatchRecord rq)).
Proof. unfold request, dispatchRecord. by destruct (sent rq). Qed.

Lemma settlements_requests (rqs : list Request) :
  mapM settlement (request <$> rqs)
  = if forallb (λ rq, negb (is_pending (sent rq))) rqs
    then Some ((λ rq, SettledFulfilled (dispatchRecord rq)) <$> rqs)
    else None.
Proof.
  induction rqs as [| rq rqs IH]; [done |].
  cbn [fmap list_fmap mapM forallb]. rewrite settlement_request.
  destruct (is_pending (sent rq)); [done |]. simpl.
  change (list_fmap _ _ request rqs) with (request <$> rqs).
  rewrite IH. by destruct (forallb _ rqs).
Qed.

(** The entries handed to [JSON.stringify] once every request has
    settled: all of them are written exactly when the record of every
    request is. *)
Lemma entries_stringify (rqs : list Request) :
  forallb entryStringifies
    ((λ event : settled DispatchRecord,
        match event with
        | SettledFulfilled value => inl value
        | SettledRejected reason => inr reason
        end) <$> ((λ rq, SettledFulfilled (dispatchRecord rq)) <$> rqs))
  = forallb (λ rq, recordStringifies (dispatchRecord rq)) rqs.
Proof.
  induction rqs as [| rq rqs IH]; [done |].
  cbn [fmap list_fmap forallb entryStringifies]. f_equal. exact IH.
Qed.

Lemma none_pending (rqs : list Request) :
  forallb (λ rq, negb (is_pending (sent rq))) rqs = true
  ↔ Forall (λ rq, is_pending (sent rq) = false) rqs.
Proof.
  rewrite forallb_forall, Forall_forall. split; intros H rq Hin.
  - apply negb_true_iff, H. by apply list_elem_of_In.
  - apply negb_true_iff, H. by apply list_elem_of_In.
Qed.

Lemma some_pending (rqs : list Request) :
  forallb (λ rq, negb (is_pending (sent rq))) rqs = false
  ↔ Exists (λ rq, sent rq = Pending) rqs.
Proof.
  induction rqs as [| rq rqs IH]; simpl.
  - split; [done |]. by intros H%Exists_nil.
  - rewrite Exists_cons, <- IH. destruct (sent rq); simpl; naive_solver.
Qed.

Lemma all_stringify (rqs : list Request) :
  forallb (λ rq, recordStringifies (dispatchRecord rq)) rqs = true
  ↔ Forall (λ rq, recordStringifies (dispatchRecord rq) = true) rqs.
Proof.
  rewrite forallb_forall, Forall_forall. split; intros H rq Hin.
  - apply H. by apply list_elem_of_In.
  - apply H. by apply list_elem_of_In.
Qed.

Lemma some_not_stringify (rqs : list Request) :
  forallb (λ rq, recordStringifies (dispatchRecord rq)) rqs = false
  ↔ Exists (λ rq, recordStringifies (dispatchRecord rq) = false) rqs.
Proof.
  induction rqs as [| rq rqs IH]; simpl.
  - split; [done |]. by intros H%Exists_nil.
  - rewrite Exists_cons, <- IH.
    destruct (recordStringifies (dispatchRecord rq)); simpl; naive_solver.
Qed.


End Reporter.

(** ** [collectAsyncMetrics] *)

Section Invocation.
Context (E : Env) (o : Options) (startTime nowStarted : Z) (r : Reporter).

Local Abbreviation collect := (collectAsyncMetrics E o startTime nowStarted r).
Local Abbreviation step' := (step E o startTime).
Local Abbreviation run' := (run E o startTime).

(** *** One step *)

Lemma pending_or_settled {A} (p : promise A) : p = Pending ∨ p ≠ Pending.
Proof. destruct p; [by left | by right | by right]. Qed.

Lemma Resumes_or_not (t : tick) :
  (∃ nowDuration nowSend, t = Resumes nowDuration nowSend)
  ∨ (∀ nowDuration nowSend, t ≠ Resumes nowDuration nowSend).
Proof. destruct t; try (by right); left; eauto. Qed.

Lemma run_app (inv : Invocation) (trace1 trace2 : list tick) :
  run' inv (trace1 ++ trace2) = run' (run' inv trace1) trace2.
Proof. unfold run. apply foldl_app. Qed.

Lemma collect_app (trace later : list tick) :
  collect (trace ++ later) = run' (collect trace) later.
Proof. unfold collectAsyncMetrics. apply run_app. Qed.

Lemma collect_snoc (trace : list tick) (t : tick) :
  collect (trace ++ [t]) = step' (collect trace) t.
Proof. by rewrite collect_app. Qed.

Lemma contextStore_snoc (trace : list tick) (t : tick) :
  contextStore (trace ++ [t])
  = match t with
    | OpSetEventProperty key value =>
        store_setEventProperty key value (contextStore trace)
    | _ => contextStore trace
    end.
Proof. unfold contextStore. by rewrite foldl_app. Qed.

Lemma step_additionalProperties (inv : Invocation) (t : tick) :
  additionalProperties (step' inv t)
  = match t with
    | OpSetEventProperty key value =>
        store_setEventProperty key value (additionalProperties inv)
    | _ => additionalProperties inv
    end.
Proof.
  destruct inv as [rep ap cd tm ls op rc rt]; destruct t; simpl; try done.
  - by destruct ls.
  - by destruct tm.
  - unfold resume; simpl. by destruct rt, rc.
Qed.

(** A tick other than [Resumes] leaves the reporter, the returned promise
    and the registration of the handlers alone. *)
Lemma step_awaiting (inv : Invocation) (t : tick) :
  (∀ nowDuration nowSend, t ≠ Resumes nowDuration nowSend) →
  reporter (step' inv t) = reporter inv
  ∧ returned (step' inv t) = returned inv
  ∧ listening (step' inv t) = listening inv.
Proof.
  intros Ht. destruct inv as [rep ap cd tm ls op rc rt]; destruct t; simpl; try done.
  - by destruct ls.
  - by destruct tm.
  - by destruct (Ht nowDuration nowSend).
Qed.

(** Once the call has returned, no tick changes the reporter or the
    returned promise. *)
Lemma step_returned (inv : Invocation) (t : tick) :
  returned inv ≠ Pending →
  reporter (step' inv t) = reporter inv
  ∧ returned (step' inv t) = returned inv
  ∧ listening (step' inv t) = listening inv.
Proof.
  intros Hr. destruct t; try (apply step_awaiting; done).
  simpl. unfold resume.
  destruct (returned inv) eqn:Hq; [by destruct Hr | by rewrite Hq | by rewrite Hq].
Qed.

(** A settled race stays as it is. *)
Lemma step_race_stable (inv : Invocation) (t : tick) :
  race inv ≠ Pending → race (step' inv t) = race inv.
Proof.
  intros Hr. destruct inv as [rep ap cd tm ls op rc rt]; destruct t; simpl in *; try done.
  - by destruct rc.
  - by destruct rc.
  - by destruct ls.
  - destruct tm; simpl; [done |]. by destruct rc.
  - unfold resume; simpl. by destruct rt, rc.
Qed.

Lemma run_race_stable (inv : Invocation) (later : list tick) :
  race inv ≠ Pending → race (run' inv later) = race inv.
Proof.
  revert inv. induction later as [| t later IH]; intros inv Hr; [done |].
  simpl. rewrite IH; rewrite step_race_stable; done.
Qed.

(** With the race undecided the [await] does not return. *)
Lemma resume_pending (inv : Invocation) (nowDuration nowSend : Z) :
  race inv = Pending → step' inv (Resumes nowDuration nowSend) = inv.
Proof. simpl. unfold resume. intros ->. by destruct (returned inv). Qed.

Lemma completed_call (nowDuration nowSend : Z) (ap : gmap string val)
    (value : val) (r' : Reporter) :
  completed E o startTime nowDuration nowSend ap r'
  = sendEvents E (terminalCall o startTime nowDuration nowSend ap (Fulfilled value)) r'.
Proof. unfold completed, terminalCall. by destruct (telemetryOn o). Qed.

Lemma caught_call (nowDuration nowSend : Z) (ap : gmap string val)
    (e : thrown) (r' : Reporter) :
  caught E o startTime nowDuration nowSend ap e r'
  = sendEvents E (terminalCall o startTime nowDuration nowSend ap (Rejected e)) r'.
Proof.
  unfold caught, terminalCall, terminalProperties, terminalPhase.
  destruct (telemetryOn o); [| done]. simpl.
  by destruct (instanceof_CancelError e).
Qed.

Lemma enter_call :
  reporter (enter E o nowStarted r) = sendEvents E (startedCall o nowStarted) r.
Proof. unfold enter, startedCall. simpl. by destruct (telemetryOn o). Qed.

(** With the race settled and the call not yet returned, [Resumes] makes
    the call return what the race settled as, after the terminal call of
    [sendEvent], and removes the handlers. *)
Lemma resume_settled (inv : Invocation) (nowDuration nowSend : Z) :
  returned inv = Pending →
  race inv ≠ Pending →
  returned (step' inv (Resumes nowDuration nowSend)) = race inv
  ∧ race (step' inv (Resumes nowDuration nowSend)) = race inv
  ∧ listening (step' inv (Resumes nowDuration nowSend)) = false
  ∧ reporter (step' inv (Resumes nowDuration nowSend))
    = sendEvents E
        (terminalCall o startTime nowDuration nowSend
           (own (additionalProperties inv)) (race inv))
        (reporter inv).
Proof.
  intros Hret Hrace. simpl. unfold resume. rewrite Hret.
  destruct (race inv) as [| value | e] eqn:Hr; [done | |]; simpl.
  - repeat split; try done. apply completed_call.
  - repeat split; try done. apply caught_call.
Qed.

(** *** The life cycle of an invocation *)

(** After any trace, either the call has not returned and the reporter has
    seen the started call only, or the trace has a [Resumes] at which the
    call returned: then the race had settled, the call returned what the
    race settled as, and the reporter has seen the started call and the
    terminal call made with the properties set until then. *)
Lemma lifecycle (trace : list tick) :
  additionalProperties (collect trace) = contextStore trace
  ∧ ((returned (collect trace) = Pending
      ∧ listening (collect trace) = true
      ∧ reporter (collect trace) = sendEvents E (startedCall o nowStarted) r)
     ∨ (∃ pre nowDuration nowSend post,
          trace = (pre ++ Resumes nowDuration nowSend :: post)%list
          ∧ returned (collect pre) = Pending
          ∧ race (collect pre) = race (collect trace)
          ∧ race (collect trace) ≠ Pending
          ∧ returned (collect trace) = race (collect trace)
          ∧ listening (collect trace) = false
          ∧ reporter (collect trace)
            = sendEvents E
                (startedCall o nowStarted ++
                 terminalCall o startTime nowDuration nowSend
                   (contextProperties pre) (race (collect trace)))
                r)).
Proof.
  induction trace as [| t trace [IHap IH]] using rev_ind.
  - split; [done |]. left. split; [done |]. split; [done |]. apply enter_call.
  - rewrite collect_snoc. split.
    { rewrite step_additionalProperties, contextStore_snoc, IHap. by destruct t. }
    destruct IH as [(Hret & Hls & Hrep)
                   | (pre & tD & tS & post & -> & Hpre & Hrc & Hne & Hret & Hls & Hrep)].
    + destruct (Resumes_or_not t) as [(tD & tS & ->) | Hnot].
      * destruct (pending_or_settled (race (collect trace))) as [Hp | Hnp].
        { rewrite resume_pending by done. left. by repeat split. }
        destruct (resume_settled (collect trace) tD tS Hret Hnp) as (H1 & H2 & H3 & H4).
        right. exists trace, tD, tS, []. rewrite H1, H2, H3, H4.
        repeat split; try done.
        rewrite Hrep, IHap, <- sendEvents_app. done.
      * destruct (step_awaiting (collect trace) t Hnot) as (H1 & H2 & H3).
        left. rewrite H1, H2, H3. by repeat split.
    + destruct (step_returned (collect (pre ++ Resumes tD tS :: post)) t) as (H1 & H2 & H3).
      { rewrite Hret. done. }
      right. exists pre, tD, tS, (post ++ [t])%list.
      rewrite H1, H2, H3, step_race_stable by done.
      repeat split; try done.
      by rewrite <- app_assoc.
Qed.

(** All an invocation does to the reporter is call [sendEvent], at most
    twice. *)
Lemma collect_sendEvents (trace : list tick) :
  ∃ calls : list SendCall,
    reporter (collect trace) = sendEvents E calls r ∧ (length calls ≤ 2)%nat.
Proof.
  destruct (lifecycle trace)
    as [_ [(_ & _ & Hrep) | (pre & tD & tS & post & _ & _ & _ & _ & _ & _ & Hrep)]];
    eexists; (split; [exact Hrep |]).
  - unfold startedCall. destruct (telemetryOn o); simpl; lia.
  - rewrite length_app. unfold startedCall, terminalCall.
    destruct (telemetryOn o), (is_pending (race (collect trace))); simpl; lia.
Qed.

(** *** The three promises *)

Lemma enter_promisesConsistent : promisesConsistent E (enter E o nowStarted r).
Proof. unfold promisesConsistent. simpl. naive_solver. Qed.

(** An input [p] of the race changes state: by cases on the race and,
    when the race is settled, on the input. *)
Local Ltac input_settles Hpending rc p :=
  destruct rc; simpl;
  [ destruct (Hpending eq_refl) as [-> ->]; simpl; naive_solver
  | destruct p; simpl; naive_solver .. ].

Lemma step_promisesConsistent (inv : Invocation) (t : tick) :
  promisesConsistent E inv → promisesConsistent E (step' inv t).
Proof.
  unfold promisesConsistent.
  destruct inv as [rep ap cd tm ls op rc rt]. simpl.
  intros (Hcd & Hpending & Hrace).
  destruct t; simpl; try done.
  - input_settles Hpending rc op.
  - input_settles Hpending rc op.
  - by destruct ls.
  - destruct tm as [| signal tm']; simpl; [done |].
    input_settles Hpending rc cd.
  - unfold resume. simpl. destruct rt, rc; simpl; done.
Qed.

Lemma run_promisesConsistent (inv : Invocation) (trace : list tick) :
  promisesConsistent E inv → promisesConsistent E (run' inv trace).
Proof.
  revert inv. induction trace as [| t trace IH]; intros inv H; [done |].
  simpl. apply IH. by apply step_promisesConsistent.
Qed.

Lemma collect_promisesConsistent (trace : list tick) :
  promisesConsistent E (collect trace).
Proof. apply run_promisesConsistent, enter_promisesConsistent. Qed.


(** What [cancelDeferred] is rejected with is a [CancelError]. *)
Lemma cancelDeferred_rejected (trace : list tick) (e : thrown) :
  cancelDeferred (collect trace) = Rejected e → instanceof_CancelError e = true.
Proof.
  intros He.
  destruct (collect_promisesConsistent trace) as ([Hcd | [signal Hcd]] & _); [congruence |].
  rewrite Hcd in He. by injection He as <-.
Qed.

(** *** Counting rejections *)

Lemma step_cancelDeferred_stable (inv : Invocation) (t : tick) :
  cancelDeferred inv ≠ Pending → cancelDeferred (step' inv t) = cancelDeferred inv.
Proof.
  intros Hcd. destruct inv as [rep ap cd tm ls op rc rt]; destruct t; simpl in *; try done.
  - by destruct ls.
  - destruct tm; simpl; [done |]. by destruct cd.
  - unfold resume; simpl. by destruct rt, rc.
Qed.

Lemma step_cancelDeferred (inv : Invocation) (t : tick) :
  cancelDeferred (step' inv t)
  = match t, timers inv with
    | TimerFires, signal :: _ =>
        reject (cancelDeferred inv) (newCancelError E (Some signal))
    | _, _ => cancelDeferred inv
    end.
Proof.
  destruct inv as [rep ap cd tm ls op rc rt]; destruct t; simpl in *; try done.
  - by destruct ls.
  - by destruct tm.
  - unfold resume; simpl. by destruct rt, rc.
Qed.

Lemma cancelRejections_bound (inv : Invocation) (trace : list tick) :
  (cancelRejections E o startTime inv trace
   ≤ if is_pending (cancelDeferred inv) then 1 else 0)%nat.
Proof.
  revert inv. induction trace as [| t trace IH]; intros inv; simpl.
  - destruct (is_pending _); lia.
  - specialize (IH (step' inv t)).
    destruct (cancelDeferred inv) eqn:Hcd; simpl in *.
    + destruct (is_pending (cancelDeferred (step' inv t))); simpl; lia.
    + rewrite step_cancelDeferred_stable in IH by (by rewrite Hcd).
      rewrite Hcd in IH. simpl in IH. lia.
    + rewrite step_cancelDeferred_stable in IH by (by rewrite Hcd).
      rewrite Hcd in IH. simpl in IH. lia.
Qed.

Lemma cancelRejections_once (inv : Invocation) (trace : list tick) :
  cancelDeferred inv = Pending →
  (1 ≤ rejectCalls E o startTime inv trace)%nat →
  cancelRejections E o startTime inv trace = 1%nat.
Proof.
  revert inv. induction trace as [| t trace IH]; intros inv Hcd Hcalls.
  { simpl in Hcalls. lia. }
  cbn [cancelRejections rejectCalls] in *.
  pose proof (step_cancelDeferred inv t) as Hstep.
  pose proof (cancelRejections_bound (step' inv t) trace) as Hbound.
  rewrite Hcd in Hstep. rewrite Hcd.
  destruct t;
    try (rewrite Hstep; cbn [is_pending negb andb Nat.add];
         apply IH; [done | lia]).
  destruct (timers inv) as [| signal tm'] eqn:Htm.
  - rewrite Hstep. cbn [is_pending negb andb Nat.add]. apply IH; [done | lia].
  - rewrite Hstep in Hbound |- *. cbn [reject settle is_pending negb andb] in *. lia.
Qed.

(** *** What an invocation dispatches *)

Lemma dispatched_calls (inv : Invocation) (calls : list SendCall) :
  reporter inv = sendEvents E calls r → dispatched r inv = issued E r calls.
Proof.
  intros H. unfold dispatched.
  by rewrite H, sendEvents_events, drop_app_length.
Qed.

Lemma lifecycleProperties_lookup (ap : gmap string val) (d : Duration) (key : string) :
  lifecycleProperties o ap d !! key
  = if decide (key = "durationMinutes") then Some (VNum (minutes d))
    else if decide (key = "durationSeconds") then Some (VNum (seconds d))
    else if decide (key = "durationMs") then Some (VNum (NInt (ms d)))
    else match ap !! key with
         | Some v => Some v
         | None => props o !! key
         end.
Proof.
  unfold lifecycleProperties.
  rewrite !lookup_insert, spread_lookup.
  repeat case_decide; subst; done.
Qed.

Lemma terminalProperties_lookup (ap : gmap string val) (d : Duration)
    (outcome : promise val) (key : string) :
  terminalProperties o ap d outcome !! key
  = if decide (key = "error" ∧ terminalPhase outcome = "errored")
    then match outcome with
         | Rejected e => Some (errorDescriptor e)
         | _ => None
         end
    else lifecycleProperties o ap d !! key.
Proof.
  unfold terminalProperties, terminalPhase.
  destruct outcome as [| value | e].
  - case_decide as H; [by destruct H | done].
  - case_decide as H; [by destruct H | done].
  - destruct (instanceof_CancelError e).
    + case_decide as H; [by destruct H | done].
    + rewrite lookup_insert. repeat case_decide; naive_solver.
Qed.

Lemma terminalProperties_durationMs (ap : gmap string val) (d : Duration)
    (outcome : promise val) :
  terminalProperties o ap d outcome !! "durationMs" = Some (VNum (NInt (ms d))).
Proof.
  rewrite terminalProperties_lookup, lifecycleProperties_lookup.
  rewrite decide_False by (by intros [? _]).
  rewrite !decide_False by done. by rewrite decide_True.
Qed.

Lemma clockNotSetBack_resume (pre post : list tick) (nowDuration nowSend : Z) :
  clockNotSetBack startTime (pre ++ Resumes nowDuration nowSend :: post) = true →
  (startTime ≤ nowDuration)%Z.
Proof.
  unfold clockNotSetBack. rewrite forallb_app. simpl.
  intros H. apply andb_true_iff in H as [_ H].
  apply andb_true_iff in H as [H _]. lia.
Qed.

Lemma terminalPhase_settled (outcome : promise val) :
  outcome ≠ Pending →
  terminalPhase outcome = "completed"
  ∨ terminalPhase outcome = "errored"
  ∨ terminalPhase outcome = "cancelled".
Proof.
  destruct outcome as [| value | e]; simpl; [done | auto |].
  destruct (instanceof_CancelError e); auto.
Qed.




(** Once the race has settled, the next [Resumes] makes the call return
    what the race settled as, if it has not already. *)
Lemma resume_returns (trace : list tick) (nowDuration nowSend : Z) :
  race (collect trace) ≠ Pending →
  returned (collect (trace ++ [Resumes nowDuration nowSend])) = race (collect trace).
Proof.
  intros Hne. rewrite collect_snoc.
  destruct (lifecycle trace)
    as [_ [(Hp & _) | (pre & tD & tS & post & _ & _ & _ & _ & Hreturned & _)]].
  - by destruct (resume_settled (collect trace) nowDuration nowSend Hp Hne) as (-> & _).
  - destruct (step_returned (collect trace) (Resumes nowDuration nowSend)) as (_ & -> & _);
      [by rewrite Hreturned | done].
Qed.


(** Every signal handled is a call of [cancel] that has called [reject]
    or still waits for its timer. *)
Lemma signals_accounted (inv : Invocation) (trace : list tick) :
  (signalsHandled E o startTime inv trace + length (timers inv)
   = rejectCalls E o startTime inv trace + length (timers (run' inv trace)))%nat.
Proof.
  revert inv. induction trace as [| t trace IH]; intros inv; [simpl; lia |].
  cbn [signalsHandled rejectCalls]. unfold run in *. cbn [foldl].
  specialize (IH (step' inv t)).
  assert (Hstep : (length (timers (step' inv t))
                   + match t, timers inv with
                     | TimerFires, _ :: _ => 1
                     | _, _ => 0
                     end
                   = length (timers inv)
                     + match t with
                       | SignalReceived _ => if listening inv then 1 else 0
                       | _ => 0
                       end)%nat).
  { destruct inv as [rep ap cd tm ls op rc rt]; destruct t; simpl; try lia.
    - destruct ls; simpl; [rewrite length_app; simpl |]; lia.
    - destruct tm; simpl; lia.
    - unfold resume; simpl. destruct rt, rc; simpl; lia. }
  lia.
Qed.

End Invocation.

(** ** [collectAsyncMetrics] on a reporter that others call *)

Section Shared.
Context (E : Env) (o : Options) (startTime nowStarted : Z) (r : Reporter).

Local Abbreviation collect := (collectAsyncMetrics E o startTime nowStarted r).
Local Abbreviation shared := (collectShared E o startTime nowStarted r).
Local Abbreviation step' := (step E o startTime).
Local Abbreviation run' := (run E o startTime).
Local Abbreviation sharedStep' := (sharedStep E o startTime).
Local Abbreviation sharedRun' := (sharedRun E o startTime).

Lemma withReporter_reporter (inv : Invocation) : withReporter (reporter inv) inv = inv.
Proof. by destruct inv. Qed.

Lemma step_withReporter (r' : Reporter) (inv : Invocation) (t : tick) :
  step' (withReporter r' inv) t
  = withReporter (sendEvents E (ownCall o startTime inv t) r') (step' inv t).
Proof.
  destruct inv as [rep ap cd tm ls op rc rt]; destruct t; simpl; try done.
  - by destruct ls.
  - by destruct tm.
  - unfold resume, withReporter; simpl.
    destruct rt; [| done | done].
    destruct rc as [| value | e]; simpl.
    + unfold terminalCall. by rewrite andb_false_r.
    + by rewrite (completed_call E o startTime _ _ _ value).
    + by rewrite caught_call.
Qed.

Lemma withReporter_twice (r1 r2 : Reporter) (inv : Invocation) :
  withReporter r1 (withReporter r2 inv) = withReporter r1 inv.
Proof. done. Qed.

Lemma sharedRun_withReporter (r' : Reporter) (inv : Invocation) (turns : list turn) :
  sharedRun' (withReporter r' inv) turns
  = withReporter (sendEvents E (sharedCalls E o startTime inv turns) r')
      (run' inv (ownTicks turns)).
Proof.
  revert r' inv. induction turns as [| [t | c] turns IH]; intros r' inv.
  - done.
  - cbn [sharedRun foldl sharedStep sharedCalls]. rewrite step_withReporter.
    fold (sharedRun' (withReporter (sendEvents E (ownCall o startTime inv t) r')
                        (step' inv t)) turns).
    rewrite IH, sendEvents_app. done.
  - cbn [sharedRun foldl sharedStep sharedCalls].
    fold (sharedRun' (withReporter
                        (sendEvent E (call_now c) (call_name c) (call_properties c)
                           (reporter (withReporter r' inv))) (withReporter r' inv)) turns).
    rewrite withReporter_twice, IH. done.
Qed.

Lemma shared_collect (turns : list turn) :
  shared turns
  = withReporter
      (sendEvents E
         (startedCall o nowStarted
          ++ sharedCalls E o startTime (enter E o nowStarted r) turns) r)
      (collect (ownTicks turns)).
Proof.
  unfold collectShared.
  rewrite <- (withReporter_reporter (enter E o nowStarted r)) at 1.
  rewrite sharedRun_withReporter, enter_call, <- sendEvents_app. done.
Qed.

Lemma run_returned_stable (inv : Invocation) (trace : list tick) :
  returned inv ≠ Pending → returned (run' inv trace) = returned inv.
Proof.
  revert inv. induction trace as [| t trace IH]; intros inv Hr; [done |].
  destruct (step_returned E o startTime inv t Hr) as (_ & Hret & _).
  cbn [run foldl]. fold (run' (step' inv t) trace).
  rewrite IH; [done | by rewrite Hret].
Qed.

Lemma ownCall_returned (inv : Invocation) (t : tick) :
  returned inv ≠ Pending → ownCall o startTime inv t = [].
Proof. intros Hr. destruct t; try done. simpl. by destruct (returned inv). Qed.

Lemma ownCall_awaiting (inv : Invocation) (t : tick) :
  returned (step' inv t) = Pending → ownCall o startTime inv t = [].
Proof.
  intros Hr. destruct t as [| | | | | tD tS]; try done. simpl.
  destruct (returned inv) eqn:Hret; [| done | done].
  destruct (pending_or_settled (race inv)) as [Hp | Hnp].
  - rewrite Hp. unfold terminalCall. by rewrite andb_false_r.
  - destruct (resume_settled E o startTime inv tD tS Hret Hnp) as (H & _).
    rewrite H in Hr. done.
Qed.

Lemma sharedCalls_returned (inv : Invocation) (turns : list turn) :
  returned inv ≠ Pending → sharedCalls E o startTime inv turns = otherCalls turns.
Proof.
  revert inv. induction turns as [| [t | c] turns IH]; intros inv Hr; [done | |].
  - cbn [sharedCalls]. rewrite ownCall_returned by done.
    destruct (step_returned E o startTime inv t Hr) as (_ & Hret & _).
    rewrite IH; [done | by rewrite Hret].
  - cbn [sharedCalls]. by rewrite IH.
Qed.

Lemma sharedCalls_awaiting (inv : Invocation) (turns : list turn) :
  returned (run' inv (ownTicks turns)) = Pending →
  sharedCalls E o startTime inv turns = otherCalls turns.
Proof.
  revert inv. induction turns as [| [t | c] turns IH]; intros inv Hr; [done | |].
  - cbn [sharedCalls]. change (ownTicks (Own t :: turns)) with (t :: ownTicks turns) in Hr.
    cbn [run foldl] in Hr. fold (run' (step' inv t) (ownTicks turns)) in Hr.
    rewrite IH by done. rewrite ownCall_awaiting; [done |].
    destruct (pending_or_settled (returned (step' inv t))) as [Hp | Hnp]; [done |].
    rewrite run_returned_stable in Hr by done. done.
  - cbn [sharedCalls]. by rewrite IH.
Qed.

Lemma ownTicks_app (a b : list turn) : ownTicks (a ++ b) = (ownTicks a ++ ownTicks b)%list.
Proof. apply omap_app. Qed.

Lemma otherCalls_app (a b : list turn) :
  otherCalls (a ++ b) = (otherCalls a ++ otherCalls b)%list.
Proof. apply omap_app. Qed.

Lemma sharedCalls_app (inv : Invocation) (a b : list turn) :
  sharedCalls E o startTime inv (a ++ b)
  = (sharedCalls E o startTime inv a
     ++ sharedCalls E o startTime (run' inv (ownTicks a)) b)%list.
Proof.
  revert inv. induction a as [| [t | c] a IH]; intros inv; [done | |].
  - cbn [app sharedCalls]. rewrite IH, <- app_assoc. done.
  - cbn [app sharedCalls]. rewrite IH. done.
Qed.

Lemma ownTicks_split (turns : list turn) (a : list tick) (t : tick) (b : list tick) :
  ownTicks turns = (a ++ t :: b)%list →
  ∃ pre post, turns = (pre ++ Own t :: post)%list ∧ ownTicks pre = a ∧ ownTicks post = b.
Proof.
  revert a. induction turns as [| [t' | c] turns IH]; intros a H.
  - by destruct a.
  - change (ownTicks (Own t' :: turns)) with (t' :: ownTicks turns) in H.
    destruct a as [| x a]; simpl in H.
    + injection H as -> <-. by exists [], turns.
    + injection H as -> H. destruct (IH a H) as (pre & post & -> & <- & <-).
      by exists (Own x :: pre), post.
  - change (ownTicks (Other c :: turns)) with (ownTicks turns) in H.
    destruct (IH a H) as (pre & post & -> & <- & <-).
    by exists (Other c :: pre), post.
Qed.

Lemma shared_returned (turns : list turn) :
  returned (shared turns) = returned (collect (ownTicks turns)).
Proof. by rewrite shared_collect. Qed.

Lemma shared_race (turns : list turn) :
  race (shared turns) = race (collect (ownTicks turns)).
Proof. by rewrite shared_collect. Qed.

Lemma shared_reporter (turns : list turn) :
  reporter (shared turns)
  = sendEvents E
      (startedCall o nowStarted
       ++ sharedCalls E o startTime (enter E o nowStarted r) turns) r.
Proof. by rewrite shared_collect. Qed.

(** The calls a reporter sees over the turns of an invocation. *)
Lemma shared_calls (turns : list turn) :
  (returned (shared turns) = Pending
   ∧ reporter (shared turns)
     = sendEvents E (startedCall o nowStarted ++ otherCalls turns) r)
  ∨ (∃ pre nowDuration nowSend post,
       turns = (pre ++ Own (Resumes nowDuration nowSend) :: post)%list
       ∧ returned (shared pre) = Pending
       ∧ race (shared pre) ≠ Pending
       ∧ returned (shared turns) = race (shared pre)
       ∧ reporter (shared turns)
         = sendEvents E
             (startedCall o nowStarted
              ++ otherCalls pre
              ++ terminalCall o startTime nowDuration nowSend
                   (contextProperties (ownTicks pre)) (returned (shared turns))
              ++ otherCalls post) r).
Proof.
  rewrite shared_returned, shared_reporter.
  destruct (lifecycle E o startTime nowStarted r (ownTicks turns))
    as [_ [(Hp & _ & _)
          | (pre' & tD & tS & post' & Htr & Hpre & Hrc & Hne & Hret & _ & _)]].
  - left. split; [done |]. by rewrite sharedCalls_awaiting.
  - right. destruct (ownTicks_split turns pre' (Resumes tD tS) post' Htr)
      as (pre & post & -> & <- & <-).
    exists pre, tD, tS, post.
    rewrite shared_returned, shared_race, Hret, <- Hrc.
    split; [done |]. split; [done |]. split; [by rewrite Hrc |]. split; [done |].
    rewrite sharedCalls_app, sharedCalls_awaiting by done.
    cbn [sharedCalls ownCall].
    fold (collect (ownTicks pre)). rewrite Hpre.
    destruct (lifecycle E o startTime nowStarted r (ownTicks pre)) as [Hap _].
    rewrite Hap. fold (contextProperties (ownTicks pre)).
    rewrite sharedCalls_returned; [done |].
    destruct (resume_settled E o startTime (collect (ownTicks pre)) tD tS Hpre) as (H & _);
      [by rewrite Hrc |].
    rewrite H. by rewrite Hrc.
Qed.

Lemma step_reporter (inv : Invocation) (t : tick) :
  reporter (step' inv t) = sendEvents E (ownCall o startTime inv t) (reporter inv).
Proof.
  rewrite <- (withReporter_reporter inv) at 1. by rewrite step_withReporter.
Qed.

Lemma ownRequests_returned (inv : Invocation) (turns : list turn) :
  returned inv ≠ Pending → ownRequests E o startTime inv turns = [].
Proof.
  revert inv. induction turns as [| [t | c] turns IH]; intros inv Hr; [done | |].
  - cbn [ownRequests sharedStep].
    destruct (step_returned E o startTime inv t Hr) as (Hrep & Hret & _).
    rewrite IH by (by rewrite Hret).
    unfold dispatched. by rewrite Hrep, drop_all.
  - cbn [ownRequests sharedStep]. by rewrite IH.
Qed.

Lemma sharedRun_app (inv : Invocation) (a b : list turn) :
  sharedRun' inv (a ++ b) = sharedRun' (sharedRun' inv a) b.
Proof. apply foldl_app. Qed.

Lemma sharedRun_returned (inv : Invocation) (turns : list turn) :
  returned (sharedRun' inv turns) = returned (run' inv (ownTicks turns)).
Proof.
  rewrite <- (withReporter_reporter inv) at 1. by rewrite sharedRun_withReporter.
Qed.

Lemma ownRequests_awaiting (inv : Invocation) (turns : list turn) :
  returned (sharedRun' inv turns) = Pending → ownRequests E o startTime inv turns = [].
Proof.
  revert inv. induction turns as [| [t | c] turns IH]; intros inv Hr; [done | |].
  - cbn [ownRequests sharedStep]. cbn [sharedRun foldl sharedStep] in Hr.
    fold (sharedRun' (step' inv t) turns) in Hr.
    rewrite IH by done. rewrite app_nil_r.
    unfold dispatched. rewrite step_reporter, ownCall_awaiting; [by rewrite drop_all |].
    destruct (pending_or_settled (returned (step' inv t))) as [Hp | Hnp]; [done |].
    rewrite sharedRun_returned, run_returned_stable in Hr by done. done.
  - cbn [ownRequests sharedStep]. cbn [sharedRun foldl sharedStep] in Hr.
    by rewrite IH.
Qed.

Lemma ownRequests_app (inv : Invocation) (a b : list turn) :
  ownRequests E o startTime inv (a ++ b)
  = (ownRequests E o startTime inv a
     ++ ownRequests E o startTime (sharedRun' inv a) b)%list.
Proof.
  revert inv. induction a as [| u a IH]; intros inv; [done |].
  cbn [app ownRequests]. rewrite IH, <- app_assoc. done.
Qed.

(** Over any turns, either the call has not returned, the reporter has seen
    the started call and the calls of others, and the invocation has
    dispatched what the started call adds; or the call returned at a
    [Resumes], and the reporter has seen the started call, the calls of
    others until then, the terminal call, and the calls of others since. *)
Lemma shared_lifecycle (turns : list turn) :
  (returned (shared turns) = Pending
   ∧ reporter (shared turns)
     = sendEvents E (startedCall o nowStarted ++ otherCalls turns) r
   ∧ sharedDispatched E o startTime nowStarted r turns
     = issued E r (startedCall o nowStarted))
  ∨ (∃ pre nowDuration nowSend post,
       turns = (pre ++ Own (Resumes nowDuration nowSend) :: post)%list
       ∧ returned (shared pre) = Pending
       ∧ race (shared pre) ≠ Pending
       ∧ returned (shared turns) = race (shared pre)
       ∧ reporter (shared turns)
         = sendEvents E
             (startedCall o nowStarted
              ++ otherCalls pre
              ++ terminalCall o startTime nowDuration nowSend
                   (contextProperties (ownTicks pre)) (returned (shared turns))
              ++ otherCalls post) r
       ∧ sharedDispatched E o startTime nowStarted r turns
         = (issued E r (startedCall o nowStarted)
            ++ issued E (sendEvents E (startedCall o nowStarted ++ otherCalls pre) r)
                 (terminalCall o startTime nowDuration nowSend
                    (contextProperties (ownTicks pre)) (returned (shared turns))))%list).
Proof.
  unfold sharedDispatched.
  rewrite (dispatched_calls E r _ _ (enter_call E o nowStarted r)).
  destruct (shared_calls turns)
    as [(Hp & Hcalls) | (pre & tD & tS & post & -> & Hpre & Hne & Hret & Hcalls)].
  - left. split; [done |]. split; [done |].
    rewrite ownRequests_awaiting by done. by rewrite app_nil_r.
  - right. exists pre, tD, tS, post.
    split; [done |]. split; [done |]. split; [done |]. split; [done |].
    split; [done |].
    f_equal. rewrite ownRequests_app, ownRequests_awaiting by done.
    cbn [app ownRequests sharedStep].
    fold (shared pre).
    assert (Hstep : returned (step' (shared pre) (Resumes tD tS)) = race (shared pre)).
    { by destruct (resume_settled E o startTime (shared pre) tD tS Hpre Hne). }
    rewrite ownRequests_returned by (by rewrite Hstep).
    rewrite app_nil_r. unfold dispatched.
    rewrite step_reporter. cbn [ownCall]. rewrite Hpre.
    rewrite sendEvents_events, drop_app_length.
    destruct (shared_calls pre)
      as [(_ & Hrep) | (pre0 & tD0 & tS0 & post0 & _ & _ & Hne0 & Hret0 & _)];
      [| congruence].
    rewrite Hrep, Hret. f_equal.
    rewrite shared_collect. simpl.
    destruct (lifecycle E o startTime nowStarted r (ownTicks pre)) as [Hap _].
    rewrite Hap. done.
Qed.

Lemma advanced_advanced (r' : Reporter) (n m : nat) (l l' : list Request) :
  advanced (advanced r' n l) m l' = advanced r' (n + m) (l ++ l').
Proof. unfold advanced. simpl. f_equal; [lia | by rewrite app_assoc]. Qed.

Lemma issued_advanced (r' : Reporter) (n : nat) (l : list Request)
    (calls : list SendCall) :
  issued E (advanced r' n l) calls = issued E (advanced r' n []) calls.
Proof.
  unfold issued. rewrite !dispatches_advanced.
  destruct (dispatches E r'); [| done].
  apply imap_ext. intros k c _. simpl. by rewrite !eventPayload_advanced.
Qed.

Lemma issued_app (r' : Reporter) (a b : list SendCall) :
  issued E r' (a ++ b) = (issued E r' a ++ issued E (advanced r' (length a) []) b)%list.
Proof.
  unfold issued. rewrite dispatches_advanced.
  destruct (dispatches E r'); [| done].
  rewrite imap_app. f_equal.
  apply imap_ext. intros k c _. simpl. rewrite eventPayload_advanced.
  do 2 f_equal. lia.
Qed.

Lemma issued_sendEvents (r' : Reporter) (calls cs : list SendCall) :
  dispatches E r' = true →
  issued E (sendEvents E calls r') cs = issued E (advanced r' (length calls) []) cs.
Proof. intros Hopen. by rewrite sendEvents_issued, Hopen, issued_advanced. Qed.

Lemma terminalCall_settled (nowDuration nowSend : Z) (ap : gmap string val)
    (outcome : promise val) :
  telemetryOn o = true →
  outcome ≠ Pending →
  terminalCall o startTime nowDuration nowSend ap outcome
  = [{| call_now := nowSend;
        call_name := eventPrefix o ++ " " ++ terminalPhase outcome;
        call_properties :=
          terminalProperties o ap (getDuration nowDuration startTime) outcome |}].
Proof. intros Hon Hne. unfold terminalCall. rewrite Hon. by destruct outcome. Qed.

Lemma shared_cancelDeferred (turns : list turn) :
  cancelDeferred (shared turns) = cancelDeferred (collect (ownTicks turns)).
Proof. by rewrite shared_collect. Qed.

Lemma shared_timers (turns : list turn) :
  timers (shared turns) = timers (collect (ownTicks turns)).
Proof. by rewrite shared_collect. Qed.

(** C1 (amended). On a reporter whose guard is open (the permission is
    enabled and the build has a source key), for an invocation with
    telemetry not disabled that has returned, whatever other code has
    dispatched on the reporter meanwhile: among the turns there is a
    [Resumes] at which the race had settled and the call returned; until
    then the invocation had dispatched the started event and nothing
    else, and from then on it has dispatched exactly two requests, first
    the started event, then one terminal event (completed, errored or
    cancelled).  The terminal event's [durationMs] is the reading of the
    clock at that [Resumes] minus [startTime]; it is not negative if no
    reading of the clock over the turns is earlier than [startTime]. *)
Theorem started_then_terminal (turns : list turn) :
  telemetryOn o = true →
  dispatches E r = true →
  returned (shared turns) ≠ Pending →
  ∃ (pre : list turn) (nowDuration nowSend : Z) (post : list turn)
    (started terminal : Request),
    turns = (pre ++ Own (Resumes nowDuration nowSend) :: post)%list
    ∧ returned (shared pre) = Pending
    ∧ race (shared pre) ≠ Pending
    ∧ sharedDispatched E o startTime nowStarted r pre = [started]
    ∧ sharedDispatched E o startTime nowStarted r turns = [started; terminal]
    ∧ Sparrow.event (payload started) = "test " ++ eventPrefix o ++ " started"
    ∧ (Sparrow.event (payload terminal) = "test " ++ eventPrefix o ++ " completed"
       ∨ Sparrow.event (payload terminal) = "test " ++ eventPrefix o ++ " errored"
       ∨ Sparrow.event (payload terminal) = "test " ++ eventPrefix o ++ " cancelled")
    ∧ Sparrow.properties (payload terminal) !! "durationMs"
      = Some (VNum (NInt (nowDuration - startTime)))
    ∧ (clockNotSetBack startTime (ownTicks turns) = true →
       (0 ≤ nowDuration - startTime)%Z).
Proof.
  intros Hon Hopen Hreturned.
  destruct (shared_lifecycle turns)
    as [(Hp & _) | (pre & tD & tS & post & -> & Hpre & Hne & Hret & _ & Hd)]; [done |].
  assert (Hstarted : sharedDispatched E o startTime nowStarted r pre
                     = [{| payload := eventPayload E r (amplitude_event_id r) nowStarted
                                        (eventPrefix o ++ " started") (props o);
                           sent := Pending |}]).
  { destruct (shared_lifecycle pre)
      as [(_ & _ & Hd0) | (pre0 & tD0 & tS0 & post0 & _ & _ & Hne0 & Hret0 & _)];
      [| congruence].
    rewrite Hd0. unfold issued, startedCall. rewrite Hopen, Hon. simpl.
    by rewrite Z.add_0_r. }
  rewrite terminalCall_settled in Hd by done.
  rewrite issued_sendEvents in Hd by done.
  unfold issued, startedCall in Hd. rewrite dispatches_advanced, Hopen, Hon in Hd.
  simpl in Hd. rewrite Z.add_0_r in Hd.
  exists pre, tD, tS, post. eexists _, _.
  split; [done |]. split; [done |]. split; [done |].
  split; [exact Hstarted |]. split; [exact Hd |].
  simpl. split; [done |]. split.
  { destruct (terminalPhase_settled (returned (shared (pre ++ Own (Resumes tD tS) :: post)))
                Hreturned) as [-> | [-> | ->]]; auto. }
  split; [by rewrite spread_lookup, terminalProperties_durationMs |].
  intros Hclock. rewrite ownTicks_app in Hclock.
  change (ownTicks (Own (Resumes tD tS) :: post)) with (Resumes tD tS :: ownTicks post)
    in Hclock.
  apply clockNotSetBack_resume in Hclock. lia.
Qed.

(** C2 (amended). Over any turns the promise of [cancelDeferred] changes
    state at most once, and exactly once as soon as [cancel] has called its
    [reject], however often it calls it: when two or more signals have
    been handled and no timer is left, [reject] was called once per signal
    and the promise was rejected once, with the [CancelError] of a signal.
    Once the race is lost to that rejection it stays so whatever happens
    later, and the next [Resumes] rejects the call with that
    [CancelError]: no later result or error of the operation is returned.
    As long as the call has not returned, the invocation has made the
    started call of [sendEvent] and no other; once it has returned it has
    made, after the started call and whatever others have called
    meanwhile, the one call for the cancelled event, with the properties
    and the duration of the [Resumes] at which it returned, and no call
    for a completed or an errored event.  With [disableTelemetry] set it
    makes no call at all, and a call of [sendEvent] on a reporter whose
    guard is closed dispatches nothing: then the cancellation leaves no
    cancelled event. *)
Theorem cancellation_settles_once (turns : list turn) :
  (cancelRejections E o startTime (enter E o nowStarted r) (ownTicks turns) ≤ 1)%nat
  ∧ ((1 ≤ rejectCalls E o startTime (enter E o nowStarted r) (ownTicks turns))%nat →
     cancelRejections E o startTime (enter E o nowStarted r) (ownTicks turns) = 1%nat)
  ∧ ((2 ≤ signalsHandled E o startTime (enter E o nowStarted r) (ownTicks turns))%nat →
     timers (shared turns) = [] →
     rejectCalls E o startTime (enter E o nowStarted r) (ownTicks turns)
     = signalsHandled E o startTime (enter E o nowStarted r) (ownTicks turns)
     ∧ cancelRejections E o startTime (enter E o nowStarted r) (ownTicks turns) = 1%nat)
  ∧ (cancelDeferred (shared turns) = Pending
     ∨ ∃ signal, cancelDeferred (shared turns) = Rejected (newCancelError E (Some signal)))
  ∧ ∀ (e : thrown) (later : list turn),
      race (shared turns) = Rejected e →
      cancelDeferred (shared turns) = Rejected e →
      race (shared (turns ++ later)) = Rejected e
      ∧ (∀ nowDuration nowSend,
           returned (shared ((turns ++ later) ++ [Own (Resumes nowDuration nowSend)]))
           = Rejected e)
      ∧ ((returned (shared (turns ++ later)) = Pending
          ∧ sharedDispatched E o startTime nowStarted r (turns ++ later)
            = issued E r (startedCall o nowStarted))
         ∨ ∃ (pre : list turn) (nowDuration nowSend : Z) (post : list turn),
             (turns ++ later)%list
             = (pre ++ Own (Resumes nowDuration nowSend) :: post)%list
             ∧ returned (shared pre) = Pending
             ∧ returned (shared (turns ++ later)) = Rejected e
             ∧ sharedDispatched E o startTime nowStarted r (turns ++ later)
               = (issued E r (startedCall o nowStarted)
                  ++ issued E (sendEvents E (startedCall o nowStarted ++ otherCalls pre) r)
                       (if telemetryOn o
                        then [{| call_now := nowSend;
                                 call_name := eventPrefix o ++ " cancelled";
                                 call_properties :=
                                   lifecycleProperties o (contextProperties (ownTicks pre))
                                     (getDuration nowDuration startTime) |}]
                        else []))%list).
Proof.
  split; [apply (cancelRejections_bound E o startTime (enter E o nowStarted r)) |].
  split; [by apply cancelRejections_once |].
  split.
  { intros Hsignals Htimers. rewrite shared_timers in Htimers.
    pose proof (signals_accounted E o startTime (enter E o nowStarted r) (ownTicks turns))
      as Hacc.
    fold (collect (ownTicks turns)) in Hacc. rewrite Htimers in Hacc. simpl in Hacc.
    split; [lia |]. apply cancelRejections_once; [done | lia]. }
  split; [rewrite shared_cancelDeferred; apply collect_promisesConsistent |].
  intros e later Hrace Hcd.
  rewrite shared_race in Hrace. rewrite shared_cancelDeferred in Hcd.
  pose proof (cancelDeferred_rejected E o startTime nowStarted r _ e Hcd) as Hcancel.
  assert (Hrace' : race (shared (turns ++ later)) = Rejected e).
  { rewrite shared_race, ownTicks_app, collect_app, run_race_stable; [done |].
    by rewrite Hrace. }
  split; [done |].
  split.
  { intros tD tS. rewrite shared_returned, ownTicks_app.
    change (ownTicks [Own (Resumes tD tS)]) with [Resumes tD tS].
    rewrite resume_returns; rewrite <- shared_race; [done | by rewrite Hrace']. }
  destruct (shared_lifecycle (turns ++ later))
    as [(Hp & _ & Hd) | (pre & tD & tS & post & Htr & Hpre & Hne & Hret & _ & Hd)].
  - left. by split.
  - right. exists pre, tD, tS, post.
    assert (Hreturned : returned (shared (turns ++ later)) = Rejected e).
    { rewrite Hret, <- Hrace'. rewrite Htr, !shared_race.
      rewrite ownTicks_app.
      change (ownTicks (Own (Resumes tD tS) :: post)) with (Resumes tD tS :: ownTicks post).
      rewrite collect_app. symmetry. apply run_race_stable.
      by rewrite <- shared_race. }
    split; [done |]. split; [done |]. split; [done |].
    rewrite Hd, Hreturned.
    unfold terminalCall, terminalProperties, terminalPhase. rewrite Hcancel.
    by destruct (telemetryOn o).
Qed.

(** C5 (amended). Every request an invocation has dispatched itself that
    is not its started event is the terminal event, built at the [Resumes]
    at which the call returned, after the turns [pre].  Its properties,
    key by key: [error] of an errored event is the descriptor of what was
    thrown, whatever the starting properties or the properties set
    through [setEventProperty] say; the three duration keys are the
    computed ones, whatever those say; any other key reads the property
    the operation has set through [setEventProperty] over [pre] if there
    is one, else the starting property if there is one, else the
    reporter's own, with the counter as the invocation's started call and
    the calls of others over [pre] have left it. *)
Theorem terminal_properties_merge (turns : list turn) (terminal : Request) :
  terminal ∈ sharedDispatched E o startTime nowStarted r turns →
  Sparrow.event (payload terminal) ≠ "test " ++ eventPrefix o ++ " started" →
  ∃ (pre : list turn) (nowDuration nowSend : Z) (post : list turn),
    turns = (pre ++ Own (Resumes nowDuration nowSend) :: post)%list
    ∧ returned (shared pre) = Pending
    ∧ returned (shared turns) ≠ Pending
    ∧ Sparrow.event (payload terminal)
      = "test " ++ eventPrefix o ++ " " ++ terminalPhase (returned (shared turns))
    ∧ ∀ key : string,
        Sparrow.properties (payload terminal) !! key
        = if decide (key = "error" ∧ terminalPhase (returned (shared turns)) = "errored")
          then match returned (shared turns) with
               | Rejected e => Some (errorDescriptor e)
               | _ => None
               end
          else if decide (key = "durationMinutes")
          then Some (VNum (NDiv (NDiv (NInt (nowDuration - startTime)) 1000) 60))
          else if decide (key = "durationSeconds")
          then Some (VNum (NDiv (NInt (nowDuration - startTime)) 1000))
          else if decide (key = "durationMs")
          then Some (VNum (NInt (nowDuration - startTime)))
          else match contextProperties (ownTicks pre) !! key with
               | Some v => Some v
               | None =>
                   match props o !! key with
                   | Some v => Some v
                   | None =>
                       reporterProperties E r
                         (amplitude_event_id r + 1 + Z.of_nat (length (otherCalls pre)))
                       !! key
                   end
               end.
Proof.
  intros Hin Hname.
  assert (Hstarted : ∀ rq, rq ∈ issued E r (startedCall o nowStarted) →
                           Sparrow.event (payload rq)
                           = "test " ++ eventPrefix o ++ " started").
  { intros rq Hrq. apply list_elem_of_lookup in Hrq as [k Hk].
    apply issued_lookup in Hk as (_ & c & Hc & ->).
    unfold startedCall in Hc. destruct (telemetryOn o); [| by rewrite lookup_nil in Hc].
    destruct k; simpl in Hc; [| by rewrite lookup_nil in Hc].
    by injection Hc as <-. }
  destruct (shared_lifecycle turns)
    as [(_ & _ & Hd) | (pre & tD & tS & post & -> & Hpre & Hne & Hret & _ & Hd)].
  { rewrite Hd in Hin. by apply Hstarted in Hin. }
  rewrite Hd in Hin. apply elem_of_app in Hin as [Hin | Hin]; [by apply Hstarted in Hin |].
  apply list_elem_of_lookup in Hin as [k Hk].
  apply issued_lookup in Hk as (Hopen' & c & Hc & ->).
  assert (Hopen : dispatches E r = true).
  { rewrite sendEvents_issued in Hopen'.
    destruct (dispatches E r) eqn:Hguard; [done | congruence]. }
  assert (Hsettled : returned (shared (pre ++ Own (Resumes tD tS) :: post)) ≠ Pending)
    by (by rewrite Hret).
  destruct (telemetryOn o) eqn:Hon;
    [| unfold terminalCall in Hc; rewrite Hon in Hc; simpl in Hc;
       by rewrite lookup_nil in Hc].
  rewrite terminalCall_settled in Hc by done.
  destruct k; simpl in Hc; [| by rewrite lookup_nil in Hc].
  injection Hc as <-.
  exists pre, tD, tS, post.
  split; [done |]. split; [done |]. split; [done |]. split; [done |].
  intros key. cbn [payload call_properties call_name call_now].
  rewrite sendEvents_issued, Hopen, eventPayload_advanced.
  cbn [eventPayload Sparrow.properties advanced amplitude_event_id].
  rewrite spread_lookup, terminalProperties_lookup, lifecycleProperties_lookup.
  unfold startedCall. rewrite Hon, length_app. cbn [length getDuration minutes seconds ms].
  replace (amplitude_event_id r + Z.of_nat (1 + length (otherCalls pre)) + Z.of_nat 0)%Z
    with (amplitude_event_id r + 1 + Z.of_nat (length (otherCalls pre)))%Z by lia.
  destruct (decide (key = "error" ∧ _)) as [[-> Hphase] | _].
  { destruct (returned (shared (pre ++ Own (Resumes tD tS) :: post))) as [| v | e].
    - done.
    - done.
    - done. }
  destruct (decide (key = "durationMinutes")); [done |].
  destruct (decide (key = "durationSeconds")); [done |].
  destruct (decide (key = "durationMs")); [done |].
  destruct (contextProperties (ownTicks pre) !! key); [done |].
  by destruct (props o !! key).
Qed.

End Shared.

(** ** The properties on the session of [Scenario] *)

Import Scenario.

Example fresh_reporter_dispatches : dispatches released fresh = true.
Proof. reflexivity. Qed.

Example unbuilt_never_dispatches (r : Reporter) : dispatches unbuilt r = false.
Proof. unfold dispatches. simpl. by rewrite orb_true_r. Qed.

(** A login that succeeds: started, then completed, 1500 ms later. *)
Lemma started_then_terminal_login :
  ∃ (pre : list turn) (nowDuration nowSend : Z) (post : list turn)
    (started terminal : Request),
    loginAmongOthers = (pre ++ Own (Resumes nowDuration nowSend) :: post)%list
    ∧ returned (collectShared released login 1700000000000 1700000000001 fresh pre)
      = Pending
    ∧ race (collectShared released login 1700000000000 1700000000001 fresh pre)
      ≠ Pending
    ∧ sharedDispatched released login 1700000000000 1700000000001 fresh pre = [started]
    ∧ sharedDispatched released login 1700000000000 1700000000001 fresh loginAmongOthers
      = [started; terminal]
    ∧ Sparrow.event (payload started) = "test " ++ eventPrefix login ++ " started"
    ∧ (Sparrow.event (payload terminal) = "test " ++ eventPrefix login ++ " completed"
       ∨ Sparrow.event (payload terminal) = "test " ++ eventPrefix login ++ " errored"
       ∨ Sparrow.event (payload terminal) = "test " ++ eventPrefix login ++ " cancelled")
    ∧ Sparrow.properties (payload terminal) !! "durationMs"
      = Some (VNum (NInt (nowDuration - 1700000000000)))
    ∧ (clockNotSetBack 1700000000000 (ownTicks loginAmongOthers) = true →
       (0 ≤ nowDuration - 1700000000000)%Z).
Proof.
  apply (started_then_terminal released login 1700000000000 1700000000001 fresh
           loginAmongOthers);
    [reflexivity | reflexivity | vm_compute; discriminate].
Defined.

(** C1 as stated fails on the code: with [disableTelemetry] not set and an
    operation that resolves, nothing is dispatched when the build has no
    source key, and nothing when the user has disabled telemetry; and with
    an open guard the duration is negative when the clock was set back
    between the two readings. *)
Lemma telemetry_on_nothing_dispatched :
  disableTelemetry login = None
  ∧ returned
      (collectAsyncMetrics unbuilt login 1700000000000 1700000000001 fresh loginSucceeds)
    = Fulfilled (VNum (NInt 42))
  ∧ dispatched fresh
      (collectAsyncMetrics unbuilt login 1700000000000 1700000000001 fresh loginSucceeds)
    = []
  ∧ returned
      (collectAsyncMetrics released login 1700000000000 1700000000001 optedOut loginSucceeds)
    = Fulfilled (VNum (NInt 42))
  ∧ dispatched optedOut
      (collectAsyncMetrics released login 1700000000000 1700000000001 optedOut loginSucceeds)
    = []
  ∧ ∃ started terminal : Request,
      dispatched fresh
        (collectAsyncMetrics released login 1700000002000 1700000002001 fresh loginSucceeds)
      = [started; terminal]
      ∧ Sparrow.properties (payload terminal) !! "durationMs"
        = Some (VNum (NInt (-500))).
Proof.
  split; [reflexivity |]. split; [reflexivity |]. split; [reflexivity |].
  split; [reflexivity |]. split; [reflexivity |].
  eexists _, _. split; reflexivity.
Qed.





Example disabled_boom_loginThrows :
  returned (collectAsyncMetrics released silentLogin 1700000000000 1700000000001 fresh
              loginThrows) = Rejected boom
  ∧ events (reporter (collectAsyncMetrics released silentLogin 1700000000000 1700000000001
                        fresh loginThrows)) = [].
Proof. split; reflexivity. Qed.

(** The completed event of the login carries the starting property, the
    property the operation set, and the computed duration. *)
Lemma terminal_properties_merge_login :
  ∃ (pre : list turn) (nowDuration nowSend : Z) (post : list turn),
    loginAmongOthers = (pre ++ Own (Resumes nowDuration nowSend) :: post)%list
    ∧ returned (collectShared released login 1700000000000 1700000000001 fresh pre)
      = Pending
    ∧ returned (collectShared released login 1700000000000 1700000000001 fresh
                  loginAmongOthers) ≠ Pending
    ∧ Sparrow.event (payload loginCompletedAmongOthers)
      = "test " ++ eventPrefix login ++ " "
        ++ terminalPhase
             (returned (collectShared released login 1700000000000 1700000000001 fresh
                          loginAmongOthers))
    ∧ ∀ key : string,
        Sparrow.properties (payload loginCompletedAmongOthers) !! key
        = if decide (key = "error"
                     ∧ terminalPhase
                         (returned (collectShared released login 1700000000000
                                      1700000000001 fresh loginAmongOthers))
                       = "errored")
          then match returned (collectShared released login 1700000000000 1700000000001
                                 fresh loginAmongOthers) with
               | Rejected e => Some (errorDescriptor e)
               | _ => None
               end
          else if decide (key = "durationMinutes")
          then Some (VNum (NDiv (NDiv (NInt (nowDuration - 1700000000000)) 1000) 60))
          else if decide (key = "durationSeconds")
          then Some (VNum (NDiv (NInt (nowDuration - 1700000000000)) 1000))
          else if decide (key = "durationMs")
          then Some (VNum (NInt (nowDuration - 1700000000000)))
          else match contextProperties (ownTicks pre) !! key with
               | Some v => Some v
               | None =>
                   match props login !! key with
                   | Some v => Some v
                   | None =>
                       reporterProperties released fresh
                         (amplitude_event_id fresh + 1 + Z.of_nat (length (otherCalls pre)))
                       !! key
                   end
               end.
Proof.
  apply (terminal_properties_merge released login 1700000000000 1700000000001 fresh
           loginAmongOthers loginCompletedAmongOthers).
  - apply list_elem_of_lookup. exists 1%nat. reflexivity.
  - vm_compute. discriminate.
Defined.

(** C5 as stated fails on the code: the starting properties and the
    properties set through [setEventProperty] both name [error], and the
    errored event carries neither value but the descriptor of what was
    thrown, written after the duration fields. *)
Lemma errored_event_error_not_from_context :
  ∃ started terminal : Request,
    sharedDispatched released loginWithError 1700000000000 1700000000001 fresh
      loginSetsErrorThenThrows
    = [started; terminal]
    ∧ Sparrow.event (payload terminal) = "test c3 login errored"
    ∧ props loginWithError !! "error" = Some (VStr "from the starting properties")
    ∧ contextProperties (ownTicks loginSetsErrorThenThrows) !! "error"
      = Some (VStr "from setEventProperty")
    ∧ Sparrow.properties (payload terminal) !! "error"
      = Some (VObj [("message", VStr "boom"); ("stack", VStr "Error: boom")]).
Proof. eexists _, _. repeat split; reflexivity. Qed.

Example login_completed_properties :
  ∃ started completed : Request,
    dispatched fresh
      (collectAsyncMetrics released login 1700000000000 1700000000001 fresh loginSucceeds)
    = [started; completed]
    ∧ Sparrow.event (payload completed) = "test c3 login completed"
    ∧ Sparrow.properties (payload completed) !! "alreadyLoggedIn" = Some (VBool false)
    ∧ Sparrow.properties (payload completed) !! "newLoginSuccessful" = Some (VBool true)
    ∧ Sparrow.properties (payload completed) !! "durationMs" = Some (VNum (NInt 1500))
    ∧ eventId started = Some (VNum (NInt 0))
    ∧ eventId completed = Some (VNum (NInt 1))
    ∧ returned
        (collectAsyncMetrics released login 1700000000000 1700000000001 fresh loginSucceeds)
      = Fulfilled (VNum (NInt 42)).
Proof. eexists _, _. repeat split; reflexivity. Qed.

(** A property set through [setEventProperty] wins over a starting
    property, the computed duration wins over both. *)
Example context_overrides_starting_duration_overrides_context :
  ∃ started completed : Request,
    dispatched fresh
      (collectAsyncMetrics released
         {| eventPrefix := "c3 login";
            props := {[ "alreadyLoggedIn" := VBool false; "durationMs" := VStr "mine" ]};
            disableTelemetry := None |}
         1700000000000 1700000000001 fresh
         [OpSetEventProperty "alreadyLoggedIn" (VBool true);
          OpSetEventProperty "durationMs" (VNum (NInt 7));
          OpResolves VUndefined;
          Resumes 1700000000900 1700000000901])
    = [started; completed]
    ∧ Sparrow.properties (payload completed) !! "alreadyLoggedIn" = Some (VBool true)
    ∧ Sparrow.properties (payload completed) !! "durationMs" = Some (VNum (NInt 900)).
Proof. eexists _, _. repeat split; reflexivity. Qed.

(** Two interrupts, both timers fire, then a late result. *)
Lemma cancellation_settles_once_login :
  (rejectCalls released login 1700000000000
     (enter released login 1700000000001 fresh) (ownTicks loginInterruptedAmongOthers)
   = signalsHandled released login 1700000000000
       (enter released login 1700000000001 fresh) (ownTicks loginInterruptedAmongOthers)
   ∧ cancelRejections released login 1700000000000
       (enter released login 1700000000001 fresh) (ownTicks loginInterruptedAmongOthers)
     = 1%nat)
  ∧ race (collectShared released login 1700000000000 1700000000001 fresh
            (loginInterruptedAmongOthers ++ lateResultAmongOthers))
    = Rejected (newCancelError released (Some SIGINT))
  ∧ (∀ nowDuration nowSend,
       returned
         (collectShared released login 1700000000000 1700000000001 fresh
            ((loginInterruptedAmongOthers ++ lateResultAmongOthers)
             ++ [Own (Resumes nowDuration nowSend)]))
       = Rejected (newCancelError released (Some SIGINT)))
  ∧ ((returned (collectShared released login 1700000000000 1700000000001 fresh
                  (loginInterruptedAmongOthers ++ lateResultAmongOthers)) = Pending
      ∧ sharedDispatched released login 1700000000000 1700000000001 fresh
          (loginInterruptedAmongOthers ++ lateResultAmongOthers)
        = issued released fresh (startedCall login 1700000000001))
     ∨ ∃ (pre : list turn) (nowDuration nowSend : Z) (post : list turn),
         (loginInterruptedAmongOthers ++ lateResultAmongOthers)%list
         = (pre ++ Own (Resumes nowDuration nowSend) :: post)%list
         ∧ returned (collectShared released login 1700000000000 1700000000001 fresh pre)
           = Pending
         ∧ returned (collectShared released login 1700000000000 1700000000001 fresh
                       (loginInterruptedAmongOthers ++ lateResultAmongOthers))
           = Rejected (newCancelError released (Some SIGINT))
         ∧ sharedDispatched released login 1700000000000 1700000000001 fresh
             (loginInterruptedAmongOthers ++ lateResultAmongOthers)
           = (issued released fresh (startedCall login 1700000000001)
              ++ issued released
                   (sendEvents released (startedCall login 1700000000001 ++ otherCalls pre)
                      fresh)
                   (if telemetryOn login
                    then [{| call_now := nowSend;
                             call_name := eventPrefix login ++ " cancelled";
                             call_properties :=
                               lifecycleProperties login (contextProperties (ownTicks pre))
                                 (getDuration nowDuration 1700000000000) |}]
                    else []))%list).
Proof.
  destruct (cancellation_settles_once released login 1700000000000 1700000000001 fresh
              loginInterruptedAmongOthers) as (_ & _ & Htwo & _ & Hlate).
  split.
  - apply Htwo; [vm_compute; lia | reflexivity].
  - apply (Hlate (newCancelError released (Some SIGINT)) lateResultAmongOthers);
      reflexivity.
Defined.

(** The events of the interrupted login and the counter values they carry:
    the event of the prompt took the value in between. *)
Example two_interrupts_among_others :
  (Sparrow.event ∘ payload)
    <$> sharedDispatched released login 1700000000000 1700000000001 fresh
          (loginInterruptedAmongOthers ++ lateResultAmongOthers)
  = ["test c3 login started"; "test c3 login cancelled"]
  ∧ eventId
      <$> sharedDispatched released login 1700000000000 1700000000001 fresh
            (loginInterruptedAmongOthers ++ lateResultAmongOthers)
    = [Some (VNum (NInt 0)); Some (VNum (NInt 2))].
Proof. split; reflexivity. Qed.

(** C2 as stated fails on the code.  An invocation with
    [disableTelemetry] set, and one on a build without a source key, both
    interrupted twice: the promise of [cancelDeferred] is rejected once
    and the call is rejected with the [CancelError], also after the
    operation has resolved, but no cancelled event is dispatched. *)
Lemma cancelled_without_cancelled_event :
  signalsHandled released silentLogin 1700000000000
    (enter released silentLogin 1700000000001 fresh) (loginInterrupted ++ lateResult)
  = 2%nat
  ∧ cancelRejections released silentLogin 1700000000000
      (enter released silentLogin 1700000000001 fresh) (loginInterrupted ++ lateResult)
    = 1%nat
  ∧ returned
      (collectAsyncMetrics released silentLogin 1700000000000 1700000000001 fresh
         (loginInterrupted ++ lateResult))
    = Rejected (newCancelError released (Some SIGINT))
  ∧ dispatched fresh
      (collectAsyncMetrics released silentLogin 1700000000000 1700000000001 fresh
         (loginInterrupted ++ lateResult))
    = []
  ∧ disableTelemetry login = None
  ∧ cancelRejections unbuilt login 1700000000000
      (enter unbuilt login 1700000000001 fresh) (loginInterrupted ++ lateResult)
    = 1%nat
  ∧ returned
      (collectAsyncMetrics unbuilt login 1700000000000 1700000000001 fresh
         (loginInterrupted ++ lateResult))
    = Rejected (newCancelError unbuilt (Some SIGINT))
  ∧ dispatched fresh
      (collectAsyncMetrics unbuilt login 1700000000000 1700000000001 fresh
         (loginInterrupted ++ lateResult))
    = [].
Proof. repeat split; reflexivity. Qed.

Example two_interrupts_one_rejection :
  signalsHandled released login 1700000000000
    (enter released login 1700000000001 fresh) loginInterrupted = 2%nat
  ∧ rejectCalls released login 1700000000000
      (enter released login 1700000000001 fresh) loginInterrupted = 2%nat
  ∧ cancelRejections released login 1700000000000
      (enter released login 1700000000001 fresh) loginInterrupted = 1%nat
  ∧ (Sparrow.event ∘ payload)
      <$> dispatched fresh
            (collectAsyncMetrics released login 1700000000000 1700000000001 fresh
               (loginInterrupted ++ lateResult))
    = ["test c3 login started"; "test c3 login cancelled"].
Proof. repeat split; reflexivity. Qed.

(** A stored permission that is already enabled. *)
Lemma updateC3Pemission_same_state_enabled :
  updateC3Pemission 1700000005000 true
    {| stored := {| c3permission := Some {| enabled := true; date := 1690000000000 |};
                    MetricsConfig.deviceId := Some "device-1" |};
       written := [] |}
  = {| stored := {| c3permission := Some {| enabled := true; date := 1690000000000 |};
                    MetricsConfig.deviceId := Some "device-1" |};
       written := [] |}
  ∧ written
      (updateC3Pemission 1700000005000 true
         {| stored := {| c3permission := Some {| enabled := true; date := 1690000000000 |};
                         MetricsConfig.deviceId := Some "device-1" |};
            written := [] |}) = []
  ∧ c3permission
      (stored
         (updateC3Pemission 1700000005000 true
            {| stored := {| c3permission := Some {| enabled := true; date := 1690000000000 |};
                            MetricsConfig.deviceId := Some "device-1" |};
               written := [] |}))
    = Some {| enabled := true; date := 1690000000000 |}
  ∧ fst (runTelemetryCommand 1700000005000 enable
           {| stored := {| c3permission := Some {| enabled := true; date := 1690000000000 |};
                           MetricsConfig.deviceId := Some "device-1" |};
              written := [] |})
    = {| stored := {| c3permission := Some {| enabled := true; date := 1690000000000 |};
                      MetricsConfig.deviceId := Some "device-1" |};
         written := [] |}.
Proof.
  apply (updateC3Pemission_same_state 1700000005000 true
           {| stored := {| c3permission := Some {| enabled := true; date := 1690000000000 |};
                           MetricsConfig.deviceId := Some "device-1" |};
              written := [] |}
           {| enabled := true; date := 1690000000000 |});
    reflexivity.
Defined.

(** A change of state does write, with a new date. *)
Example updateC3Pemission_changes_state :
  updateC3Pemission 1700000005000 false
    {| stored := {| c3permission := Some {| enabled := true; date := 1690000000000 |};
                    MetricsConfig.deviceId := Some "device-1" |};
       written := [] |}
  = {| stored := {| c3permission := Some {| enabled := false; date := 1700000005000 |};
                    MetricsConfig.deviceId := Some "device-1" |};
       written := [{| c3permission := Some {| enabled := false; date := 1700000005000 |};
                      MetricsConfig.deviceId := Some "device-1" |}] |}.
Proof. reflexivity. Qed.

(** Outside an invocation: silent in a release, an error under the test
    runner. *)
Lemma setEventProperty_outside_release_and_vitest :
  setEventProperty released None "framework" (VStr "astro") = inr None
  ∧ ∃ e, setEventProperty underVitest None "framework" (VStr "astro") = inl e
         ∧ instanceof_Error e = true
         ∧ message e
           = VStr "`setEventProperty` must be called within `collectAsyncMetrics`".
Proof.
  destruct (setEventProperty_outside released "framework" (VStr "astro")) as [Hquiet _].
  destruct (setEventProperty_outside underVitest "framework" (VStr "astro")) as [_ Hstrict].
  split; [apply Hquiet | apply Hstrict]; reflexivity.
Defined.

(** Three events in a row take the counter values 0, 1 and 2. *)
Example three_events_three_ids :
  eventId
    <$> events
          (sendEvents released
             [{| call_now := 1; call_name := "c3 session started"; call_properties := ∅ |};
              {| call_now := 2; call_name := "c3 prompt started"; call_properties := ∅ |};
              {| call_now := 3; call_name := "c3 prompt completed"; call_properties := ∅ |}]
             fresh)
  = [Some (VNum (NInt 0)); Some (VNum (NInt 1)); Some (VNum (NInt 2))].
Proof. reflexivity. Qed.

(** C6 as stated fails on the code.  The caller's properties are spread
    after the reporter's: a property named like the counter replaces it
    in the payload, and the counter goes on all the same; the three
    events carry the ids 0, 99 and 2. *)
Example caller_property_replaces_event_id :
  eventId
    <$> events
          (sendEvents released
             [{| call_now := 1; call_name := "c3 session started"; call_properties := ∅ |};
              {| call_now := 2; call_name := "c3 prompt started";
                 call_properties := {[ "amplitude_event_id" := VNum (NInt 99) ]} |};
              {| call_now := 3; call_name := "c3 prompt completed"; call_properties := ∅ |}]
             fresh)
  = [Some (VNum (NInt 0)); Some (VNum (NInt 99)); Some (VNum (NInt 2))].
Proof. reflexivity. Qed.

(** Two requests the sink has both rejected. *)
Example waitForAllEventsSettled_all_failed :
  waitForAllEventsSettled (JsError (VStr "Converting circular structure to JSON") VUndefined) 2
    (settleRequest 1 (Rejected (JsError (VStr "fetch failed") VUndefined))
       (settleRequest 0 (Rejected (JsError (VStr "fetch failed") VUndefined))
          (sendEvents released
             [{| call_now := 1; call_name := "c3 session started"; call_properties := ∅ |};
              {| call_now := 2; call_name := "c3 session completed"; call_properties := ∅ |}]
             fresh)))
  = (Fulfilled (),
     [ConsoleText "All events settled";
      ConsoleJson
        [inl {| dispatch_status := "failed";
                dispatch_payload :=
                  eventPayload released fresh 0 1 "c3 session started" ∅;
                dispatch_reason := Some (JsError (VStr "fetch failed") VUndefined) |};
         inl {| dispatch_status := "failed";
                dispatch_payload :=
                  eventPayload released fresh 1 2 "c3 session completed" ∅;
                dispatch_reason := Some (JsError (VStr "fetch failed") VUndefined) |}]]).
Proof. reflexivity. Qed.

Example waitForAllEventsSettled_pending :
  fst (waitForAllEventsSettled
         (JsError (VStr "Converting circular structure to JSON") VUndefined) 1
         (sendEvents released
            [{| call_now := 1; call_name := "c3 session started"; call_properties := ∅ |}]
            fresh))
  = Pending.
Proof. reflexivity. Qed.

(** A request dispatched after the call is not waited for. *)
Example waitForAllEventsSettled_later_request :
  fst (waitForAllEventsSettled
         (JsError (VStr "Converting circular structure to JSON") VUndefined) 1
         (sendEvents released
            [{| call_now := 2; call_name := "c3 session completed"; call_properties := ∅ |}]
            (settleRequest 0 (Fulfilled ())
               (sendEvents released
                  [{| call_now := 1; call_name := "c3 session started";
                      call_properties := ∅ |}]
                  fresh))))
  = Fulfilled ().
Proof. reflexivity. Qed.


End MetricsFacts.

(** ** Numbers *)

Module NumberFacts.
Import JS Number D1Number.

Section Rounding.
Local Open Scope Z_scope.

Lemma pow2_pos (k : Z) : 0 ≤ k → 0 < 2 ^ k.
Proof. intros. by apply Z.pow_pos_nonneg. Qed.





















(** [iterations] counts the turns of the loop: the test [i < x] holds
    below the count and fails at it; where there is no count, the test
    holds for every index an array has. *)
Lemma iterations_lessThan (x : number) :
  match iterations x with
  | Some count =>
      (∀ i : nat, (i < count)%nat → lessThan i x = true) ∧ lessThan count x = false
  | None => ∀ i : nat, Z.of_nat i < 2 ^ 32 → lessThan i x = true
  end.
Proof.
  destruct x as [[] | [] | | [] m e]; simpl; try (split; [intros i Hi; lia | done]);
    try done.
  pose proof (pow2_pos (Z.max e 0) ltac:(lia)) as HP.
  pose proof (pow2_pos (Z.max (- e) 0) ltac:(lia)) as HQ.
  set (P := 2 ^ Z.max e 0) in *. set (Q := 2 ^ Z.max (- e) 0) in *.
  pose proof (Z.div_mod (Z.neg m * P) Q ltac:(lia)) as Hdm.
  pose proof (Z.mod_pos_bound (Z.neg m * P) Q HQ) as Hmod.
  set (q := Z.neg m * P / Q) in *.
  assert (Hneg : Z.neg m = - Z.pos m) by done.
  destruct (Z.ltb_spec (- q) (2 ^ 32)) as [Hlt | Hge].
  - split.
    + intros i Hi. apply Z.ltb_lt. nia.
    + apply Z.ltb_ge. nia.
  - intros i Hi. apply Z.ltb_lt. nia.
Qed.

(** [log2_ratio p q] is the exponent of the binade of [p / q]. *)
Lemma log2_ratio_spec (p q : Z) :
  0 < p → 0 < q →
  q * 2 ^ Z.max (log2_ratio p q) 0 ≤ p * 2 ^ Z.max (- log2_ratio p q) 0
  ∧ p * 2 ^ Z.max (- (log2_ratio p q + 1)) 0 < q * 2 ^ Z.max (log2_ratio p q + 1) 0.
Proof.
  intros Hp Hq. unfold log2_ratio.
  pose proof (Z.log2_spec p Hp) as [Hplo Hphi].
  pose proof (Z.log2_spec q Hq) as [Hqlo Hqhi].
  pose proof (Z.log2_nonneg p) as Hlp. pose proof (Z.log2_nonneg q) as Hlq.
  set (lp := Z.log2 p) in *. set (lq := Z.log2 q) in *.
  rewrite Z.pow_succ_r in Hphi, Hqhi by done.
  pose proof (pow2_pos lp Hlp) as Hpp. pose proof (pow2_pos lq Hlq) as Hpq.
  destruct (Z.leb_spec (q * 2 ^ Z.max (lp - lq) 0) (p * 2 ^ Z.max (- (lp - lq)) 0))
    as [Htest | Htest].
  - split; [done |].
    destruct (Z.le_gt_cases lq lp) as [Hle | Hgt].
    + rewrite Z.max_r, Z.max_l by lia. rewrite Z.pow_0_r, Z.mul_1_r.
      replace (lp - lq + 1) with (Z.succ (lp - lq)) by lia.
      rewrite Z.pow_succ_r by lia.
      assert (2 ^ lp = 2 ^ (lp - lq) * 2 ^ lq) as Hsplit
        by (rewrite <- Z.pow_add_r by lia; f_equal; lia).
      pose proof (pow2_pos (lp - lq) ltac:(lia)). nia.
    + rewrite Z.max_l, Z.max_r by lia. rewrite Z.pow_0_r, Z.mul_1_r.
      assert (2 ^ lq = 2 ^ (- (lp - lq + 1)) * (2 * 2 ^ lp)) as Hsplit.
      { rewrite <- Z.pow_succ_r, <- Z.pow_add_r by lia. f_equal. lia. }
      pose proof (pow2_pos (- (lp - lq + 1)) ltac:(lia)). nia.
  - replace (lp - lq - 1 + 1) with (lp - lq) by lia. split; [| lia].
    destruct (Z.le_gt_cases lp lq) as [Hle | Hgt].
    + rewrite Z.max_r, Z.max_l by lia. rewrite Z.pow_0_r, Z.mul_1_r.
      assert (2 * 2 ^ lq = 2 ^ (- (lp - lq - 1)) * 2 ^ lp) as Hsplit.
      { rewrite <- Z.pow_succ_r, <- Z.pow_add_r by lia. f_equal. lia. }
      pose proof (pow2_pos (- (lp - lq - 1)) ltac:(lia)). nia.
    + rewrite Z.max_l, Z.max_r by lia. rewrite Z.pow_0_r, Z.mul_1_r.
      assert (2 ^ lp = 2 ^ (lp - lq - 1) * (2 * 2 ^ lq)) as Hsplit.
      { rewrite <- Z.pow_succ_r, <- Z.pow_add_r by lia. f_equal. lia. }
      pose proof (pow2_pos (lp - lq - 1) ltac:(lia)). nia.
Qed.

End Rounding.

(** The operations on the binary64 format of the Standard Library give
    the same Numbers. *)
Example ofNat_binary_normalize :
  ofNat 1 = binary_normalize 53 1024 1 0 false
  ∧ ofNat 5 = binary_normalize 53 1024 5 0 false
  ∧ round false 4294967295 1 = binary_normalize 53 1024 4294967295 0 false
  ∧ round false (2 ^ 53 + 1) 1 = binary_normalize 53 1024 (2 ^ 53 + 1) 0 false
  ∧ round false (2 ^ 53 + 3) 1 = binary_normalize 53 1024 (2 ^ 53 + 3) 0 false
  ∧ round true (2 ^ 1024 - 2 ^ 970) 1
    = binary_normalize 53 1024 (- (2 ^ 1024 - 2 ^ 970)) 0 false
  ∧ round false (2 ^ 1024 - 2 ^ 970 - 1) 1
    = binary_normalize 53 1024 (2 ^ 1024 - 2 ^ 970 - 1) 0 false.
Proof. vm_compute. repeat split; reflexivity. Qed.

Example divide_SFdiv :
  divide (ofNat 1) (ofNat 10) = SFdiv 53 1024 (ofNat 1) (ofNat 10)
  ∧ divide (ofNat 5) (ofNat 2) = SFdiv 53 1024 (ofNat 5) (ofNat 2)
  ∧ divide (ofNat 5) (ofNat 2) = S754_finite false 5629499534213120 (-51)
  ∧ divide (ofNat 5) (divide (ofNat 5) (ofNat 2))
    = SFdiv 53 1024 (ofNat 5) (SFdiv 53 1024 (ofNat 5) (ofNat 2))
  ∧ divide (round false 4294967295 1) (ofNat 7)
    = SFdiv 53 1024 (round false 4294967295 1) (ofNat 7)
  ∧ divide (ofNat 3) (divide (ofNat 1) (ofNat 10))
    = SFdiv 53 1024 (ofNat 3) (SFdiv 53 1024 (ofNat 1) (ofNat 10))
  ∧ divide (ofNat 3) (S754_finite true 1 (-1074))
    = SFdiv 53 1024 (ofNat 3) (S754_finite true 1 (-1074))
  ∧ divide (S754_finite false 1 (-1074)) (ofNat 2)
    = SFdiv 53 1024 (S754_finite false 1 (-1074)) (ofNat 2)
  ∧ divide (S754_finite false 3 (-1074)) (ofNat 2)
    = SFdiv 53 1024 (S754_finite false 3 (-1074)) (ofNat 2)
  ∧ divide (S754_finite false 4503599627370497 (-1074)) (ofNat 3)
    = SFdiv 53 1024 (S754_finite false 4503599627370497 (-1074)) (ofNat 3)
  ∧ divide (ofNat 7) (S754_zero true) = SFdiv 53 1024 (ofNat 7) (S754_zero true)
  ∧ divide (ofNat 0) (S754_zero false) = SFdiv 53 1024 (ofNat 0) (S754_zero false)
  ∧ divide (ofNat 7) (S754_infinity true) = SFdiv 53 1024 (ofNat 7) (S754_infinity true)
  ∧ divide (ofNat 7) S754_nan = SFdiv 53 1024 (ofNat 7) S754_nan.
Proof. vm_compute. repeat split; reflexivity. Qed.

Example multiply_SFmul :
  multiply (ofNat 3) (divide (ofNat 1) (ofNat 10))
  = SFmul 53 1024 (ofNat 3) (divide (ofNat 1) (ofNat 10))
  ∧ multiply (ofNat 3) (divide (ofNat 1) (ofNat 10))
    = S754_finite false 5404319552844596 (-54)
  ∧ multiply (round false 4294967295 1) (S754_finite false 9007199254740991 0)
    = SFmul 53 1024 (round false 4294967295 1) (S754_finite false 9007199254740991 0)
  ∧ multiply (ofNat 3) (S754_finite false 9007199254740991 (-53))
    = SFmul 53 1024 (ofNat 3) (S754_finite false 9007199254740991 (-53))
  ∧ multiply (ofNat 3) (S754_finite true 9007199254740991 971)
    = SFmul 53 1024 (ofNat 3) (S754_finite true 9007199254740991 971)
  ∧ multiply (S754_finite false 4503599627370497 (-1074))
      (S754_finite false 4503599627370496 (-53))
    = SFmul 53 1024 (S754_finite false 4503599627370497 (-1074))
        (S754_finite false 4503599627370496 (-53))
  ∧ multiply (S754_finite false 1 (-1074)) (S754_finite false 4503599627370496 (-53))
    = SFmul 53 1024 (S754_finite false 1 (-1074))
        (S754_finite false 4503599627370496 (-53))
  ∧ multiply (ofNat 0) (S754_finite true 5 0) = SFmul 53 1024 (ofNat 0) (S754_finite true 5 0)
  ∧ multiply (ofNat 0) (S754_infinity false) = SFmul 53 1024 (ofNat 0) (S754_infinity false)
  ∧ multiply (ofNat 2) (S754_infinity true) = SFmul 53 1024 (ofNat 2) (S754_infinity true).
Proof. vm_compute. repeat split; reflexivity. Qed.

End NumberFacts.

(** ** [batchSplit] *)

Module D1Facts.
Import JS D1.


(** The loop pushes one batch per value of the counter. *)
Lemma batchSplit_loop_seq (queries : list string) (batchSize todo i : nat)
    (batches : list string) :
  batchSplit_loop queries batchSize todo i batches
  = (batches ++
     ((fun j => join "; " (slice queries (j * batchSize) ((j + 1) * batchSize)))
        <$> seq i todo))%list.
Proof.
  revert i batches.
  induction todo as [| todo IH]; intros i batches; simpl.
  - by rewrite app_nil_r.
  - rewrite IH, <- app_assoc. reflexivity.
Qed.


Lemma slice_take_drop {A} (xs : list A) (i d : nat) :
  slice xs (i * d) ((i + 1) * d) = take d (drop (i * d) xs).
Proof. unfold slice. f_equal. lia. Qed.






(** Other batch sizes: zero, a negative one, and what is not a number. *)
Example batchSplit_other_sizes :
  D1Number.batchSplit ["a"; "b"] (S754_zero false) = None
  ∧ D1Number.batchSplit [] (S754_zero false) = Some []
  ∧ D1Number.batchSplit ["a"; "b"] (S754_zero true) = Some []
  ∧ D1Number.batchSplit ["a"; "b"] (Number.round true 2 1) = Some []
  ∧ D1Number.batchSplit ["a"; "b"] S754_nan = Some []
  ∧ D1Number.batchSplit ["a"; "b"; "c"; "d"; "e"] (Number.ofNat 2)
    = Some ["a; b"; "c; d"; "e"].
Proof. vm_compute. repeat split; reflexivity. Qed.

Example batchSplit_five_by_two :
  batchSplit ["a"; "b"; "c"; "d"; "e"] 2 = Some ["a; b"; "c; d"; "e"].
Proof. reflexivity. Qed.

Example batchSplit_zero_size : batchSplit ["a"] 0 = None.
Proof. reflexivity. Qed.

End D1Facts.

(** ** Further properties of the reporter *)

Module ReporterLaws.
Import JS MetricsConfig Metrics MetricsFacts.

Section Guard.
Context (E : Env).

Lemma dispatches_closed (r : Reporter) :
  enabled (telemetry r) = false ∨ SPARROW_SOURCE_KEY E = "__SPARROW_SOURCE_KEY__" →
  dispatches E r = false.
Proof.
  unfold dispatches, Sparrow.hasSparrowSourceKey.
  intros [-> | ->]; [done |]. simpl. by rewrite orb_true_r.
Qed.

(** X1. A reporter whose user has disabled telemetry, or whose build has
    no source key, never dispatches: any sequence of calls of [sendEvent]
    and any invocation of [collectAsyncMetrics], whatever its options and
    whatever happens during it, leaves the reporter as it was, counter
    and [events] included. *)
Theorem closed_guard_never_dispatches (r : Reporter) :
  enabled (telemetry r) = false ∨ SPARROW_SOURCE_KEY E = "__SPARROW_SOURCE_KEY__" →
  (∀ calls : list SendCall, sendEvents E calls r = r)
  ∧ (∀ (o : Options) (startTime nowStarted : Z) (trace : list tick),
       reporter (collectAsyncMetrics E o startTime nowStarted r trace) = r).
Proof.
  intros Hclosed. apply dispatches_closed in Hclosed.
  assert (Hsend : ∀ calls, sendEvents E calls r = r).
  { intros calls. by rewrite sendEvents_issued, Hclosed. }
  split; [exact Hsend |].
  intros o startTime nowStarted trace.
  destruct (collect_sendEvents E o startTime nowStarted r trace) as (calls & -> & _).
  apply Hsend.
Qed.

(** X2. Every request a sequence of calls of [sendEvent] adds carries the
    reporter's device id, no user id, the name of its call behind the
    prefix, the clock reading of its call, every property the caller
    passed, and, for each of the reporter's own keys the caller did not
    pass, the reporter's session id, platform, version, first-usage flag
    and package manager. *)
Theorem dispatched_payload_shape (calls : list SendCall) (r : Reporter) (rq : Request) :
  rq ∈ drop (length (events r)) (events (sendEvents E calls r)) →
  sent rq = Pending
  ∧ Sparrow.deviceId (payload rq) = deviceId r
  ∧ Sparrow.userId (payload rq) = None
  ∧ ∃ c : SendCall,
      c ∈ calls
      ∧ Sparrow.event (payload rq) = "test " ++ call_name c
      ∧ Sparrow.timestamp (payload rq) = call_now c
      ∧ (∀ key v, call_properties c !! key = Some v →
                  Sparrow.properties (payload rq) !! key = Some v)
      ∧ (call_properties c !! "amplitude_session_id" = None →
         Sparrow.properties (payload rq) !! "amplitude_session_id"
         = Some (VNum (NInt (amplitude_session_id r))))
      ∧ (call_properties c !! "platform" = None →
         Sparrow.properties (payload rq) !! "platform" = Some (VStr (platform r)))
      ∧ (call_properties c !! "c3Version" = None →
         Sparrow.properties (payload rq) !! "c3Version" = Some (VStr (c3Version E)))
      ∧ (call_properties c !! "isFirstUsage" = None →
         Sparrow.properties (payload rq) !! "isFirstUsage" = Some (VBool (isFirstUsage r)))
      ∧ (call_properties c !! "packageManager" = None →
         Sparrow.properties (payload rq) !! "packageManager"
         = Some (VStr (packageManager r))).
Proof.
  rewrite sendEvents_events, drop_app_length.
  intros Hin. apply list_elem_of_lookup in Hin as [k Hk].
  apply issued_lookup in Hk as (_ & c & Hc & ->). simpl.
  split; [done |]. split; [done |]. split; [done |].
  exists c. split; [by eapply list_elem_of_lookup_2 |].
  split; [done |]. split; [done |].
  split. { intros key v Hv. by rewrite spread_lookup, Hv. }
  unfold reporterProperties.
  repeat split; intros Hnone; rewrite spread_lookup, Hnone; by simplify_map_eq.
Qed.

(** X3. The promise [waitForAllEventsSettled] returns depends on the
    requests [events] held at the call and on nothing else: requests
    dispatched later change neither its state nor what is logged.  It is
    pending exactly when one of those requests is pending; it is fulfilled
    exactly when none is pending and every record can be written by
    [JSON.stringify]; it is rejected, and then with what [JSON.stringify]
    throws, exactly when none is pending and a record cannot be
    written. *)
Theorem waitForAllEventsSettled_waits (stringifyError : thrown) (r : Reporter) :
  let returned := fst (waitForAllEventsSettled stringifyError (length (events r)) r) in
  (∀ calls,
     waitForAllEventsSettled stringifyError (length (events r)) (sendEvents E calls r)
     = waitForAllEventsSettled stringifyError (length (events r)) r)
  ∧ (returned = Pending ↔ Exists (λ rq, sent rq = Pending) (events r))
  ∧ (returned = Fulfilled ()
     ↔ Forall (λ rq, is_pending (sent rq) = false) (events r)
       ∧ Forall (λ rq, recordStringifies (dispatchRecord rq) = true) (events r))
  ∧ (∀ e, returned = Rejected e
          ↔ e = stringifyError
            ∧ Forall (λ rq, is_pending (sent rq) = false) (events r)
            ∧ Exists (λ rq, recordStringifies (dispatchRecord rq) = false) (events r)).
Proof.
  intros returned. subst returned. split.
  { intros calls. unfold waitForAllEventsSettled.
    replace (take (length (events r)) (events (sendEvents E calls r)))
      with (take (length (events r)) (events r)); [done |].
    rewrite sendEvents_issued. destruct (dispatches E r); [| done].
    unfold advanced. simpl. by rewrite take_app_length, firstn_all. }
  unfold waitForAllEventsSettled, allSettled.
  rewrite firstn_all, settlements_requests.
  destruct (forallb (λ rq, negb (is_pending (sent rq))) (events r)) eqn:Hsettled.
  - cbv zeta. rewrite entries_stringify.
    pose proof (proj1 (none_pending _) Hsettled) as Hnone.
    assert (Hno : ¬ Exists (λ rq, sent rq = Pending) (events r)).
    { intros H%some_pending. congruence. }
    destruct (forallb (λ rq, recordStringifies (dispatchRecord rq)) (events r))
      eqn:Hwritten; simpl.
    + pose proof (proj1 (all_stringify _) Hwritten) as Hall.
      assert (Hsome : ¬ Exists (λ rq, recordStringifies (dispatchRecord rq) = false)
                          (events r)).
      { intros H%some_not_stringify. congruence. }
      repeat split; try done; naive_solver.
    + pose proof (proj1 (some_not_stringify _) Hwritten) as Hsome.
      assert (Hall : ¬ Forall (λ rq, recordStringifies (dispatchRecord rq) = true)
                         (events r)).
      { intros H%all_stringify. congruence. }
      repeat split; try done; naive_solver.
  - simpl.
    pose proof (proj1 (some_pending _) Hsettled) as Hpending.
    assert (Hnot : ¬ Forall (λ rq, is_pending (sent rq) = false) (events r)).
    { intros H%none_pending. congruence. }
    repeat split; try done; naive_solver.
Qed.

(** X4. [waitForAllEventsSettled] logs nothing while a request it waits for
    is pending.  Once none is, it logs the line "All events settled", and
    then, if every record can be written by [JSON.stringify], one record
    per request, in the order of dispatch: a record with status "failed"
    and the reason for a request the sink rejected, with status "success"
    for any other, each with the payload that was sent; no entry is a raw
    rejection.  If a record cannot be written, the line
    "All events settled" is all that is logged. *)
Theorem waitForAllEventsSettled_log (stringifyError : thrown) (awaited : nat)
    (r : Reporter) :
  snd (waitForAllEventsSettled stringifyError awaited r)
  = if forallb (λ rq, negb (is_pending (sent rq))) (take awaited (events r))
    then
      ConsoleText "All events settled"
      :: (if forallb (λ rq, recordStringifies (dispatchRecord rq))
               (take awaited (events r))
          then [ConsoleJson ((λ rq, inl (dispatchRecord rq)) <$> take awaited (events r))]
          else [])
    else [].
Proof.
  unfold waitForAllEventsSettled, allSettled.
  rewrite settlements_requests.
  destruct (forallb _ (take awaited (events r))); [| done].
  cbv zeta. rewrite entries_stringify.
  destruct (forallb _ (take awaited (events r))); [| done]. simpl.
  do 2 f_equal. rewrite <- list_fmap_compose. done.
Qed.

(** X5. [getPlatform] keeps platforms apart: two platforms with the same
    reported name are the same platform. *)
Theorem getPlatform_injective (E' : Env) :
  getPlatform E = getPlatform E' → process_platform E = process_platform E'.
Proof.
  unfold getPlatform.
  destruct (String.eqb_spec (process_platform E) "win32") as [-> |];
  destruct (String.eqb_spec (process_platform E') "win32") as [-> |]; try done;
  repeat match goal with
         | |- context [String.eqb ?a ?b] =>
             destruct (String.eqb_spec a b) as [-> |]; try done
         end;
  simpl; intros H; by simplify_eq.
Qed.

End Guard.
End ReporterLaws.

(** ** Further properties of [collectAsyncMetrics] *)

Module InvocationLaws.
Import JS MetricsConfig Metrics MetricsFacts.

Section Laws.
Context (E : Env) (o : Options) (startTime nowStarted : Z) (r : Reporter).

Local Abbreviation collect := (collectAsyncMetrics E o startTime nowStarted r).
Local Abbreviation step' := (step E o startTime).
Local Abbreviation run' := (run E o startTime).

Lemma listening_while_pending (trace : list tick) :
  listening (collect trace) = is_pending (returned (collect trace)).
Proof.
  destruct (lifecycle E o startTime nowStarted r trace)
    as [_ [(-> & -> & _) | (pre & tD & tS & post & _ & _ & _ & Hne & Hret & -> & _)]];
    [done |].
  rewrite Hret. by destruct (race (collect trace)).
Qed.

(** X6. The signal handlers are registered exactly while the call has not
    returned, and a signal that arrives after the call has returned
    changes nothing: no timer is started for it. *)
Theorem handlers_registered_while_pending (trace : list tick) :
  listening (collect trace) = is_pending (returned (collect trace))
  ∧ ∀ signal : Signals,
      returned (collect trace) ≠ Pending →
      collect (trace ++ [SignalReceived signal]) = collect trace.
Proof.
  split; [apply listening_while_pending |].
  intros signal Hret. rewrite collect_snoc. simpl. rewrite listening_while_pending.
  by destruct (returned (collect trace)).
Qed.

(** X7. The wrapper never changes the outcome: a call that is fulfilled is
    fulfilled with the value the operation was fulfilled with, and a call
    that is rejected is rejected with what the operation was rejected
    with, or with the [CancelError] of a signal that [cancelDeferred] was
    rejected with. *)
Theorem returned_outcome (trace : list tick) :
  match returned (collect trace) with
  | Pending => True
  | Fulfilled value => operation (collect trace) = Fulfilled value
  | Rejected e =>
      operation (collect trace) = Rejected e
      ∨ ∃ signal, e = newCancelError E (Some signal)
                  ∧ cancelDeferred (collect trace) = Rejected e
  end.
Proof.
  destruct (lifecycle E o startTime nowStarted r trace)
    as [_ [(-> & _) | (pre & tD & tS & post & _ & _ & _ & Hne & -> & _)]]; [done |].
  destruct (collect_promisesConsistent E o startTime nowStarted r trace)
    as (Hcd & _ & [Hp | [Hop | Hc]]); [done | |].
  - rewrite Hop. destruct (operation (collect trace)); auto.
  - destruct Hcd as [Hcd | [signal Hcd]]; [congruence |].
    rewrite Hc, Hcd. right. by exists signal.
Qed.

Lemma run_cancelDeferred_stable (inv : Invocation) (trace : list tick) :
  cancelDeferred inv ≠ Pending → cancelDeferred (run' inv trace) = cancelDeferred inv.
Proof.
  revert inv. induction trace as [| t trace IH]; intros inv Hcd; [done |].
  simpl. rewrite IH; rewrite step_cancelDeferred_stable; done.
Qed.

Lemma step_timers (inv : Invocation) (t : tick) :
  timers (step' inv t)
  = match t with
    | SignalReceived signal =>
        if listening inv then (timers inv ++ [signal])%list else timers inv
    | TimerFires => tail (timers inv)
    | _ => timers inv
    end.
Proof.
  destruct inv as [rep ap cd tm ls op rc rt]; destruct t; simpl; try done.
  - by destruct ls.
  - by destruct tm.
  - unfold resume; simpl. by destruct rt, rc.
Qed.

Lemma rejected_with_oldest (inv : Invocation) (trace : list tick) (e : thrown) :
  cancelDeferred inv = Pending →
  cancelDeferred (run' inv trace) = Rejected e →
  ∃ signal,
    head (timers inv ++ handledSignals E o startTime inv trace) = Some signal
    ∧ e = newCancelError E (Some signal).
Proof.
  revert inv. induction trace as [| t trace IH]; intros inv Hcd Hrej.
  { simpl in Hrej. congruence. }
  cbn [handledSignals]. unfold run in Hrej. cbn [foldl] in Hrej.
  fold (run' (step' inv t) trace) in Hrej.
  pose proof (step_cancelDeferred E o startTime inv t) as Hstep.
  pose proof (step_timers inv t) as Htm.
  rewrite Hcd in Hstep.
  destruct t;
    try (destruct (IH (step' inv _) Hstep Hrej) as (signal & Hhead & ->);
         exists signal; split; [| done]; by rewrite Htm in Hhead).
  - (* a signal *)
    destruct (IH (step' inv (SignalReceived signal)) Hstep Hrej) as (s & Hhead & ->).
    exists s. split; [| done]. rewrite Htm in Hhead.
    destruct (listening inv); [by rewrite <- app_assoc in Hhead | done].
  - (* a timer *)
    destruct (timers inv) as [| signal tm'] eqn:Htimers.
    + destruct (IH (step' inv TimerFires) Hstep Hrej) as (s & Hhead & ->).
      exists s. split; [| done]. by rewrite Htm in Hhead.
    + rewrite run_cancelDeferred_stable in Hrej by (by rewrite Hstep).
      rewrite Hstep in Hrej. injection Hrej as <-.
      exists signal. by split.
Qed.

(** X8. When [cancelDeferred] has been rejected, the [CancelError] it was
    rejected with carries the first signal the handlers received. *)
Theorem cancelled_with_first_signal (trace : list tick) (e : thrown) :
  cancelDeferred (collect trace) = Rejected e →
  ∃ (signal : Signals) (rest : list Signals),
    handledSignals E o startTime (enter E o nowStarted r) trace = signal :: rest
    ∧ e = newCancelError E (Some signal).
Proof.
  intros Hrej.
  destruct (rejected_with_oldest (enter E o nowStarted r) trace e eq_refl Hrej)
    as (signal & Hhead & ->).
  simpl in Hhead.
  destruct (handledSignals E o startTime (enter E o nowStarted r) trace)
    as [| s rest]; [done |].
  injection Hhead as ->. by exists signal, rest.
Qed.


(** X10. Once the call has returned, nothing that happens later changes the
    reporter or the outcome: properties set late, signals, timers and a
    late result of the operation add no event and the returned promise
    keeps its state. *)
Theorem returned_is_final (trace later : list tick) :
  returned (collect trace) ≠ Pending →
  reporter (collect (trace ++ later)) = reporter (collect trace)
  ∧ returned (collect (trace ++ later)) = returned (collect trace)
  ∧ listening (collect (trace ++ later)) = false.
Proof.
  intros Hret.
  induction later as [| t later (IH1 & IH2 & IH3)] using rev_ind.
  - rewrite app_nil_r. repeat split.
    rewrite listening_while_pending.
    by destruct (returned (collect trace)).
  - rewrite app_assoc, collect_snoc.
    destruct (step_returned E o startTime (collect (trace ++ later)) t)
      as (-> & -> & ->); [by rewrite IH2 | done].
Qed.

Lemma setValues_snoc (key : string) (trace : list tick) (t : tick) :
  setValues key (trace ++ [t])
  = (setValues key trace ++
     match t with
     | OpSetEventProperty key' value => if String.eqb key' key then [value] else []
     | _ => []
     end)%list.
Proof.
  unfold setValues. rewrite omap_app. f_equal.
  destruct t; try done. simpl. by destruct (String.eqb key0 key).
Qed.

Lemma assign_other (key key' : string) (value : val) (ob : object) :
  key' ≠ key →
  own (assign key' value ob) !! key = own ob !! key
  ∧ (key = "__proto__" → prototype (assign key' value ob) = prototype ob).
Proof.
  intros Hne. unfold assign.
  destruct (String.eqb_spec key' "__proto__") as [-> | Hproto]; simpl.
  - split; [| by intros ->].
    destruct (own ob !! "__proto__"); simpl; [by rewrite lookup_insert_ne |].
    destruct (inheritsProtoAccessor (prototype ob)); simpl;
      [| by rewrite lookup_insert_ne].
    destruct (is_object value) eqn:Hobj; [done |]. by destruct value.
  - split; [by rewrite lookup_insert_ne | done].
Qed.

(** The own property [__proto__] after assignments to an object, by what
    the object was. *)
Lemma proto_own (ob : object) (trace : list tick) :
  own (foldl (fun additionalProperties t =>
                match t with
                | OpSetEventProperty key value =>
                    store_setEventProperty key value additionalProperties
                | _ => additionalProperties
                end) ob trace) !! "__proto__"
  = match own ob !! "__proto__" with
    | Some v => Some (default v (last (setValues "__proto__" trace)))
    | None =>
        if inheritsProtoAccessor (prototype ob)
        then last (ownProtoWrites (setValues "__proto__" trace))
        else last (setValues "__proto__" trace)
    end.
Proof.
  assert (Hlast : ∀ (v v0 : val) (ws : list val),
            default v0 (last (v :: ws)) = default v (last ws)).
  { intros v v0 ws. destruct ws as [| w ws]; [done |].
    rewrite last_cons_cons. destruct (last (w :: ws)) eqn:Hl; [done |].
    by apply last_None in Hl. }
  assert (Hsome : ∀ (v : val) (ws : list val),
            last (v :: ws) = Some (default v (last ws))).
  { intros v ws. destruct ws as [| w ws]; [done |].
    rewrite last_cons_cons. destruct (last (w :: ws)) eqn:Hl; [done |].
    by apply last_None in Hl. }
  revert ob. induction trace as [| t trace IH]; intros ob.
  { simpl. destruct (own ob !! "__proto__"); [done |].
    by destruct (inheritsProtoAccessor (prototype ob)). }
  cbn [foldl]. rewrite IH. clear IH.
  destruct t; try done.
  unfold setValues. cbn [omap list_omap]. fold (setValues "__proto__" trace).
  unfold store_setEventProperty.
  destruct (String.eqb_spec key "__proto__") as [-> | Hkey].
  - cbn [option_bind mbind]. unfold assign. simpl.
    destruct (own ob !! "__proto__") as [v0 |] eqn:Hown; simpl.
    { rewrite lookup_insert_eq. by rewrite Hlast. }
    destruct (inheritsProtoAccessor (prototype ob)) eqn:Hacc; simpl.
    + destruct (is_object value) eqn:Hobj; simpl.
      * rewrite Hown. unfold detaches.
        destruct value; try done; simpl; by destruct (existsb _ _).
      * destruct value; try done; simpl; by rewrite Hown, ?Hacc.
    + rewrite lookup_insert_eq. by rewrite Hsome.
  - destruct (assign_other "__proto__" key value ob Hkey) as [Hown Hproto].
    rewrite Hproto by done.
    rewrite Hown. simpl. done.
Qed.

(** X11. What the store of an invocation holds for a key other than
    [__proto__] is the value of the last [setEventProperty] call for that
    key, and nothing when there was none.  For [__proto__] it holds
    nothing as long as the writes go to the accessor of
    [Object.prototype]; once a write of [null], or of an object with a
    property [__proto__] of its own, has cut the store off from that
    accessor, it holds the last value written after that write. *)
Theorem store_holds_last_value (trace : list tick) (key : string) :
  own (additionalProperties (collect trace)) !! key
  = if String.eqb key "__proto__"
    then last (ownProtoWrites (setValues "__proto__" trace))
    else lastSetValue key trace.
Proof.
  destruct (lifecycle E o startTime nowStarted r trace) as [-> _].
  destruct (String.eqb_spec key "__proto__") as [-> | Hkey].
  { unfold contextStore. by rewrite proto_own. }
  unfold lastSetValue.
  induction trace as [| t trace IH] using rev_ind; [done |].
  rewrite contextStore_snoc, setValues_snoc.
  destruct t; rewrite ?app_nil_r; try exact IH.
  unfold store_setEventProperty.
  destruct (String.eqb_spec key0 key) as [-> | Hne].
  - unfold assign. destruct (String.eqb_spec key "__proto__"); [done |]. simpl.
    by rewrite lookup_insert_eq, last_snoc.
  - rewrite app_nil_r. destruct (assign_other key key0 value (contextStore trace) Hne)
      as [-> _]. exact IH.
Qed.

End Laws.

Section Interleaving.
Context (E : Env) (o : Options) (startTime nowStarted : Z) (r : Reporter).

Local Abbreviation shared := (collectShared E o startTime nowStarted r).

(** X12. An invocation on a reporter that other code calls while the
    invocation is under way, with telemetry on and the guard open, once it
    has returned: it has dispatched two requests itself, the started event
    built with the counter as it found it, and the terminal event built
    with the counter one step and the number of calls others made before
    the call resumed further on; [events] holds the started event, the
    requests of those calls, the terminal event and the requests of the
    calls others made since, in this order; and the counter has advanced
    by two and the number of calls of others. *)
Theorem invocation_among_other_calls (turns : list turn) :
  telemetryOn o = true →
  dispatches E r = true →
  returned (shared turns) ≠ Pending →
  ∃ (pre : list turn) (nowDuration nowSend : Z) (post : list turn)
    (started terminal : Request),
    turns = (pre ++ Own (Resumes nowDuration nowSend) :: post)%list
    ∧ returned (shared pre) = Pending
    ∧ started
      = {| payload := eventPayload E r (amplitude_event_id r) nowStarted
                        (eventPrefix o ++ " started") (props o);
           sent := Pending |}
    ∧ terminal
      = {| payload :=
             eventPayload E r
               (amplitude_event_id r + 1 + Z.of_nat (length (otherCalls pre))) nowSend
               (eventPrefix o ++ " " ++ terminalPhase (returned (shared turns)))
               (terminalProperties o (contextProperties (ownTicks pre))
                  (getDuration nowDuration startTime) (returned (shared turns)));
           sent := Pending |}
    ∧ sharedDispatched E o startTime nowStarted r turns = [started; terminal]
    ∧ events (reporter (shared turns))
      = (events r
         ++ started :: issued E (advanced r 1 []) (otherCalls pre)
         ++ terminal
            :: issued E (advanced r (2 + length (otherCalls pre)) []) (otherCalls post))%list
    ∧ amplitude_event_id (reporter (shared turns))
      = (amplitude_event_id r + 2 + Z.of_nat (length (otherCalls turns)))%Z.
Proof.
  intros Hon Hopen Hreturned.
  destruct (shared_lifecycle E o startTime nowStarted r turns)
    as [(Hp & _) | (pre & tD & tS & post & -> & Hpre & Hne & Hret & Hrep & Hd)]; [done |].
  exists pre, tD, tS, post. eexists _, _.
  split; [done |]. split; [done |]. split; [reflexivity |]. split; [reflexivity |].
  rewrite terminalCall_settled in Hrep, Hd by done.
  unfold startedCall in Hrep, Hd. rewrite Hon in Hrep, Hd.
  split; [| split].
  - rewrite Hd, issued_sendEvents by done.
    unfold issued. rewrite dispatches_advanced, Hopen. simpl.
    rewrite !eventPayload_advanced, Z.add_0_r, Z.add_0_r.
    do 4 f_equal. lia.
  - rewrite Hrep, sendEvents_events. f_equal.
    rewrite (issued_app E r [_]). cbn [length].
    rewrite issued_app, (issued_app E _ [_]), !advanced_advanced.
    rewrite (issued_advanced E _ _ _ (otherCalls post)), (issued_advanced E _ _ _ [_]).
    cbn [length].
    replace (1 + length (otherCalls pre) + 1)%nat
      with (2 + length (otherCalls pre))%nat by lia.
    unfold issued at 1 3. rewrite dispatches_advanced, Hopen. simpl.
    rewrite !eventPayload_advanced, !Z.add_0_r.
    replace (amplitude_event_id r + Z.of_nat (S (length (otherCalls pre))))%Z
      with (amplitude_event_id r + 1 + Z.of_nat (length (otherCalls pre)))%Z by lia.
    done.
  - rewrite Hrep, sendEvents_issued, Hopen. simpl.
    rewrite !length_app, otherCalls_app, length_app. simpl.
    change (otherCalls (Own (Resumes tD tS) :: post)) with (otherCalls post). lia.
Qed.

End Interleaving.
End InvocationLaws.

(** ** Further properties of the permission and the telemetry command *)

Module PermissionLaws.
Import JS MetricsConfig Metrics MetricsFacts.

(** X13. [createReporter] reports a first usage exactly when the config
    holds no permission; then the permission is enabled, stamped with the
    clock reading, and written to the config once, and otherwise the
    config is not touched.  Either way the config then holds the
    reporter's permission and the device id it had, the reporter starts
    with the counter at 0 and no events, and a reporter created afterwards
    on that config is no first usage, has the same permission, and writes
    nothing.  (What [getDeviceId] and [detectPackageManager] do is not
    among the sources: the writes are those of [getC3Permission].) *)
Theorem createReporter_first_usage (E : Env) (nowPermission nowSession : Z)
    (device packageManagerName : string) (E' : Env) (nowPermission' nowSession' : Z)
    (device' packageManagerName' : string) (d : disk) :
  let first := createReporter E nowPermission nowSession device packageManagerName d in
  let second := createReporter E' nowPermission' nowSession' device'
                  packageManagerName' (snd first) in
  (isFirstUsage (fst first) = true ↔ c3permission (readMetricsConfig d) = None)
  ∧ (isFirstUsage (fst first) = true →
     telemetry (fst first) = {| enabled := true; date := nowPermission |}
     ∧ written (snd first) = (written d ++ [stored (snd first)])%list)
  ∧ (isFirstUsage (fst first) = false → snd first = d)
  ∧ c3permission (readMetricsConfig (snd first)) = Some (telemetry (fst first))
  ∧ MetricsConfig.deviceId (readMetricsConfig (snd first))
    = MetricsConfig.deviceId (readMetricsConfig d)
  ∧ amplitude_event_id (fst first) = 0%Z
  ∧ events (fst first) = []
  ∧ isFirstUsage (fst second) = false
  ∧ telemetry (fst second) = telemetry (fst first)
  ∧ snd second = snd first.
Proof.
  destruct d as [[[p |] dev] w]; cbv [createReporter getC3Permission readMetricsConfig
    writeMetricsConfig initializeC3Permission stored c3permission fst snd
    isFirstUsage telemetry written events amplitude_event_id MetricsConfig.deviceId];
    repeat split; try done.
Qed.

Lemma updateC3Pemission_then_read (now now' : Z) (requested : bool) (d : disk) :
  enabled (fst (fst (getC3Permission now' (readMetricsConfig
                                             (updateC3Pemission now requested d))
                       (updateC3Pemission now requested d))))
  = requested
  ∧ snd (getC3Permission now' (readMetricsConfig (updateC3Pemission now requested d))
           (updateC3Pemission now requested d))
    = updateC3Pemission now requested d.
Proof.
  destruct d as [[[[en dt] |] dev] w]; cbv [updateC3Pemission readMetricsConfig stored
    c3permission enabled]; [| done].
  by destruct (Bool.eqb_spec en requested) as [-> | Hne].
Qed.

(** X14. After [updateC3Pemission(enabled)] the permission read back by
    [getC3Permission] has the requested state, and reading it writes
    nothing; the update keeps the device id, and it either leaves the
    config untouched or writes it once, with the permission stamped with
    the clock reading of the update. *)
Theorem updateC3Pemission_read_back (now now' : Z) (requested : bool) (d : disk) :
  let d' := updateC3Pemission now requested d in
  let read := getC3Permission now' (readMetricsConfig d') d' in
  enabled (fst (fst read)) = requested
  ∧ snd read = d'
  ∧ MetricsConfig.deviceId (readMetricsConfig d') = MetricsConfig.deviceId (readMetricsConfig d)
  ∧ (d' = d
     ∨ (written d' = (written d ++ [stored d'])%list
        ∧ fst (fst read) = {| enabled := requested; date := now |})).
Proof.
  destruct d as [[[[en dt] |] dev] w]; cbv [updateC3Pemission readMetricsConfig stored
    c3permission enabled].
  - destruct (Bool.eqb_spec en requested) as [-> | Hne]; simpl.
    + repeat split; auto.
    + repeat split; auto.
  - simpl. repeat split; auto.
Qed.

(** X15. After [runTelemetryCommand("enable")] or ("disable"),
    [runTelemetryCommand("status")] reports the state that was set, in
    the status lines the first command logged itself, and writes
    nothing. *)
Theorem status_after_change (now now' : Z) (requested : bool) (d : disk) :
  let changed := runTelemetryCommand now (if requested then enable else disable) d in
  let asked := runTelemetryCommand now' status (fst changed) in
  fst asked = fst changed
  ∧ snd asked = ["Status: " ++ (if requested then "Enabled" else "Disabled"); ""]
  ∧ snd asked = take 2 (snd changed).
Proof.
  pose proof (updateC3Pemission_then_read now now' requested d) as (Hen & Hd).
  cbv zeta in *.
  assert (Hfst : fst (runTelemetryCommand now (if requested then enable else disable) d)
                 = updateC3Pemission now requested d) by (by destruct requested).
  rewrite Hfst.
  unfold runTelemetryCommand at 1 2 3.
  destruct (getC3Permission now' _ _) as [[p config] d''].
  simpl in Hen, Hd. subst d''. simpl. rewrite Hen.
  repeat split; by destruct requested.
Qed.

(** X16. [runTelemetryCommand("status")] changes the config exactly when
    it holds no permission: it then reports "Status: Enabled" and writes
    the enabled permission, stamped with the clock reading, once.  Asking
    again reports the same and writes nothing. *)
Theorem status_settles (now now' : Z) (d : disk) :
  let first := runTelemetryCommand now status d in
  runTelemetryCommand now' status (fst first) = first
  ∧ (fst first = d ↔ c3permission (readMetricsConfig d) ≠ None)
  ∧ (c3permission (readMetricsConfig d) = None →
     snd first = ["Status: Enabled"; ""]
     ∧ written (fst first) = (written d ++ [stored (fst first)])%list
     ∧ c3permission (stored (fst first)) = Some {| enabled := true; date := now |}
     ∧ MetricsConfig.deviceId (stored (fst first))
       = MetricsConfig.deviceId (readMetricsConfig d)).
Proof.
  destruct d as [[[p |] dev] w]; cbn zeta.
  - split; [done |]. split; [done |]. done.
  - split; [done |]. split; [| done].
    split; [| done]. intros H. by injection H.
Qed.

End PermissionLaws.

(** ** The further properties on the session of [Scenario] *)

Module LawsOnScenarios.
Import JS MetricsConfig Metrics Scenario.
Import ReporterLaws InvocationLaws PermissionLaws.

(** A user who has disabled telemetry, on a released build. *)
Lemma closed_guard_opted_out :
  (∀ calls : list SendCall, sendEvents released calls optedOut = optedOut)
  ∧ (∀ (o : Options) (startTime nowStarted : Z) (trace : list tick),
       reporter (collectAsyncMetrics released o startTime nowStarted optedOut trace)
       = optedOut).
Proof. apply (closed_guard_never_dispatches released optedOut). by left. Defined.

(** The one request of one call on a fresh reporter. *)
Lemma dispatched_payload_shape_session :
  let c := {| call_now := 1700000000002; call_name := "c3 session started";
              call_properties := {[ "platform" := VStr "mine" ]} |} in
  let rq := {| payload := eventPayload released fresh 0 1700000000002
                            "c3 session started" {[ "platform" := VStr "mine" ]};
               sent := Pending |} in
  sent rq = Pending
  ∧ Sparrow.deviceId (payload rq) = deviceId fresh
  ∧ Sparrow.userId (payload rq) = None
  ∧ ∃ c' : SendCall,
      c' ∈ [c]
      ∧ Sparrow.event (payload rq) = "test " ++ call_name c'
      ∧ Sparrow.timestamp (payload rq) = call_now c'
      ∧ (∀ key v, call_properties c' !! key = Some v →
                  Sparrow.properties (payload rq) !! key = Some v)
      ∧ (call_properties c' !! "amplitude_session_id" = None →
         Sparrow.properties (payload rq) !! "amplitude_session_id"
         = Some (VNum (NInt (amplitude_session_id fresh))))
      ∧ (call_properties c' !! "platform" = None →
         Sparrow.properties (payload rq) !! "platform" = Some (VStr (platform fresh)))
      ∧ (call_properties c' !! "c3Version" = None →
         Sparrow.properties (payload rq) !! "c3Version" = Some (VStr (c3Version released)))
      ∧ (call_properties c' !! "isFirstUsage" = None →
         Sparrow.properties (payload rq) !! "isFirstUsage"
         = Some (VBool (isFirstUsage fresh)))
      ∧ (call_properties c' !! "packageManager" = None →
         Sparrow.properties (payload rq) !! "packageManager"
         = Some (VStr (packageManager fresh))).
Proof.
  apply (dispatched_payload_shape released
           [{| call_now := 1700000000002; call_name := "c3 session started";
               call_properties := {[ "platform" := VStr "mine" ]} |}] fresh).
  apply list_elem_of_lookup. exists 0%nat. reflexivity.
Defined.

(** Two interrupts: the error names the first. *)
Lemma cancelled_with_first_signal_login :
  ∃ (signal : Signals) (rest : list Signals),
    handledSignals released login 1700000000000
      (enter released login 1700000000001 fresh) loginInterrupted = signal :: rest
    ∧ newCancelError released (Some SIGINT) = newCancelError released (Some signal).
Proof.
  apply (cancelled_with_first_signal released login 1700000000000 1700000000001 fresh
           loginInterrupted (newCancelError released (Some SIGINT))).
  reflexivity.
Defined.


(** The login is cancelled, then the operation delivers a result. *)
Lemma returned_is_final_login :
  reporter (collectAsyncMetrics released login 1700000000000 1700000000001 fresh
              (loginInterrupted ++ lateResult))
  = reporter (collectAsyncMetrics released login 1700000000000 1700000000001 fresh
                loginInterrupted)
  ∧ returned (collectAsyncMetrics released login 1700000000000 1700000000001 fresh
                (loginInterrupted ++ lateResult))
    = returned (collectAsyncMetrics released login 1700000000000 1700000000001 fresh
                  loginInterrupted)
  ∧ listening (collectAsyncMetrics released login 1700000000000 1700000000001 fresh
                 (loginInterrupted ++ lateResult)) = false.
Proof.
  apply (returned_is_final released login 1700000000000 1700000000001 fresh
           loginInterrupted lateResult).
  vm_compute. discriminate.
Defined.

Lemma getPlatform_injective_linux :
  process_platform released = process_platform unbuilt.
Proof. apply (getPlatform_injective released unbuilt). reflexivity. Defined.

(** A login among the events of a prompt and of the session. *)
Lemma invocation_among_other_calls_login :
  ∃ (pre : list turn) (nowDuration nowSend : Z) (post : list turn)
    (started terminal : Request),
    loginAmongOthers = (pre ++ Own (Resumes nowDuration nowSend) :: post)%list
    ∧ returned (collectShared released login 1700000000000 1700000000001 fresh pre)
      = Pending
    ∧ started
      = {| payload := eventPayload released fresh (amplitude_event_id fresh) 1700000000001
                        (eventPrefix login ++ " started") (props login);
           sent := Pending |}
    ∧ terminal
      = {| payload :=
             eventPayload released fresh
               (amplitude_event_id fresh + 1 + Z.of_nat (length (otherCalls pre))) nowSend
               (eventPrefix login ++ " "
                ++ terminalPhase
                     (returned (collectShared released login 1700000000000 1700000000001
                                  fresh loginAmongOthers)))
               (terminalProperties login (contextProperties (ownTicks pre))
                  (getDuration nowDuration 1700000000000)
                  (returned (collectShared released login 1700000000000 1700000000001
                               fresh loginAmongOthers)));
           sent := Pending |}
    ∧ sharedDispatched released login 1700000000000 1700000000001 fresh loginAmongOthers
      = [started; terminal]
    ∧ events (reporter (collectShared released login 1700000000000 1700000000001 fresh
                          loginAmongOthers))
      = (events fresh
         ++ started :: issued released (advanced fresh 1 []) (otherCalls pre)
         ++ terminal
            :: issued released (advanced fresh (2 + length (otherCalls pre)) [])
                 (otherCalls post))%list
    ∧ amplitude_event_id
        (reporter (collectShared released login 1700000000000 1700000000001 fresh
                     loginAmongOthers))
      = (amplitude_event_id fresh + 2 + Z.of_nat (length (otherCalls loginAmongOthers)))%Z.
Proof.
  apply (invocation_among_other_calls released login 1700000000000 1700000000001 fresh
           loginAmongOthers);
    [reflexivity | reflexivity | vm_compute; discriminate].
Defined.

Example login_among_others_ids :
  eventId
    <$> events (reporter (collectShared released login 1700000000000 1700000000001 fresh
                            loginAmongOthers))
  = [Some (VNum (NInt 0)); Some (VNum (NInt 1)); Some (VNum (NInt 2));
     Some (VNum (NInt 3)); Some (VNum (NInt 4))]
  ∧ (Sparrow.event ∘ payload)
      <$> sharedDispatched released login 1700000000000 1700000000001 fresh
            loginAmongOthers
    = ["test c3 login started"; "test c3 login completed"].
Proof. split; reflexivity. Qed.

End LawsOnScenarios.

(** ** Further properties of [batchSplit] *)

Module D1Laws.
Import JS D1 D1Facts.


(** X18. With a batch size of one, every statement is its own batch:
    [batchSplit] returns the statements as they are. *)
Theorem batchSplit_one_by_one (queries : list string) :
  batchSplit queries 1 = Some queries.
Proof.
  unfold batchSplit.
  assert (Hn : Math_ceil_div (length queries) 1 = length queries).
  { unfold Math_ceil_div. rewrite Nat.mod_1_r, Nat.div_1_r. done. }
  rewrite Hn, batchSplit_loop_seq. cbn [app]. f_equal.
  apply list_eq. intros i. rewrite list_lookup_fmap.
  destruct (queries !! i) as [q |] eqn:Hq.
  - rewrite lookup_seq_lt by (by eapply lookup_lt_Some). simpl.
    rewrite slice_take_drop, Nat.mul_1_r, (drop_S _ _ _ Hq). done.
  - rewrite lookup_seq_ge; [done |]. by apply lookup_ge_None.
Qed.

End D1Laws.

(** ** Further properties of wrangler d1 execute *)

Module D1ExecuteLaws.
Import JS D1Execute.

(** *** [shorten] *)

Lemma length_append (s1 s2 : string) :
  String.length (s1 ++ s2) = (String.length s1 + String.length s2)%nat.
Proof.
  induction s1 as [| c s1 IH]; [done |].
  change (String c s1 ++ s2) with (String c (s1 ++ s2)). simpl. by rewrite IH.
Qed.

Lemma length_substring_0 (n : nat) (s : string) :
  String.length (String.substring 0 n s) = (n `min` String.length s)%nat.
Proof.
  revert s. induction n as [| n IH]; intros [| c s]; simpl; try done.
  by rewrite IH.
Qed.

Lemma substring_0_all (n : nat) (s : string) :
  (String.length s ≤ n)%nat → String.substring 0 n s = s.
Proof.
  revert s. induction n as [| n IH]; intros [| c s]; simpl; try done; try lia.
  intros H. rewrite IH; [done | lia].
Qed.

(** X19. [shorten] returns a query of at most [length] code units, and a
    missing query, as it is.  A longer query becomes its first [length]
    code units followed by three dots, [length + 3] code units in all. *)
Theorem shorten_keeps_or_cuts (q : string) (n : nat) :
  shorten None n = None
  ∧ ((String.length q ≤ n)%nat → shorten (Some q) n = Some q)
  ∧ ((n < String.length q)%nat →
     ∃ s, shorten (Some q) n = Some s
          ∧ String.length s = (n + 3)%nat
          ∧ (∀ p, (p < n)%nat → String.get p s = String.get p q)
          ∧ (∀ p, (n ≤ p)%nat → String.get p s = String.get (p - n) "...")).
Proof.
  split; [done |]. split.
  - intros Hle. unfold shorten.
    destruct (Nat.ltb_spec n (String.length q)); [lia |].
    by rewrite andb_false_r.
  - intros Hlt. unfold shorten, given.
    destruct (Nat.ltb_spec n (String.length q)); [| lia].
    destruct (String.eqb_spec q "") as [-> | _]; [simpl in Hlt; lia |].
    simpl. eexists. split; [done |].
    assert (Hlen : String.length (String.substring 0 n q) = n).
    { rewrite length_substring_0. lia. }
    split; [rewrite length_append, Hlen; done |]. split.
    + intros p Hp. rewrite <- String.append_correct1 by (rewrite Hlen; lia).
      rewrite String.substring_correct1 by done. f_equal. lia.
    + intros p Hp.
      replace p with ((p - n) + String.length (String.substring 0 n q))%nat at 1
        by (rewrite Hlen; lia).
      by rewrite <- String.append_correct2.
Qed.

(** *** The loop of [executeRemotely] *)

Section Loop.
Context (W : World) (resource : string) (db : Database) (multiple_batches : bool).

Local Abbreviation loop := (sendBatches W resource db multiple_batches).

Lemma sendBatches_cons (i : nat) (sql : string) (batches : list string)
    (results : list QueryResult) :
  loop i (sql :: batches) results
  = let line := if multiple_batches then [Log (Gray (batchLine sql))] else [] in
    match fetchResult W i resource (requestInit db sql) with
    | Returns result =>
        ((line ++ Fetch resource (requestInit db sql) :: Log (Executed result)
               :: fst (loop (S i) batches (results ++ result)))%list,
         snd (loop (S i) batches (results ++ result)%list))
    | Throws e => ((line ++ [Fetch resource (requestInit db sql)])%list, Throws e)
    | Diverges => ((line ++ [Fetch resource (requestInit db sql)])%list, Diverges)
    end.
Proof.
  cbn [sendBatches]. unfold mbind, M_bind, when, emit, call, mret, M_ret.
  destruct multiple_batches, (fetchResult W i resource (requestInit db sql)); simpl;
    try done;
    by destruct (sendBatches W resource db _ (S i) batches _).
Qed.

Lemma fetchedSql_line (sql : string) (effects : list Effect) :
  fetchedSql ((if multiple_batches then [Log (Gray (batchLine sql))] else []) ++ effects)
  = fetchedSql effects.
Proof. by destruct multiple_batches. Qed.

(** The loop sends the batches in order and stops at the first request
    that does not return. *)
Lemma sendBatches_sent (i : nat) (batches : list string) (results : list QueryResult) :
  ∃ k : nat,
    fetchedSql (fst (loop i batches results)) = sqlBody <$> take k batches
    ∧ match snd (loop i batches results) with
      | Returns all =>
          k = length batches
          ∧ all = (results ++ concat (answers W resource db i batches))%list
      | Throws e =>
          ∃ j sql, k = S j ∧ batches !! j = Some sql
                   ∧ fetchResult W (i + j) resource (requestInit db sql) = Throws e
      | Diverges =>
          ∃ j sql, k = S j ∧ batches !! j = Some sql
                   ∧ fetchResult W (i + j) resource (requestInit db sql) = Diverges
      end.
Proof.
  revert i results. induction batches as [| sql batches IH]; intros i results.
  { exists 0%nat. simpl. by rewrite app_nil_r. }
  rewrite sendBatches_cons. cbn zeta. cbn [answers].
  destruct (fetchResult W i resource (requestInit db sql)) as [result | e |] eqn:Hf.
  - destruct (IH (S i) (results ++ result)%list) as (k & Hk & Hout).
    exists (S k). cbn [fst snd]. rewrite fetchedSql_line. split.
    { cbn [fetchedSql omap list_omap take fmap list_fmap body requestInit].
      f_equal. exact Hk. }
    destruct (snd (loop (S i) batches (results ++ result)%list)) as [all | e |].
    + destruct Hout as [-> ->]. split; [done |]. by rewrite <- app_assoc.
    + destruct Hout as (j & sql' & -> & Hj & Hfj).
      exists (S j), sql'. repeat split; try done.
      by replace (i + S j)%nat with (S i + j)%nat by lia.
    + destruct Hout as (j & sql' & -> & Hj & Hfj).
      exists (S j), sql'. repeat split; try done.
      by replace (i + S j)%nat with (S i + j)%nat by lia.
  - exists 1%nat. cbn [fst snd]. rewrite fetchedSql_line. split; [done |].
    exists 0%nat, sql. rewrite Nat.add_0_r. by repeat split.
  - exists 1%nat. cbn [fst snd]. rewrite fetchedSql_line. split; [done |].
    exists 0%nat, sql. rewrite Nat.add_0_r. by repeat split.
Qed.

(** All the loop does is log and send requests for batches to the one
    resource. *)
Lemma sendBatches_effects (i : nat) (batches : list string) (results : list QueryResult) :
  Forall (λ e, (∃ m, e = Log m ∧ prints e = false)
               ∨ ∃ sql, sql ∈ batches ∧ e = Fetch resource (requestInit db sql))
         (fst (loop i batches results)).
Proof.
  revert i results. induction batches as [| sql batches IH]; intros i results.
  { constructor. }
  rewrite sendBatches_cons. cbn zeta.
  assert (Hline : Forall (λ e, (∃ m, e = Log m ∧ prints e = false)
                   ∨ ∃ sql', sql' ∈ sql :: batches ∧ e = Fetch resource (requestInit db sql'))
                  (if multiple_batches then [Log (Gray (batchLine sql))] else [])).
  { destruct multiple_batches; [| constructor].
    constructor; [left; eauto | constructor]. }
  assert (Hfetch : (λ e, (∃ m, e = Log m ∧ prints e = false)
                   ∨ ∃ sql', sql' ∈ sql :: batches ∧ e = Fetch resource (requestInit db sql'))
                  (Fetch resource (requestInit db sql))).
  { right. exists sql. split; [apply elem_of_cons; by left | done]. }
  destruct (fetchResult W i resource (requestInit db sql)) as [result | e |];
    cbn [fst]; apply Forall_app; (split; [exact Hline |]).
  - constructor; [exact Hfetch |]. constructor; [left; eauto |].
    eapply Forall_impl; [apply IH |].
    intros e [Hlog | (sql' & Hin & ->)]; [by left | right].
    exists sql'. split; [apply elem_of_cons; by right | done].
  - by constructor.
  - by constructor.
Qed.

End Loop.

(** *** [executeRemotely] *)

(** Every element of a list that is written out has the property. *)
Local Ltac listed :=
  simpl; repeat (apply Forall_cons; split; [by eauto 6 |]); by apply Forall_nil.

Section Remote.
Context (W : World) (name : string) (shouldPrompt : option bool)
  (batches : list string) (json preview : option bool).

Local Abbreviation remote := (executeRemotely W name shouldPrompt batches json preview).
Local Abbreviation send := (executeRemotely_send W name batches preview).

(** [executeRemotely] from [requireAuth] on: it stops before the loop, with
    nothing sent, or it runs the loop. *)
Lemma executeRemotely_send_cases (multiple_batches : bool) :
  (fetchedSql (fst (send multiple_batches)) = []
   ∧ (∀ result, snd (send multiple_batches) ≠ Returns result)
   ∧ Forall (λ e, e = RequireAuth ∨ (∃ accountId, e = GetDatabase accountId name)
                  ∨ e = LogError DefinePreviewId)
            (fst (send multiple_batches)))
  ∨ ∃ accountId db,
      requireAuth W = Returns accountId
      ∧ getDatabaseByNameOrBinding W accountId name = Returns db
      ∧ flag preview && negb (given (previewDatabaseUuid db)) = false
      ∧ fst (send multiple_batches)
        = ([RequireAuth; GetDatabase accountId name;
            Log (ExecutingOnRemote name (dbUuid preview db)); Log PassLocalFlag]
           ++ fst (sendBatches W (queryResource accountId (dbUuid preview db)) db
                     multiple_batches 0 batches []))%list
      ∧ snd (send multiple_batches)
        = match snd (sendBatches W (queryResource accountId (dbUuid preview db)) db
                       multiple_batches 0 batches []) with
          | Returns results => Returns (Some results)
          | Throws e => Throws e
          | Diverges => Diverges
          end.
Proof.
  unfold executeRemotely_send, mbind, M_bind, call, emit, throw, mret, M_ret.
  destruct (requireAuth W) as [accountId | e |] eqn:Hauth;
    [| left; split; [done |]; split; [done |]; listed ..].
  destruct (getDatabaseByNameOrBinding W accountId name) as [db | e |] eqn:Hdb;
    [| left; split; [done |]; split; [done |]; listed ..].
  destruct (flag preview && negb (given (previewDatabaseUuid db))) eqn:Hpreview.
  { left. split; [done |]. split; [done |]. listed. }
  right. exists accountId, db. cbn zeta.
  destruct (sendBatches W _ db multiple_batches 0 batches []) as [effects out].
  split; [done |]. split; [done |]. split; [done |].
  destruct out; simpl; rewrite ?app_nil_r; done.
Qed.

(** [executeRemotely]: the user is asked and declines, the prompt does not
    return an answer, or the rest runs after the prompt, after the warning,
    or at once. *)
Lemma executeRemotely_cases :
  let asks := (1 <? length batches)%nat && negb (flag json) && flag shouldPrompt in
  (asks = true ∧ confirm W = Returns false
   ∧ remote = ([Confirm (length batches)], Returns None))
  ∨ (asks = true ∧ (∀ ok, confirm W ≠ Returns ok)
     ∧ fst remote = [Confirm (length batches)]
     ∧ ∀ result, snd remote ≠ Returns result)
  ∨ ∃ before,
      fst remote = (before ++ fst (send (1 <? length batches)%nat))%list
      ∧ snd remote = snd (send (1 <? length batches)%nat)
      ∧ ((asks = true ∧ confirm W = Returns true
          ∧ before = [Confirm (length batches); Log LetsGo])
         ∨ (asks = false ∧ before = [LogError (TooMuchSql (length batches))])
         ∨ (asks = false ∧ before = [])).
Proof.
  cbn zeta. unfold executeRemotely, mbind, M_bind, call, emit, mret, M_ret.
  destruct ((1 <? length batches)%nat && negb (flag json)) eqn:Hwarn; simpl.
  - destruct (flag shouldPrompt); simpl.
    + destruct (confirm W) as [[|] | e |] eqn:Hconfirm; simpl.
      * right; right. destruct (send (1 <? length batches)%nat) as [effects out].
        exists [Confirm (length batches); Log LetsGo].
        split; [done |]. split; [done |]. left. by repeat split.
      * left. by repeat split.
      * right; left. by repeat split.
      * right; left. by repeat split.
    + right; right. destruct (send (1 <? length batches)%nat) as [effects out].
      exists [LogError (TooMuchSql (length batches))].
      split; [done |]. split; [done |]. right; left. by split.
  - right; right. exists []. split; [done |]. split; [done |]. right; right. by split.
Qed.

Lemma fetchedSql_app (effects1 effects2 : list Effect) :
  fetchedSql (effects1 ++ effects2) = (fetchedSql effects1 ++ fetchedSql effects2)%list.
Proof. apply omap_app. Qed.

(** What [executeRemotely] has sent is what its loop has sent. *)
Lemma executeRemotely_sent :
  fetchedSql (fst remote) = []
  ∧ (∀ result, snd remote ≠ Returns (Some result))
  ∧ (∀ resource init, Fetch resource init ∉ fst remote)
  ∨ ∃ accountId db,
      requireAuth W = Returns accountId
      ∧ getDatabaseByNameOrBinding W accountId name = Returns db
      ∧ flag preview && negb (given (previewDatabaseUuid db)) = false
      ∧ fetchedSql (fst remote)
        = fetchedSql (fst (sendBatches W (queryResource accountId (dbUuid preview db)) db
                             (1 <? length batches)%nat 0 batches []))
      ∧ (∀ resource init,
           Fetch resource init ∈ fst remote →
           Fetch resource init
           ∈ fst (sendBatches W (queryResource accountId (dbUuid preview db)) db
                    (1 <? length batches)%nat 0 batches []))
      ∧ snd remote
        = match snd (sendBatches W (queryResource accountId (dbUuid preview db)) db
                       (1 <? length batches)%nat 0 batches []) with
          | Returns results => Returns (Some results)
          | Throws e => Throws e
          | Diverges => Diverges
          end.
Proof.
  destruct executeRemotely_cases
    as [(_ & _ & ->) | [(_ & _ & -> & Hout) | (before & -> & -> & Hbefore)]].
  - left. repeat split; [done |]. intros resource init Hin.
    apply list_elem_of_singleton in Hin. done.
  - left. repeat split; [intros result; apply Hout |]. intros resource init Hin.
    apply list_elem_of_singleton in Hin. done.
  - assert (Hquiet : fetchedSql before = []
                     ∧ ∀ resource init, Fetch resource init ∉ before).
    { destruct Hbefore as [(_ & _ & ->) | [(_ & ->) | (_ & ->)]];
        (split; [done |]); intros resource init Hin;
        repeat (apply elem_of_cons in Hin as [Hin | Hin]; [done |]);
        by apply elem_of_nil in Hin. }
    destruct Hquiet as [Hnone Hnot].
    destruct (executeRemotely_send_cases (1 <? length batches)%nat)
      as [(Hsent & Hout & Heff) | (accountId & db & Hauth & Hdb & Hpreview & Hfst & Hsnd)].
    + left. rewrite fetchedSql_app, Hnone, Hsent. repeat split; [done |].
      intros resource init Hin. apply elem_of_app in Hin as [Hin | Hin].
      * by apply (Hnot resource init).
      * rewrite Forall_forall in Heff.
        by destruct (Heff _ Hin) as [H | [[a H] | H]].
    + right. exists accountId, db. rewrite fetchedSql_app, Hnone, Hfst, Hsnd.
      repeat split; try done.
      intros resource init Hin. apply elem_of_app in Hin as [Hin | Hin].
      * by destruct (Hnot resource init).
      * repeat (apply elem_of_cons in Hin as [Hin | Hin]; [done |]). done.
Qed.

(** X20. Whatever the surroundings answer, the requests [executeRemotely]
    has sent are the first batches in their order: no batch is sent out of
    order, twice, or after one that was skipped. *)
Theorem requests_in_batch_order :
  fetchedSql (fst remote) `prefix_of` sqlBody <$> batches.
Proof.
  destruct executeRemotely_sent
    as [(-> & _) | (accountId & db & _ & _ & _ & -> & _)]; [apply prefix_nil |].
  destruct (sendBatches_sent W (queryResource accountId (dbUuid preview db)) db
              (1 <? length batches)%nat 0 batches []) as (k & -> & _).
  rewrite fmap_take. apply prefix_take.
Qed.

Lemma executeRemotely_returned (results : list QueryResult) :
  snd remote = Returns (Some results) →
  fetchedSql (fst remote) = sqlBody <$> batches.
Proof.
  intros Hreturn.
  destruct executeRemotely_sent
    as [(_ & Hnot & _) | (accountId & db & _ & _ & _ & Hsent & _ & Hout)];
    [by destruct (Hnot results) |].
  destruct (sendBatches_sent W (queryResource accountId (dbUuid preview db)) db
              (1 <? length batches)%nat 0 batches []) as (k & Hk & Hloop).
  rewrite Hsent, Hk. rewrite Hout in Hreturn.
  destruct (snd (sendBatches W _ db _ 0 batches [])) as [all | e |]; try done.
  destruct Hloop as [-> _]. by rewrite firstn_all.
Qed.

(** X21. When [executeRemotely] returns results, every batch was sent, to
    the database of the account the surroundings named, and the results
    are the answers to the batches put together in the order of the
    batches. *)
Theorem all_batches_sent_on_return (results : list QueryResult) :
  snd remote = Returns (Some results) →
  ∃ accountId db,
    requireAuth W = Returns accountId
    ∧ getDatabaseByNameOrBinding W accountId name = Returns db
    ∧ fetchedSql (fst remote) = sqlBody <$> batches
    ∧ results
      = concat (answers W (queryResource accountId (dbUuid preview db)) db 0 batches).
Proof.
  intros Hreturn.
  destruct executeRemotely_sent
    as [(_ & Hnot & _) | (accountId & db & Hauth & Hdb & _ & Hsent & _ & Hout)];
    [by destruct (Hnot results) |].
  exists accountId, db. split; [done |]. split; [done |].
  destruct (sendBatches_sent W (queryResource accountId (dbUuid preview db)) db
              (1 <? length batches)%nat 0 batches []) as (k & Hk & Hloop).
  rewrite Hsent, Hk. rewrite Hout in Hreturn.
  destruct (snd (sendBatches W _ db _ 0 batches [])) as [all | e |]; try done.
  destruct Hloop as [-> ->]. injection Hreturn as <-.
  by rewrite firstn_all.
Qed.

(** X22. When [executeRemotely] throws after it has sent a request, what
    it throws is what the last request sent was answered with, and the
    batches up to and including that one were sent: none after it. *)
Theorem failed_batch_stops (e : thrown) :
  snd remote = Throws e →
  fetchedSql (fst remote) ≠ [] →
  ∃ accountId db (j : nat) (sql : string),
    requireAuth W = Returns accountId
    ∧ getDatabaseByNameOrBinding W accountId name = Returns db
    ∧ batches !! j = Some sql
    ∧ fetchResult W j (queryResource accountId (dbUuid preview db)) (requestInit db sql)
      = Throws e
    ∧ fetchedSql (fst remote) = sqlBody <$> take (S j) batches.
Proof.
  intros Hthrow Hsome.
  destruct executeRemotely_sent
    as [(Hnone & _) | (accountId & db & Hauth & Hdb & _ & Hsent & _ & Hout)];
    [done |].
  destruct (sendBatches_sent W (queryResource accountId (dbUuid preview db)) db
              (1 <? length batches)%nat 0 batches []) as (k & Hk & Hloop).
  rewrite Hout in Hthrow.
  destruct (snd (sendBatches W _ db _ 0 batches [])) as [all | e' |]; try done.
  injection Hthrow as ->.
  destruct Hloop as (j & sql & -> & Hj & Hf).
  exists accountId, db, j, sql. rewrite Hsent, Hk. by repeat split.
Qed.

(** X23. [executeRemotely] asks the user exactly when there is more than
    one batch, the output is not JSON and prompting is on, and it asks
    about the number of batches; it returns [null] exactly when it asked
    and the answer was no, and then it has done nothing else: no
    authentication, no request. *)
Theorem asks_before_many_batches :
  (∀ n, Confirm n ∈ fst remote
        ↔ n = length batches
          ∧ (1 <? length batches)%nat && negb (flag json) && flag shouldPrompt = true)
  ∧ (snd remote = Returns None
     ↔ (1 <? length batches)%nat && negb (flag json) && flag shouldPrompt = true
       ∧ confirm W = Returns false)
  ∧ (snd remote = Returns None → fst remote = [Confirm (length batches)]).
Proof.
  assert (Hsend : ∀ mb, snd (send mb) ≠ Returns None
                        ∧ ∀ n, Confirm n ∉ fst (send mb)).
  { intros mb.
    destruct (executeRemotely_send_cases mb)
      as [(_ & Hout & Heff) | (accountId & db & _ & _ & _ & Hfst & Hsnd)].
    - split; [apply Hout |]. intros n Hin.
      rewrite Forall_forall in Heff.
      by destruct (Heff _ Hin) as [H | [[a H] | H]].
    - split.
      + rewrite Hsnd. by destruct (snd (sendBatches W _ db mb 0 batches [])).
      + intros n Hin. rewrite Hfst in Hin.
        repeat (apply elem_of_cons in Hin as [Hin | Hin]; [done |]).
        pose proof (sendBatches_effects W (queryResource accountId (dbUuid preview db))
                      db mb 0 batches []) as Heff.
        rewrite Forall_forall in Heff.
        destruct (Heff _ Hin) as [(m & Hm & _) | (sql & _ & Hf)]; done. }
  destruct executeRemotely_cases
    as [(Hasks & Hno & ->) | [(Hasks & Hnone & Hfst & Hout) | (before & Hfst & Hsnd & Hbefore)]].
  - cbn [fst snd]. rewrite Hasks. split; [| by split].
    intros n. rewrite list_elem_of_singleton. split; [by intros [= ->] | by intros [-> _]].
  - rewrite Hfst, Hasks. split; [| split].
    + intros n. rewrite list_elem_of_singleton.
      split; [by intros [= ->] | by intros [-> _]].
    + split; [intros H; by destruct (Hout None) | intros [_ H]; by destruct (Hnone false)].
    + intros H. by destruct (Hout None).
  - destruct (Hsend (1 <? length batches)%nat) as [Hnot Hquiet].
    rewrite Hfst, Hsnd. split; [| split].
    + intros n. rewrite elem_of_app.
      destruct Hbefore as [(-> & _ & ->) | [(-> & ->) | (-> & ->)]].
      * split; [| intros [-> _]; left; apply elem_of_cons; by left].
        intros [Hin | Hin]; [| by destruct (Hquiet n)].
        apply elem_of_cons in Hin as [[= ->] | Hin]; [done |].
        apply list_elem_of_singleton in Hin. done.
      * split; [| by intros [_ ?]].
        intros [Hin | Hin]; [| by destruct (Hquiet n)].
        apply list_elem_of_singleton in Hin. done.
      * split; [| by intros [_ ?]].
        intros [Hin | Hin]; [| by destruct (Hquiet n)].
        by apply elem_of_nil in Hin.
    + split; [done |]. intros [Hasks Hno].
      destruct Hbefore as [(_ & Hyes & _) | [(Hasks' & _) | (Hasks' & _)]]; congruence.
    + done.
Qed.

(** X24. Every request [executeRemotely] sends is a POST for one of the
    batches to the query resource of the account the surroundings named
    and of one database: with [preview] the database's preview id, which
    is then defined and not empty, and without it the database's id. *)
Theorem requests_target (resource : string) (init : RequestInit) :
  Fetch resource init ∈ fst remote →
  ∃ accountId db sql,
    requireAuth W = Returns accountId
    ∧ getDatabaseByNameOrBinding W accountId name = Returns db
    ∧ sql ∈ batches
    ∧ init = requestInit db sql
    ∧ method init = "POST"
    ∧ body init = sqlBody sql
    ∧ resource = queryResource accountId (dbUuid preview db)
    ∧ (if flag preview
       then previewDatabaseUuid db = Some (dbUuid preview db) ∧ dbUuid preview db ≠ ""
       else dbUuid preview db = uuid db).
Proof.
  intros Hin.
  destruct executeRemotely_sent
    as [(_ & _ & Hnot) | (accountId & db & Hauth & Hdb & Hpreview & _ & Hloop & _)];
    [by destruct (Hnot resource init) |].
  apply Hloop in Hin.
  pose proof (sendBatches_effects W (queryResource accountId (dbUuid preview db))
                db (1 <? length batches)%nat 0 batches []) as Heff.
  rewrite Forall_forall in Heff.
  destruct (Heff _ Hin) as [(m & Hm & _) | (sql & Hsql & [= -> ->])]; [done |].
  exists accountId, db, sql. repeat split; try done.
  unfold dbUuid. destruct (flag preview); [| done]. simpl in Hpreview.
  apply negb_false_iff in Hpreview. unfold given in Hpreview.
  destruct (previewDatabaseUuid db) as [id |]; [| done].
  split; [done |]. intros ->. done.
Qed.

(** [executeRemotely] neither sets the level of the logger nor prints
    the response. *)
Lemma executeRemotely_quiet :
  Forall (λ e, setsLevel e = false ∧ prints e = false) (fst remote).
Proof.
  assert (Hsend : ∀ mb, Forall (λ e, setsLevel e = false ∧ prints e = false)
                               (fst (send mb))).
  { intros mb.
    destruct (executeRemotely_send_cases mb)
      as [(_ & _ & Heff) | (accountId & db & _ & _ & _ & -> & _)].
    - eapply Forall_impl; [exact Heff |].
      by intros e [-> | [[a ->] | ->]].
    - apply Forall_app. split; [listed |].
      eapply Forall_impl; [apply sendBatches_effects |].
      by intros e [(m & -> & Hp) | (sql & _ & ->)]. }
  destruct executeRemotely_cases
    as [(_ & _ & ->) | [(_ & _ & -> & _) | (before & -> & _ & Hbefore)]];
    [listed | listed |].
  apply Forall_app. split; [| apply Hsend].
  destruct Hbefore as [(_ & _ & ->) | [(_ & ->) | (_ & ->)]]; listed.
Qed.

End Remote.

(** *** [executeSql] *)

Lemma bind_pair {A B} (m : M A) (k : A → M B) :
  m ≫= k
  = match snd m with
    | Returns a => ((fst m ++ fst (k a))%list, snd (k a))
    | Throws e => (fst m, Throws e)
    | Diverges => (fst m, Diverges)
    end.
Proof.
  destruct m as [effects [a | e |]]; simpl; try done.
  unfold mbind, M_bind. by destruct (k a).
Qed.

Local Ltac stopped log :=
  left; split; [done | exists log; split; [by rewrite ?app_nil_r | auto]].

Section Sql.
Context (W : World) (existingLogLevel : string) (local : option bool) (name : string)
  (shouldPrompt : option bool) (persistTo file command : option string)
  (json preview : option bool).

Local Abbreviation sql_of batchSize :=
  (executeSql W existingLogLevel local name shouldPrompt persistTo file command
     json preview batchSize).
Local Abbreviation execute_of batchSize :=
  (execute W local name shouldPrompt persistTo json preview batchSize).

Lemma readSql_cases :
  (given file = true
   ∧ ∃ f, file = Some f ∧ fst (readSql W file command) = [ReadFile f]
          ∧ snd (readSql W file command)
            = match readFileSync W f with
              | Returns sql => Returns (Some sql)
              | Throws e => Throws e
              | Diverges => Diverges
              end)
  ∨ (given file = false ∧ readSql W file command = ([], Returns command)).
Proof.
  unfold readSql. destruct file as [f |]; [| by right].
  destruct (given (Some f)) eqn:Hgiven; [| by right].
  left. split; [done |]. exists f. split; [done |].
  rewrite bind_pair. unfold call. simpl.
  by destruct (readFileSync W f).
Qed.

(** [executeSql] stops before it executes anything, or it executes the
    statements of the SQL it was given. *)
Lemma executeSql_cases (batchSize : nat) :
  ((∀ result, snd (sql_of batchSize) ≠ Returns result)
   ∧ ∃ log, fst (sql_of batchSize)
            = ((if flag json then [SetLoggerLevel "error"] else [])
               ++ fst (readSql W file command) ++ log)%list
            ∧ (log = [] ∨ log = [Log Mapping]))
  ∨ ∃ sql queries,
      snd (readSql W file command) = Returns (Some sql)
      ∧ sql ≠ ""
      ∧ flag preview && flag local = false
      ∧ given persistTo && negb (flag local) = false
      ∧ splitSqlQuery W sql = Returns queries
      ∧ (given file = true →
         ∃ first rest, queries = first :: rest
                       ∧ String.prefix "SQLite format 3" first = false)
      ∧ fst (sql_of batchSize)
        = ((if flag json then [SetLoggerLevel "error"] else [])
           ++ fst (readSql W file command) ++ [Log Mapping]
           ++ fst (execute_of batchSize queries)
           ++ match snd (execute_of batchSize queries) with
              | Returns _ => if flag json then [SetLoggerLevel existingLogLevel] else []
              | _ => []
              end)%list
      ∧ snd (sql_of batchSize) = snd (execute_of batchSize queries).
Proof.
  unfold executeSql. rewrite bind_pair.
  assert (Hwhen : ∀ e, when (flag json) (emit e)
                       = (if flag json then [e] else [], Returns ())).
  { intros e. by destruct (flag json). }
  rewrite !Hwhen. cbn [fst snd]. rewrite bind_pair.
  destruct (snd (readSql W file command)) as [[sql |] | e |] eqn:Hread;
    cbn [fst snd throw]; try (stopped (@nil Effect)).
  destruct (given (Some sql)) eqn:Hsql; cbn [negb throw fst snd];
    [| stopped (@nil Effect)].
  destruct (flag preview && flag local) eqn:Hpl; cbn [throw fst snd];
    [stopped (@nil Effect) |].
  destruct (given persistTo && negb (flag local)) eqn:Hpt; cbn [throw fst snd];
    [stopped (@nil Effect) |].
  rewrite bind_pair. cbn [emit fst snd]. rewrite bind_pair. cbn [fst snd].
  destruct (splitSqlQuery W sql) as [queries | e |] eqn:Hsplit;
    cbn [fst snd app]; [| stopped [Log Mapping] ..].
  rewrite bind_pair.
  assert (Hchecked :
            (∃ e, when (given file && true)
                    match queries with
                    | [] => throw (undefinedStartsWith W)
                    | first :: _ =>
                        if String.prefix "SQLite format 3" first
                        then throw (newError W binaryFileMessage)
                        else mret ()
                    end = ([], Throws e))
            ∨ (when (given file && true)
                 match queries with
                 | [] => throw (undefinedStartsWith W)
                 | first :: _ =>
                     if String.prefix "SQLite format 3" first
                     then throw (newError W binaryFileMessage)
                     else mret ()
                 end = ([], Returns ())
               ∧ (given file = true →
                  ∃ first rest, queries = first :: rest
                                ∧ String.prefix "SQLite format 3" first = false))).
  { destruct (given file); cbn [andb when]; [| by right].
    destruct queries as [| first rest]; [left; by eexists |].
    destruct (String.prefix "SQLite format 3" first) eqn:Hprefix; [left; by eexists |].
    right. split; [done |]. intros _. by exists first, rest. }
  destruct Hchecked as [[e ->] | [-> Hfirst]]; cbn [fst snd app];
    [stopped [Log Mapping] |].
  right. exists sql, queries.
  split; [done |]. split; [by intros -> |].
  split; [done |]. split; [done |]. split; [done |]. split; [done |].
  rewrite bind_pair.
  destruct (snd (execute_of batchSize queries)) as [result | e |]; cbn [fst snd];
    rewrite ?Hwhen, ?bind_pair; cbn [fst snd mret M_ret]; by rewrite ?app_nil_r.
Qed.

Lemma batchSplit_cases (queries : list string) (batchSize : nat) :
  (D1.batchSplit queries batchSize = None
   ∧ batchSplit queries batchSize = ([Log (Parsing (length queries))], Diverges))
  ∨ ∃ batches logs,
      D1.batchSplit queries batchSize = Some batches
      ∧ batchSplit queries batchSize = (logs, Returns batches)
      ∧ Forall (λ e, ∃ m, e = Log m ∧ prints e = false) logs.
Proof.
  unfold batchSplit. rewrite bind_pair. cbn [emit fst snd].
  destruct (D1.batchSplit queries batchSize) as [batches |]; [| by left].
  right. rewrite bind_pair.
  destruct (1 <? D1.Math_ceil_div (length queries) batchSize)%nat;
    eexists _, _; (split; [done |]); (split; [done |]); listed.
Qed.

(** The executing statement: a local execution, a batch split that does
    not end, or a remote execution of the batches. *)
Lemma execute_cases (batchSize : nat) (queries : list string) :
  (flag local = true
   ∧ execute_of batchSize queries
     = ([ExecuteLocally name queries persistTo],
        executeLocally W name queries persistTo))
  ∨ (flag local = false
     ∧ D1.batchSplit queries batchSize = None
     ∧ execute_of batchSize queries = ([Log (Parsing (length queries))], Diverges))
  ∨ ∃ batches logs,
      flag local = false
      ∧ D1.batchSplit queries batchSize = Some batches
      ∧ Forall (λ e, ∃ m, e = Log m ∧ prints e = false) logs
      ∧ fst (execute_of batchSize queries)
        = (logs ++ fst (executeRemotely W name shouldPrompt batches json preview))%list
      ∧ snd (execute_of batchSize queries)
        = snd (executeRemotely W name shouldPrompt batches json preview).
Proof.
  unfold execute. destruct (flag local); [by left |]. right.
  rewrite bind_pair.
  destruct (batchSplit_cases queries batchSize)
    as [(Hnone & ->) | (batches & logs & Hsome & -> & Hlogs)]; [by left |].
  right. exists batches, logs. by repeat split.
Qed.

Lemma readSql_effects :
  Forall (λ e, ∃ f, e = ReadFile f) (fst (readSql W file command)).
Proof.
  destruct readSql_cases as [(_ & f & _ & -> & _) | (_ & ->)]; listed.
Qed.

Lemma readSql_source (sql : string) :
  snd (readSql W file command) = Returns (Some sql) →
  (given file = true ∧ ∃ f, file = Some f ∧ readFileSync W f = Returns sql)
  ∨ (given file = false ∧ command = Some sql).
Proof.
  destruct readSql_cases as [(Hgiven & f & Hfile & _ & ->) | (Hgiven & ->)].
  - intros Hread. left. split; [done |]. exists f. split; [done |].
    by destruct (readFileSync W f); simplify_eq.
  - intros [= ->]. by right.
Qed.

Lemma fetchedSql_none (effects : list Effect) :
  Forall (λ e, remoteStep e = false) effects → fetchedSql effects = [].
Proof.
  induction 1 as [| e effects He _ IH]; [done |].
  unfold fetchedSql in *. cbn [omap list_omap]. rewrite IH. by destruct e.
Qed.

(** X25. When [executeSql] returns results of a remote execution, the
    SQL came from the file if one was named and else from the command, and
    the requests sent carry, in order, the batches [batchSplit] makes of
    the statements the splitter found in it. *)
Theorem remote_execution_sends_the_batches (batchSize : nat)
    (results : list QueryResult) :
  flag local = false →
  snd (sql_of batchSize) = Returns (Some results) →
  ∃ sql queries batches,
    ((given file = true ∧ ∃ f, file = Some f ∧ readFileSync W f = Returns sql)
     ∨ (given file = false ∧ command = Some sql))
    ∧ splitSqlQuery W sql = Returns queries
    ∧ D1.batchSplit queries batchSize = Some batches
    ∧ fetchedSql (fst (sql_of batchSize)) = sqlBody <$> batches.
Proof.
  intros Hlocal Hreturn.
  destruct (executeSql_cases batchSize)
    as [(Hnot & _) | (sql & queries & Hread & _ & _ & _ & Hsplit & _ & Hfst & Hsnd)];
    [by destruct (Hnot (Some results)) |].
  rewrite Hsnd in Hreturn.
  destruct (execute_cases batchSize queries)
    as [(Hl & _) | [(_ & _ & Hdiv) | (batches & logs & _ & Hsome & Hlogs & Hefst & Hesnd)]];
    [congruence | by rewrite Hdiv in Hreturn |].
  exists sql, queries, batches.
  split; [by apply readSql_source |]. split; [done |]. split; [done |].
  rewrite Hesnd in Hreturn.
  pose proof (executeRemotely_returned W name shouldPrompt batches json preview results
                Hreturn) as Hsent.
  rewrite Hfst, Hefst, !fetchedSql_app, Hsent.
  rewrite (fetchedSql_none (if flag json then _ else _)) by (destruct (flag json); listed).
  rewrite (fetchedSql_none (fst (readSql W file command))).
  2: { eapply Forall_impl; [apply readSql_effects |]. by intros e [f ->]. }
  rewrite (fetchedSql_none logs).
  2: { eapply Forall_impl; [exact Hlogs |]. by intros e (m & -> & _). }
  rewrite (fetchedSql_none (match snd (execute_of batchSize queries) with
                            | Returns _ => _ | _ => _ end)).
  2: { destruct (snd (execute_of batchSize queries)), (flag json); listed. }
  simpl. by rewrite app_nil_r.
Qed.

Lemma executeSql_before_execute (batchSize : nat) :
  Forall (λ e, reaches e = false ∧ ∀ level, e ≠ SetLoggerLevel level)
         (fst (readSql W file command)).
Proof.
  eapply Forall_impl; [apply readSql_effects |]. by intros e [f ->].
Qed.

(** X26. With [local] set, [executeSql] takes no step of a remote
    execution (no prompt, no authentication, no request), the batch size
    makes no difference to anything it does, and what it hands to
    [executeLocally] is the database name, the statements the splitter
    found in the SQL, unbatched, and the persistence directory. *)
Theorem local_execution_stays_local (batchSize batchSize' : nat) :
  flag local = true →
  sql_of batchSize = sql_of batchSize'
  ∧ Forall (λ e, remoteStep e = false) (fst (sql_of batchSize))
  ∧ ∀ name' queries persistTo',
      ExecuteLocally name' queries persistTo' ∈ fst (sql_of batchSize) →
      name' = name ∧ persistTo' = persistTo
      ∧ ∃ sql,
          ((given file = true ∧ ∃ f, file = Some f ∧ readFileSync W f = Returns sql)
           ∨ (given file = false ∧ command = Some sql))
          ∧ splitSqlQuery W sql = Returns queries.
Proof.
  intros Hlocal. split.
  { unfold executeSql, execute. rewrite Hlocal. reflexivity. }
  assert (Hlevel : ∀ l, Forall (λ e, remoteStep e = false)
                          (if flag json then [SetLoggerLevel l] else [])).
  { intros l. destruct (flag json); listed. }
  assert (Hread : Forall (λ e, remoteStep e = false) (fst (readSql W file command))).
  { eapply Forall_impl; [apply readSql_effects |]. by intros e [f ->]. }
  destruct (executeSql_cases batchSize)
    as [(_ & log & -> & Hlog)
       | (sql & queries & Hsql & _ & _ & _ & Hsplit & _ & -> & _)].
  - split.
    + rewrite !Forall_app. split; [apply Hlevel |]. split; [done |].
      destruct Hlog as [-> | ->]; listed.
    + intros n q p Hin. exfalso.
      rewrite !elem_of_app in Hin. destruct Hin as [Hin | [Hin | Hin]].
      * destruct (flag json); [| by apply elem_of_nil in Hin].
        by apply list_elem_of_singleton in Hin.
      * pose proof readSql_effects as Heff. rewrite Forall_forall in Heff.
        by destruct (Heff _ Hin) as [f ?].
      * destruct Hlog as [-> | ->]; [by apply elem_of_nil in Hin |].
        by apply list_elem_of_singleton in Hin.
  - destruct (execute_cases batchSize queries)
      as [(_ & ->) | [(Hl & _) | (? & ? & Hl & _)]]; [| congruence ..].
    cbn [fst snd]. split.
    + rewrite !Forall_app. split; [apply Hlevel |]. split; [done |].
      split; [listed |]. split; [listed |].
      destruct (executeLocally W name queries persistTo); [apply Hlevel | listed ..].
    + intros n q p Hin.
      rewrite !elem_of_app in Hin. destruct Hin as [Hin | [Hin | [Hin | [Hin | Hin]]]].
      * destruct (flag json); [| by apply elem_of_nil in Hin].
        by apply list_elem_of_singleton in Hin.
      * pose proof readSql_effects as Heff. rewrite Forall_forall in Heff.
        by destruct (Heff _ Hin) as [f ?].
      * by apply list_elem_of_singleton in Hin.
      * apply list_elem_of_singleton in Hin. injection Hin as -> -> ->.
        split; [done |]. split; [done |]. exists sql. split; [| done].
        by apply readSql_source.
      * destruct (executeLocally W name queries persistTo), (flag json);
          try (by apply elem_of_nil in Hin).
        by apply list_elem_of_singleton in Hin.
Qed.

(** X27. With [preview] and [local] both set, or with a persistence
    directory but without [local], [executeSql] does not return and
    executes nothing: no local execution, no prompt, no authentication,
    no request. *)
Theorem conflicting_flags_execute_nothing (batchSize : nat) :
  flag preview && flag local = true ∨ given persistTo && negb (flag local) = true →
  (∀ result, snd (sql_of batchSize) ≠ Returns result)
  ∧ Forall (λ e, reaches e = false) (fst (sql_of batchSize)).
Proof.
  intros Hconflict.
  destruct (executeSql_cases batchSize)
    as [(Hnot & log & -> & Hlog) | (sql & queries & _ & _ & Hpl & Hpt & _)].
  - split; [exact Hnot |].
    rewrite !Forall_app. split; [destruct (flag json); listed |]. split.
    + eapply Forall_impl; [apply readSql_effects |]. by intros e [f ->].
    + destruct Hlog as [-> | ->]; listed.
  - destruct Hconflict; congruence.
Qed.

Lemma loggerLevel_app (level : string) (effects1 effects2 : list Effect) :
  loggerLevel level (effects1 ++ effects2)
  = loggerLevel (loggerLevel level effects1) effects2.
Proof. apply foldl_app. Qed.

Lemma loggerLevel_quiet (level : string) (effects : list Effect) :
  Forall (λ e, setsLevel e = false) effects → loggerLevel level effects = level.
Proof.
  induction 1 as [| e effects He _ IH]; [done |].
  unfold loggerLevel in *. cbn [foldl]. by destruct e.
Qed.

Lemma execute_quiet (batchSize : nat) (queries : list string) :
  Forall (λ e, setsLevel e = false ∧ prints e = false)
         (fst (execute_of batchSize queries)).
Proof.
  destruct (execute_cases batchSize queries)
    as [(_ & ->) | [(_ & _ & ->) | (batches & logs & _ & _ & Hlogs & -> & _)]];
    [listed | listed |].
  apply Forall_app. split.
  - eapply Forall_impl; [exact Hlogs |]. by intros e (m & -> & Hp).
  - apply executeRemotely_quiet.
Qed.

(** X28. With [json] set, [executeSql] leaves the logger at the level it
    found when it returns, and at the level "error" when it throws or
    does not come back; without [json] it never changes the level. *)
Theorem logger_level_after (batchSize : nat) :
  loggerLevel existingLogLevel (fst (sql_of batchSize))
  = if flag json
    then match snd (sql_of batchSize) with
         | Returns _ => existingLogLevel
         | _ => "error"
         end
    else existingLogLevel.
Proof.
  assert (Hread : ∀ level, loggerLevel level (fst (readSql W file command)) = level).
  { intros level. apply loggerLevel_quiet.
    eapply Forall_impl; [apply readSql_effects |]. by intros e [f ->]. }
  destruct (executeSql_cases batchSize)
    as [(Hnot & log & -> & Hlog) | (sql & queries & _ & _ & _ & _ & _ & _ & -> & ->)].
  - rewrite !loggerLevel_app, Hread.
    rewrite (loggerLevel_quiet _ log) by (destruct Hlog as [-> | ->]; listed).
    destruct (flag json); [| done].
    destruct (snd (sql_of batchSize)) as [result | e |]; [by destruct (Hnot result) | done ..].
  - rewrite !loggerLevel_app, Hread.
    rewrite (loggerLevel_quiet _ [Log Mapping]) by listed.
    rewrite (loggerLevel_quiet _ (fst (execute_of batchSize queries)))
      by (eapply Forall_impl; [apply execute_quiet |]; by intros e [? _]).
    by destruct (flag json), (snd (execute_of batchSize queries)).
Qed.

(** X29. For SQL read from a file, with flags that do not conflict:
    when the splitter finds no statement the call ends in the engine's
    error for [undefined.startsWith], and when the first statement starts
    with the header of a SQLite database file it ends in the error for a
    binary file; either way nothing is executed. *)
Theorem file_is_checked_first (batchSize : nat) (f sql : string) :
  file = Some f → f ≠ "" →
  readFileSync W f = Returns sql → sql ≠ "" →
  flag preview && flag local = false →
  given persistTo && negb (flag local) = false →
  (splitSqlQuery W sql = Returns [] →
   sql_of batchSize
   = (((if flag json then [SetLoggerLevel "error"] else [])
       ++ [ReadFile f; Log Mapping])%list,
      Throws (undefinedStartsWith W)))
  ∧ (∀ first rest,
       splitSqlQuery W sql = Returns (first :: rest) →
       String.prefix "SQLite format 3" first = true →
       sql_of batchSize
       = (((if flag json then [SetLoggerLevel "error"] else [])
           ++ [ReadFile f; Log Mapping])%list,
          Throws (newError W binaryFileMessage))).
Proof.
  intros -> Hf Hfile Hsql Hpl Hpt.
  assert (Hgf : given (Some f) = true).
  { unfold given. by destruct (String.eqb_spec f ""). }
  assert (Hgs : given (Some sql) = true).
  { unfold given. by destruct (String.eqb_spec sql ""). }
  assert (Hstart : ∀ k : option string → M (option (list QueryResult)),
            (when (flag json) (emit (SetLoggerLevel "error"));;
             readSql W (Some f) command ≫= k)
            = ((if flag json then [SetLoggerLevel "error"] else []) ++ [ReadFile f]
               ++ fst (k (Some sql)), snd (k (Some sql)))%list).
  { intros k. unfold readSql. rewrite Hgf, !bind_pair. unfold call. rewrite Hfile.
    cbn [fst snd mret M_ret]. rewrite ?bind_pair. cbn [fst snd app].
    by destruct (flag json). }
  unfold executeSql. rewrite Hstart, Hgf, Hgs, Hpl, Hpt. cbn [negb andb when].
  split.
  - intros ->. rewrite !bind_pair. cbn [emit throw fst snd].
    rewrite !bind_pair. cbn [fst snd]. by rewrite !app_nil_r.
  - intros first rest -> Hprefix. rewrite !bind_pair. cbn [emit throw fst snd].
    rewrite !bind_pair. cbn [fst snd]. rewrite Hprefix. by rewrite !app_nil_r.
Qed.

(** The level [executeSql] leaves the logger at, whatever level it
    starts from. *)
Lemma executeSql_level (batchSize : nat) (level : string) :
  loggerLevel level (fst (sql_of batchSize))
  = if flag json
    then match snd (sql_of batchSize) with
         | Returns _ => existingLogLevel
         | _ => "error"
         end
    else level.
Proof.
  assert (Hread : ∀ l, loggerLevel l (fst (readSql W file command)) = l).
  { intros l. apply loggerLevel_quiet.
    eapply Forall_impl; [apply readSql_effects |]. by intros e [f ->]. }
  destruct (executeSql_cases batchSize)
    as [(Hnot & log & -> & Hlog) | (sql & queries & _ & _ & _ & _ & _ & _ & -> & ->)].
  - rewrite !loggerLevel_app, Hread.
    rewrite (loggerLevel_quiet _ log) by (destruct Hlog as [-> | ->]; listed).
    destruct (flag json); [| done].
    destruct (snd (sql_of batchSize)) as [result | e |]; [by destruct (Hnot result) | done ..].
  - rewrite !loggerLevel_app, Hread.
    rewrite (loggerLevel_quiet _ [Log Mapping]) by listed.
    rewrite (loggerLevel_quiet _ (fst (execute_of batchSize queries)))
      by (eapply Forall_impl; [apply execute_quiet |]; by intros e [? _]).
    by destruct (flag json), (snd (execute_of batchSize queries)).
Qed.

(** [executeSql] does not print the response. *)
Lemma executeSql_no_prints (batchSize : nat) :
  Forall (λ e, prints e = false) (fst (sql_of batchSize)).
Proof.
  assert (Hread : Forall (λ e, prints e = false) (fst (readSql W file command))).
  { eapply Forall_impl; [apply readSql_effects |]. by intros e [f ->]. }
  destruct (executeSql_cases batchSize)
    as [(_ & log & -> & Hlog) | (sql & queries & _ & _ & _ & _ & _ & _ & -> & _)].
  - rewrite !Forall_app. split; [destruct (flag json); listed |]. split; [done |].
    destruct Hlog as [-> | ->]; listed.
  - rewrite !Forall_app. split; [destruct (flag json); listed |]. split; [done |].
    split; [listed |]. split.
    + eapply Forall_impl; [apply execute_quiet |]. by intros e [_ ?].
    + destruct (snd (execute_of batchSize queries)), (flag json); listed.
Qed.

End Sql.

(** *** [Handler] *)

Lemma existsb_prints_none (effects : list Effect) :
  Forall (λ e, prints e = false) effects → existsb prints effects = false.
Proof.
  induction 1 as [| e effects He _ IH]; [done |].
  simpl. by rewrite He, IH.
Qed.

(** X30. [Handler] given both a file and a command executes nothing and
    prints nothing.  With [json] set it never renders tables, and it
    leaves the logger at the level it found exactly when it has printed
    the response: after conflicting arguments, an error, or an execution
    that returned no response, the logger is left at the level "error".
    Without [json] it leaves the logger at the level it found. *)
Theorem Handler_restores_level_with_the_response (W : World)
    (existingLogLevel : string) (isTTY local : option bool) (database : string)
    (yes : option bool) (persistTo file command : option string)
    (json preview : option bool) (batchSize : nat) :
  let handled := Handler W existingLogLevel isTTY local database yes persistTo file
                   command json preview batchSize in
  (given file && given command = true →
   Forall (λ e, reaches e = false ∧ prints e = false) (fst handled))
  ∧ (flag json = true →
     Forall (λ e, ∀ response, e ≠ Log (Rendered response)) (fst handled))
  ∧ loggerLevel existingLogLevel (fst handled)
    = if flag json && negb (existsb prints (fst handled))
      then "error"
      else existingLogLevel.
Proof.
  cbn zeta. unfold Handler.
  assert (Hwhen : when (flag json) (emit (SetLoggerLevel "error"))
                  = (if flag json then [SetLoggerLevel "error"] else [], Returns ())).
  { by destruct (flag json). }
  rewrite bind_pair, Hwhen. cbn [fst snd]. rewrite bind_pair. cbn [call fst snd].
  destruct (readConfig W) as [[] | e |]; cbn [fst snd].
  2, 3: split; [intros _; destruct (flag json); listed |];
        split; [intros _; destruct (flag json); listed |];
        by destruct (flag json).
  destruct (given file && given command) eqn:Hboth.
  { split; [intros _; destruct (flag json); listed |].
    split; [intros _; destruct (flag json); listed |].
    by destruct (flag json). }
  rewrite bind_pair.
  pose proof (executeSql_level W (if flag json then "error" else existingLogLevel)
                local database
                (if flag isTTY then Some (negb (flag yes)) else isTTY)
                persistTo file command json preview batchSize) as Hlevel.
  pose proof (executeSql_no_prints W (if flag json then "error" else existingLogLevel)
                local database
                (if flag isTTY then Some (negb (flag yes)) else isTTY)
                persistTo file command json preview batchSize) as Hquiet.
  destruct (executeSql W _ local database _ persistTo file command json preview batchSize)
    as [effects out].
  cbn [fst snd] in *.
  pose proof (existsb_prints_none effects Hquiet) as Hnone.
  split; [done |].
  assert (Hrendered : Forall (λ e, ∀ response, e ≠ Log (Rendered response)) effects).
  { eapply Forall_impl; [exact Hquiet |]. intros e He response ->. done. }
  destruct (flag json) eqn:Hjson.
  - rewrite andb_false_r.
    destruct out as [[response |] | e |]; cbn [fst snd emit mret M_ret];
      rewrite ?bind_pair; cbn [fst snd emit];
      (split; [intros _; rewrite !Forall_app; repeat split; try done; listed |]);
      rewrite !loggerLevel_app, !existsb_app, Hlevel, Hnone; done.
  - destruct out as [[response |] | e |]; cbn [fst snd emit mret M_ret];
      rewrite ?bind_pair; cbn [fst snd emit];
      (split; [done |]);
      rewrite !loggerLevel_app, Hlevel; try done.
    by destruct (flag isTTY && negb false).
Qed.

End D1ExecuteLaws.

(** ** The further properties on the database of [D1Scenario] *)

Module D1LawsOnScenarios.
Import JS D1Execute D1Scenario.
Import D1Laws D1ExecuteLaws.


(** Three batches, all answered. *)
Lemma all_batches_sent_on_return_three :
  ∃ accountId db,
    requireAuth (world true 3 statements) = Returns accountId
    ∧ getDatabaseByNameOrBinding (world true 3 statements) accountId "shop" = Returns db
    ∧ fetchedSql (fst (executeRemotely (world true 3 statements) "shop" (Some true)
                         statements None None))
      = sqlBody <$> statements
    ∧ [answer 0; answer 1; answer 2]
      = concat (answers (world true 3 statements)
                  (queryResource accountId (dbUuid None db)) db 0 statements).
Proof.
  apply (all_batches_sent_on_return (world true 3 statements) "shop" (Some true)
           statements None None [answer 0; answer 1; answer 2]).
  reflexivity.
Defined.

(** Three batches, the second fails: the third is not sent. *)
Lemma failed_batch_stops_at_second :
  ∃ accountId db (j : nat) (sql : string),
    requireAuth (world true 1 statements) = Returns accountId
    ∧ getDatabaseByNameOrBinding (world true 1 statements) accountId "shop" = Returns db
    ∧ statements !! j = Some sql
    ∧ fetchResult (world true 1 statements) j (queryResource accountId (dbUuid None db))
        (requestInit db sql)
      = Throws d1Error
    ∧ fetchedSql (fst (executeRemotely (world true 1 statements) "shop" (Some true)
                         statements None None))
      = sqlBody <$> take (S j) statements.
Proof.
  apply (failed_batch_stops (world true 1 statements) "shop" (Some true)
           statements None None d1Error).
  - reflexivity.
  - vm_compute. discriminate.
Defined.

(** With [preview], the first request goes to the preview database. *)
Lemma requests_target_preview :
  ∃ accountId db sql,
    requireAuth (world true 3 statements) = Returns accountId
    ∧ getDatabaseByNameOrBinding (world true 3 statements) accountId "shop" = Returns db
    ∧ sql ∈ statements
    ∧ requestInit main "CREATE TABLE t (a)" = requestInit db sql
    ∧ method (requestInit main "CREATE TABLE t (a)") = "POST"
    ∧ body (requestInit main "CREATE TABLE t (a)") = sqlBody sql
    ∧ "/accounts/account-1/d1/database/db-preview/query"
      = queryResource accountId (dbUuid (Some true) db)
    ∧ (if flag (Some true)
       then previewDatabaseUuid db = Some (dbUuid (Some true) db)
            ∧ dbUuid (Some true) db ≠ ""
       else dbUuid (Some true) db = uuid db).
Proof.
  apply (requests_target (world true 3 statements) "shop" None statements
           (Some true) (Some true) "/accounts/account-1/d1/database/db-preview/query"
           (requestInit main "CREATE TABLE t (a)")).
  apply list_elem_of_lookup. exists 5%nat. reflexivity.
Defined.

(** A file of three statements, two per batch. *)
Lemma remote_execution_sends_the_batches_of_a_file :
  ∃ sql queries batches,
    ((given (Some "schema.sql") = true
      ∧ ∃ f, Some "schema.sql" = Some f
             ∧ readFileSync (world true 2 statements) f = Returns sql)
     ∨ (given (Some "schema.sql") = false ∧ None = Some sql))
    ∧ splitSqlQuery (world true 2 statements) sql = Returns queries
    ∧ D1.batchSplit queries 2 = Some batches
    ∧ fetchedSql (fst (executeSql (world true 2 statements) "log" None "shop" (Some true)
                         None (Some "schema.sql") None None None 2))
      = sqlBody <$> batches.
Proof.
  apply (remote_execution_sends_the_batches (world true 2 statements) "log" None "shop"
           (Some true) None (Some "schema.sql") None None None 2 [answer 0; answer 1]);
    reflexivity.
Defined.

(** The same file against the local database, with a batch size of zero
    and of two. *)
Lemma local_execution_stays_local_file :
  executeSql (world true 0 statements) "log" (Some true) "shop" None None
    (Some "schema.sql") None None None 0
  = executeSql (world true 0 statements) "log" (Some true) "shop" None None
      (Some "schema.sql") None None None 2
  ∧ Forall (λ e, remoteStep e = false)
      (fst (executeSql (world true 0 statements) "log" (Some true) "shop" None None
              (Some "schema.sql") None None None 0))
  ∧ ∀ name' queries persistTo',
      ExecuteLocally name' queries persistTo'
      ∈ fst (executeSql (world true 0 statements) "log" (Some true) "shop" None None
               (Some "schema.sql") None None None 0) →
      name' = "shop" ∧ persistTo' = None
      ∧ ∃ sql,
          ((given (Some "schema.sql") = true
            ∧ ∃ f, Some "schema.sql" = Some f
                   ∧ readFileSync (world true 0 statements) f = Returns sql)
           ∨ (given (Some "schema.sql") = false ∧ None = Some sql))
          ∧ splitSqlQuery (world true 0 statements) sql = Returns queries.
Proof.
  apply (local_execution_stays_local (world true 0 statements) "log" (Some true) "shop"
           None None (Some "schema.sql") None None None 0 2).
  reflexivity.
Defined.

(** [--preview] with [--local]. *)
Lemma conflicting_flags_preview_local :
  (∀ result,
     snd (executeSql (world true 3 statements) "log" (Some true) "shop" None None None
            (Some "SELECT 1") None (Some true) 2) ≠ Returns result)
  ∧ Forall (λ e, reaches e = false)
      (fst (executeSql (world true 3 statements) "log" (Some true) "shop" None None None
              (Some "SELECT 1") None (Some true) 2)).
Proof.
  apply (conflicting_flags_execute_nothing (world true 3 statements) "log" (Some true)
           "shop" None None None (Some "SELECT 1") None (Some true) 2).
  by left.
Defined.

(** A file in which the splitter finds no statement. *)
Lemma file_is_checked_first_blank :
  (splitSqlQuery (world true 3 []) "CREATE TABLE t (a); INSERT INTO t VALUES (1); INSERT INTO t VALUES (2)"
   = Returns [] →
   executeSql (world true 3 []) "log" None "shop" None None (Some "blank.sql") None
     (Some true) None 2
   = (((if flag (Some true) then [SetLoggerLevel "error"] else [])
       ++ [ReadFile "blank.sql"; Log Mapping])%list,
      Throws (undefinedStartsWith (world true 3 []))))
  ∧ (∀ first rest,
       splitSqlQuery (world true 3 []) "CREATE TABLE t (a); INSERT INTO t VALUES (1); INSERT INTO t VALUES (2)"
       = Returns (first :: rest) →
       String.prefix "SQLite format 3" first = true →
       executeSql (world true 3 []) "log" None "shop" None None (Some "blank.sql") None
         (Some true) None 2
       = (((if flag (Some true) then [SetLoggerLevel "error"] else [])
           ++ [ReadFile "blank.sql"; Log Mapping])%list,
          Throws (newError (world true 3 []) binaryFileMessage))).
Proof.
  apply (file_is_checked_first (world true 3 []) "log" None "shop" None None
           (Some "blank.sql") None (Some true) None 2 "blank.sql"
           "CREATE TABLE t (a); INSERT INTO t VALUES (1); INSERT INTO t VALUES (2)");
    done.
Defined.

End D1LawsOnScenarios.
